(** * Codexa ranking engine: BM25 search, tag recommendations, trending

    A shallow embedding of [src/utils/algorithms/bm25.ts],
    [src/utils/algorithms/recommendations.ts] and
    [src/utils/algorithms/trending.ts], with the properties of the engine's
    specification stated and proved over it.

    Conventions of the embedding.
    - A JavaScript [number] is an exact rational ([Q]); equality of numbers is
      [Qeq].  Rounding, [NaN] and the infinities are outside the model: the one
      operation that leaves the finite numbers, a division whose divisor is
      zero, is made explicit by [JS.div], which returns [None] there.  A
      function of the source that divides by something other than a non-zero
      literal therefore returns an [option], and "the function does not divide
      by zero" reads "the function returns [Some]".
    - [Math.log], [Math.exp] and [Math.pow] belong to the runtime, not to the
      repository: they are section variables, so every theorem holds for any
      implementation of them.  [JS.Math_log_series] is a rational stand-in
      used to run the definitions on concrete inputs.
    - A string is a sequence of code units below 256 ([string]); [toLowerCase],
      [\w] and [\s] are written out on that range.
    - [new Date()] reads a clock; the clock is a parameter.
    - Optional parameters and optional fields are [option]s, with the default
      of the source applied where the source applies it. *)

From Stdlib Require Import QArith Qminmax ZArith List String Ascii Lia Lqa Bool Sorted.
From stdpp Require Import gmap strings list fin_maps.

Open Scope Q_scope.

(** ** The JavaScript runtime pieces the three files use *)

Module JS.

(** [x / y], defined when the divisor is not zero. *)
Definition div (x y : Q) : option Q :=
  if Qeq_bool y 0 then None else Some (x / y).

(** [x < y] on numbers. *)
Definition ltb (x y : Q) : bool := negb (Qle_bool y x).

(** [array.length] as a number. *)
Definition len {A : Type} (l : list A) : Q := inject_Z (Z.of_nat (length l)).

(** A rational stand-in for [Math.log]: the series
    [2 (y + y^3/3 + y^5/5 + y^7/7)] with [y = (x-1)/(x+1)], on [x > 0]. It is
    [0] at [1], positive above [1] and negative below. *)
Definition Math_log_series (x : Q) : Q :=
  if Qle_bool x 0 then 0
  else
    let y := Qred ((x - 1) / (x + 1)) in
    let y2 := Qred (y * y) in
    Qred (2 * y * (1 + y2 * ((1 # 3) + y2 * ((1 # 5) + y2 * (1 # 7))))).

(** *** Strings *)

(** [\s] of a regular expression and the blanks [trim] removes: tab, line
    feed, vertical tab, form feed, carriage return, space, no-break space. *)
Definition isSpace (c : ascii) : bool :=
  let n := nat_of_ascii c in
  ((9 <=? n) && (n <=? 13))%nat || (n =? 32)%nat || (n =? 160)%nat.

Definition isDigit (c : ascii) : bool :=
  let n := nat_of_ascii c in ((48 <=? n) && (n <=? 57))%nat.

Definition isUpper (c : ascii) : bool :=
  let n := nat_of_ascii c in ((65 <=? n) && (n <=? 90))%nat.

Definition isLower (c : ascii) : bool :=
  let n := nat_of_ascii c in ((97 <=? n) && (n <=? 122))%nat.

Definition isUnderscore (c : ascii) : bool := (nat_of_ascii c =? 95)%nat.

(** [\w] of a regular expression: [A-Za-z0-9_]. *)
Definition isWordChar (c : ascii) : bool :=
  isDigit c || isUpper c || isLower c || isUnderscore c.

(** [toLowerCase] on one code unit: [A-Z], and the upper-case letters of
    Latin-1 (U+00C0 to U+00DE, the multiplication sign U+00D7 apart). *)
Definition lowerChar (c : ascii) : ascii :=
  let n := nat_of_ascii c in
  if isUpper c then ascii_of_nat (n + 32)
  else if ((192 <=? n) && (n <=? 222) && negb (n =? 215))%nat
       then ascii_of_nat (n + 32)
       else c.

Fixpoint mapChars (f : ascii -> ascii) (s : string) : string :=
  match s with
  | EmptyString => EmptyString
  | String c rest => String (f c) (mapChars f rest)
  end.

Definition toLowerCase (s : string) : string := mapChars lowerChar s.

Definition startsWithSpace (s : string) : bool :=
  match s with
  | EmptyString => false
  | String c _ => isSpace c
  end.

(** [s.split(/\s+/)]: the pieces between the maximal runs of blanks; a run
    at either end leaves an empty piece there, and the empty string gives one
    empty piece. *)
Fixpoint splitSpaces (s : string) : list string :=
  match s with
  | EmptyString => [EmptyString]
  | String c rest =>
      if isSpace c then
        if startsWithSpace rest then splitSpaces rest
        else EmptyString :: splitSpaces rest
      else
        match splitSpaces rest with
        | piece :: pieces => String c piece :: pieces
        | [] => [String c EmptyString]
        end
  end.

Fixpoint trimStart (s : string) : string :=
  match s with
  | EmptyString => EmptyString
  | String c rest => if isSpace c then trimStart rest else s
  end.

(** The string without its trailing blanks. *)
Fixpoint trimEnd (s : string) : string :=
  match s with
  | EmptyString => EmptyString
  | String c rest =>
      match trimEnd rest with
      | EmptyString => if isSpace c then EmptyString else String c EmptyString
      | kept => String c kept
      end
  end.

Definition trim (s : string) : string := trimEnd (trimStart s).

(** Truthiness of a string: the empty string is falsy. *)
Definition truthy (s : string) : bool :=
  match s with
  | EmptyString => false
  | String _ _ => true
  end.

Fixpoint isPrefix (p s : string) : bool :=
  match p, s with
  | EmptyString, _ => true
  | String a p', String c s' => Ascii.eqb a c && isPrefix p' s'
  | String _ _, EmptyString => false
  end.

(** [s.includes(p)]. *)
Fixpoint includes (s p : string) : bool :=
  isPrefix p s ||
  match s with
  | EmptyString => false
  | String _ rest => includes rest p
  end.

(** [array.join(sep)]. *)
Fixpoint join (sep : string) (l : list string) : string :=
  match l with
  | [] => EmptyString
  | [x] => x
  | x :: rest => (x ++ sep ++ join sep rest)%string
  end.

(** Every code unit of [s] satisfies [p]. *)
Fixpoint allChars (p : ascii -> bool) (s : string) : bool :=
  match s with
  | EmptyString => true
  | String c rest => p c && allChars p rest
  end.

(** *** Arrays *)

(** [Array.prototype.sort] is stable: an element moves in front of another
    only when it must.  [before x y] says that [x] may stay in front of [y]. *)
Fixpoint insertSorted {A : Type} (before : A -> A -> bool) (x : A) (l : list A) : list A :=
  match l with
  | [] => [x]
  | y :: rest =>
      if before x y then x :: y :: rest else y :: insertSorted before x rest
  end.

Definition sortBy {A : Type} (before : A -> A -> bool) (l : list A) : list A :=
  foldr (insertSorted before) [] l.

(** [array.sort(compare)]: [x] stays in front of [y] unless [compare x y > 0]. *)
Definition sort {A : Type} (compare : A -> A -> Q) (l : list A) : list A :=
  sortBy (fun x y => Qle_bool (compare x y) 0) l.

(** [array.sort()] on strings: code-unit order. *)
Definition sortStrings (l : list string) : list string := sortBy String.leb l.

(** [array.slice(0, end)] for an integer [end]; a negative [end] counts from
    the end of the array. *)
Definition slice0 {A : Type} (l : list A) (stop : Z) : list A :=
  if (stop <? 0)%Z then take (Z.to_nat (Z.of_nat (length l) + stop)) l
  else take (Z.to_nat stop) l.

(** A JavaScript [Set] of strings keeps its members in the order they were
    added. *)
Definition setAdd (s : list string) (x : string) : list string :=
  if bool_decide (x ∈ s) then s else s ++ [x].

Definition setOf (l : list string) : list string := foldl setAdd [] l.

(** [array.map(f)] when [f] may divide by zero. *)
Fixpoint mapM' {A B : Type} (f : nat -> A -> option B) (i : nat) (l : list A) : option (list B) :=
  match l with
  | [] => Some []
  | x :: rest =>
      match f i x with
      | None => None
      | Some y =>
          match mapM' f (S i) rest with
          | None => None
          | Some ys => Some (y :: ys)
          end
      end
  end.

(** A loop over an array whose body may divide by zero. *)
Fixpoint foldM' {A S : Type} (f : S -> A -> option S) (s : S) (l : list A) : option S :=
  match l with
  | [] => Some s
  | x :: rest =>
      match f s x with
      | None => None
      | Some s' => foldM' f s' rest
      end
  end.

End JS.

(** ** BM25 search ranking ([bm25.ts]) *)

Module BM25.

Record BM25Config := {
  k1 : option Q;
  b : option Q
}.

Record Document := {
  id : string;
  text : string;
  title : option string;
  subtitle : option string;
  tags : option (list string)
}.

(** [{ ...doc, score }]. *)
Record ScoredDocument := {
  document : Document;
  score : Q
}.

(** [.replace(/[^\w\s]/g, " ")]. *)
Definition replaceNonWord (s : string) : string :=
  JS.mapChars (fun c => if JS.isWordChar c || JS.isSpace c then c else " "%char) s.

Definition tokenize (text : string) : list string :=
  List.filter (fun word => (2 <? String.length word)%nat)
    (JS.splitSpaces (replaceNonWord (JS.toLowerCase text))).

(** A letter of [A-Za-z] or a digit. *)
Definition isAlphanumeric (c : ascii) : bool :=
  JS.isDigit c || JS.isUpper c || JS.isLower c.

Definition replaceNonAlphanumeric (s : string) : string :=
  JS.mapChars (fun c => if isAlphanumeric c || JS.isSpace c then c else " "%char) s.

(** The tokenizer as the specification words it ("lowercases input, replaces
    every non-alphanumeric/non-whitespace character with a space, splits on
    whitespace runs, and discards tokens of length <= 2"), to be compared
    with [tokenize]. *)
Definition tokenizeSpec (text : string) : list string :=
  List.filter (fun word => (2 <? String.length word)%nat)
    (JS.splitSpaces (replaceNonAlphanumeric (JS.toLowerCase text))).

(** A lower-case letter or a digit. *)
Definition isLowerAlphanumeric (c : ascii) : bool := JS.isDigit c || JS.isLower c.

(** A lower-case letter, a digit or the underscore. *)
Definition isLowerWordChar (c : ascii) : bool :=
  JS.isDigit c || JS.isLower c || JS.isUnderscore c.

Definition STOP_WORDS : gset string :=
  list_to_set
    ["the"; "a"; "an"; "and"; "or"; "but"; "in"; "on"; "at"; "to"; "for";
     "of"; "with"; "by"; "from"; "as"; "is"; "was"; "are"; "were"; "been";
     "be"; "have"; "has"; "had"; "do"; "does"; "did"; "will"; "would";
     "should"; "could"; "may"; "might"; "must"; "can"; "this"; "that";
     "these"; "those"; "i"; "you"; "he"; "she"; "it"; "we"; "they"; "what";
     "which"; "who"; "when"; "where"; "why"; "how"]%string.

(** [STOP_WORDS.has(term)]. *)
Definition isStopWord (term : string) : bool := bool_decide (term ∈ STOP_WORDS).

Definition calculateTF (term : string) (tokens : list string) : Q :=
  JS.len (List.filter (fun token => String.eqb token term) tokens).

(** The body of the inner loop of [buildInvertedIndex]. *)
Definition addToken (docId : string) (index : gmap string (gset string))
    (token : string) : gmap string (gset string) :=
  if isStopWord token then index
  else
    let index1 :=
      if bool_decide (is_Some (index !! token)) then index
      else <[token := ∅]> index in
    match index1 !! token with
    | Some ids => <[token := ids ∪ {[docId]}]> index1
    | None => index1
    end.

Definition buildInvertedIndex (documents : list Document) : gmap string (gset string) :=
  foldl
    (fun index doc => foldl (addToken (id doc)) index (JS.setOf (tokenize (text doc))))
    ∅ documents.

(** An invariant of the index: every key is a token of some document. *)
Definition keysFrom (documents : list Document)
    (index : gmap string (gset string)) : Prop :=
  forall term, is_Some (index !! term) ->
  exists doc, In doc documents /\ In term (tokenize (text doc)).

Definition calculateAvgDocLength (documents : list Document) : option Q :=
  let totalLength :=
    foldl (fun sum doc => sum + JS.len (tokenize (text doc))) 0 documents in
  if JS.ltb 0 (JS.len documents) then JS.div totalLength (JS.len documents)
  else Some 0.

(** The boost of a term for a document: title, else subtitle, else tags. *)
Definition fieldBoost (doc : Document) (term : string) : Q :=
  let termLower := JS.toLowerCase term in
  if match title doc with
     | Some t => JS.includes (JS.toLowerCase t) termLower
     | None => false
     end
  then 2
  else if match subtitle doc with
          | Some t => JS.includes (JS.toLowerCase t) termLower
          | None => false
          end
  then 3 # 2
  else if match tags doc with
          | Some ts => existsb (fun tag => JS.includes (JS.toLowerCase tag) termLower) ts
          | None => false
          end
  then 13 # 10
  else 1.

(** The pass-through test of [rankDocumentsWithBM25]:
    [!query.trim() || documents.length === 0]. *)
Definition passThrough (query : string) (documents : list Document) : bool :=
  negb (JS.truthy (JS.trim query)) || (length documents =? 0)%nat.

Section WithRuntime.

Variable Math_log : Q -> Q.

Definition calculateIDF (term : string) (documents : list Document)
    (allTokens : gmap string (gset string)) : option Q :=
  let N := JS.len documents in
  let n := match allTokens !! term with
           | Some ids => inject_Z (Z.of_nat (size ids))
           | None => 0
           end in
  if Qeq_bool n 0 then Some 0
  else r ← JS.div (N - n + (1 # 2)) (n + (1 # 2)); Some (Math_log r).

(** One turn of the loop over the query's tokens; [continue] leaves the
    score as it is. *)
Definition scoreTerm (doc : Document) (allDocuments : list Document)
    (invertedIndex : gmap string (gset string)) (avgDocLength : Q)
    (config : BM25Config) (score : Q) (term : string) : option Q :=
  let k1 := default (3 # 2) (k1 config) in
  let b := default (3 # 4) (b config) in
  let docTokens := tokenize (text doc) in
  let docLength := JS.len docTokens in
  if isStopWord term then Some score
  else
    idf ← calculateIDF term allDocuments invertedIndex;
    if Qle_bool idf 0 then Some score
    else
      let tf := calculateTF term docTokens in
      let boost := fieldBoost doc term in
      let numerator := tf * (k1 + 1) in
      ratio ← JS.div docLength avgDocLength;
      let denominator := tf + k1 * (1 - b + b * ratio) in
      termScore ← JS.div (idf * numerator) denominator;
      Some (score + termScore * boost).

Definition calculateBM25Score (query : string) (doc : Document)
    (allDocuments : list Document) (invertedIndex : gmap string (gset string))
    (avgDocLength : Q) (config : BM25Config) : option Q :=
  JS.foldM' (scoreTerm doc allDocuments invertedIndex avgDocLength config)
    0 (tokenize query).

Definition rankDocumentsWithBM25 (query : string) (documents : list Document)
    (config : BM25Config) : option (list ScoredDocument) :=
  if passThrough query documents then
    Some (map (fun doc => {| document := doc; score := 0 |}) documents)
  else
    let invertedIndex := buildInvertedIndex documents in
    avgDocLength ← calculateAvgDocLength documents;
    scoredDocs ← JS.mapM'
      (fun _ doc =>
         score ← calculateBM25Score query doc documents invertedIndex avgDocLength config;
         Some {| document := doc; score := score |})
      0%nat documents;
    Some (JS.sort (fun x y => score y - score x)
            (List.filter (fun doc => JS.ltb 0 (score doc)) scoredDocs)).

End WithRuntime.

End BM25.

(** ** Content-based recommendations ([recommendations.ts]) *)

Module Tag.
Record t := { id : string; name : string; slug : string }.
End Tag.

Module Recommendations.

Record Article := {
  id : string;
  tags : list Tag.t;
  likesCount : Z;
  commentsCount : Z;
  readCount : Z;
  createdAt : Z   (* milliseconds since the epoch *)
}.

(** The arrays of shared tag names live in a store: [sort()] changes an
    array in place, and a record holds the address of its array. *)
Abbreviation store := (list (list string)).

(** [{ ...article, similarityScore, sharedTags }]. *)
Record RecommendedArticle := {
  article : Article;
  similarityScore : Q;
  sharedTags : nat
}.

Definition hasTag (tagId : string) (a : Article) : bool :=
  existsb (fun t => String.eqb (Tag.id t) tagId) (tags a).

(** [article.tags.find((t) => t.id === tagId)?.name]. *)
Definition tagNameOf (tagId : string) (a : Article) : option string :=
  Tag.name <$> List.find (fun t => String.eqb (Tag.id t) tagId) (tags a).

Definition applyRecencyDecay (now : Z) (similarity : Q) (articleDate : Z) : Q :=
  let daysOld := inject_Z (now - articleDate) / (1000 * 60 * 60 * 24) in
  let ageFactor := Qmin 1 (daysOld / 365) * (2 # 10) in
  similarity * (1 - ageFactor).

Section WithRuntime.

Variable Math_log : Q -> Q.

Definition calculateTagWeight (tagId tagName : string) (a : Article)
    (allArticles : list Article) : option Q :=
  let tf := if hasTag tagId a then 1 else 0 in
  let articlesWithTag := JS.len (List.filter (hasTag tagId) allArticles) in
  r ← JS.div (JS.len allArticles + 1) (articlesWithTag + 1);
  let idf := Math_log r in
  let engagementBoost :=
    1 + Math_log (1 + (inject_Z (likesCount a) * (3 # 10)
                       + inject_Z (commentsCount a) * (5 # 10)
                       + inject_Z (readCount a) * (2 # 10))) in
  Some (tf * idf * engagementBoost).

(** The number [calculateTagWeight] returns: its division is by a count
    plus one. *)
Definition weightOf (tagId : string) (a : Article) (allArticles : list Article) : Q :=
  (if hasTag tagId a then 1 else 0)
  * Math_log ((JS.len allArticles + 1)
              / (JS.len (List.filter (hasTag tagId) allArticles) + 1))
  * (1 + Math_log (1 + (inject_Z (likesCount a) * (3 # 10)
                        + inject_Z (commentsCount a) * (5 # 10)
                        + inject_Z (readCount a) * (2 # 10)))).

(** The map from tag id to weight that [calculateWeightedJaccard] fills for
    one article. *)
Definition tagWeights (a : Article) (allArticles : list Article) : option (gmap string Q) :=
  JS.foldM'
    (fun weights tag =>
       weight ← calculateTagWeight (Tag.id tag) (Tag.name tag) a allArticles;
       Some (<[Tag.id tag := weight]> weights))
    ∅ (tags a).

(** The map [tagWeights] returns, tag after tag. *)
Definition weightsFrom (a : Article) (allArticles : list Article)
    (weights : gmap string Q) (ts : list Tag.t) : gmap string Q :=
  foldl (fun m t => <[Tag.id t := weightOf (Tag.id t) a allArticles]> m) weights ts.

(** One turn of the loop over [allTagIds]; the state is
    [(minSum, maxSum, sharedTags)]. *)
Definition jaccardStep (articleA articleB : Article) (weightsA weightsB : gmap string Q)
    (st : Q * Q * list string) (tagId : string) : Q * Q * list string :=
  let '(minSum, maxSum, sharedTags) := st in
  let weightA := default 0 (weightsA !! tagId) in
  let weightB := default 0 (weightsB !! tagId) in
  let sharedTags' :=
    if JS.ltb 0 weightA && JS.ltb 0 weightB then
      let tagName :=
        match tagNameOf tagId articleA with
        | Some n => n
        | None => default EmptyString (tagNameOf tagId articleB)
        end in
      if JS.truthy tagName then sharedTags ++ [tagName] else sharedTags
    else sharedTags in
  (minSum + Qmin weightA weightB, maxSum + Qmax weightA weightB, sharedTags').

(** Returns [(similarity, sharedTags)]. *)
Definition calculateWeightedJaccard (articleA articleB : Article)
    (allArticles : list Article) : option (Q * list string) :=
  let allTagIds :=
    foldl JS.setAdd (foldl JS.setAdd [] (map Tag.id (tags articleA)))
      (map Tag.id (tags articleB)) in
  weightsA ← tagWeights articleA allArticles;
  weightsB ← tagWeights articleB allArticles;
  let '(minSum, maxSum, sharedTags) :=
    foldl (jaccardStep articleA articleB weightsA weightsB) (0, 0, []) allTagIds in
  similarity ← (if JS.ltb 0 maxSum then JS.div minSum maxSum else Some 0);
  Some (similarity, sharedTags).

(** The [map] over the candidates: the [i]-th candidate reads the clock at
    [clock i] and gets a fresh array for its shared tags. *)
Fixpoint scoreCandidates (clock : nat -> Z) (currentArticle : Article)
    (candidateArticles : list Article) (i : nat) (h : store)
    (candidates : list Article) : option (list RecommendedArticle * store) :=
  match candidates with
  | [] => Some ([], h)
  | a :: rest =>
      '(similarity, shared) ← calculateWeightedJaccard currentArticle a candidateArticles;
      let finalSimilarity := applyRecencyDecay (clock i) similarity (createdAt a) in
      let rec := {| article := a; similarityScore := finalSimilarity;
                    sharedTags := length h |} in
      '(recs, h') ← scoreCandidates clock currentArticle candidateArticles (S i)
                      (h ++ [shared]) rest;
      Some (rec :: recs, h')
  end.

End WithRuntime.

(** The diversity loop over the sorted recommendations; the state is
    [(diverseResults, usedTagCombinations)] and the store. *)
Fixpoint diversityPass (limit : Z) (sorted : list RecommendedArticle)
    (diverseResults : list RecommendedArticle) (usedTagCombinations : gset string)
    (h : store) : list RecommendedArticle * store :=
  match sorted with
  | [] => (diverseResults, h)
  | rec :: rest =>
      if Qle_bool (inject_Z limit) (JS.len diverseResults) then (diverseResults, h)
      else
        let array := JS.sortStrings (default [] (h !! sharedTags rec)) in
        let h' := <[sharedTags rec := array]> h in
        let tagKey := JS.join "," array in
        if negb (bool_decide (tagKey ∈ usedTagCombinations))
           || JS.ltb (JS.len diverseResults) (inject_Z limit / 2)
        then diversityPass limit rest (diverseResults ++ [rec])
               ({[tagKey]} ∪ usedTagCombinations) h'
        else diversityPass limit rest diverseResults usedTagCombinations h'
  end.

Definition getContentBasedRecommendations (Math_log : Q -> Q) (clock : nat -> Z)
    (currentArticle : Article) (candidateArticles : list Article)
    (excludeArticleIds : option (list string)) (limit : option Z)
    : option (list RecommendedArticle * store) :=
  let excludeArticleIds := default [] excludeArticleIds in
  let limit := default 10%Z limit in
  let candidates :=
    List.filter
      (fun a => negb (String.eqb (id a) (id currentArticle))
                && negb (existsb (String.eqb (id a)) excludeArticleIds))
      candidateArticles in
  '(recommendations, h) ←
     scoreCandidates Math_log clock currentArticle candidateArticles 0%nat [] candidates;
  let validRecommendations :=
    List.filter
      (fun rec => JS.ltb 0 (similarityScore rec)
                  && JS.ltb 0 (JS.len (default [] (h !! sharedTags rec))))
      recommendations in
  let sorted :=
    JS.sort (fun x y => similarityScore y - similarityScore x) validRecommendations in
  let '(diverseResults, h') := diversityPass limit sorted [] ∅ h in
  Some (JS.slice0 diverseResults limit, h').

(** What a caller reads in a returned record's [sharedTags]. *)
Definition sharedTagsOf (h : store) (rec : RecommendedArticle) : list string :=
  default [] (h !! sharedTags rec).

(** The array a record points to is in ascending order. *)
Definition sortedTags (h : store) (rec : RecommendedArticle) : Prop :=
  Sorted (fun x y => String.leb x y = true) (sharedTagsOf h rec).

End Recommendations.

(** ** Trending articles ([trending.ts]) *)

Module Trending.

Record Article := {
  id : string;
  likesCount : Z;
  commentsCount : Z;
  readCount : Z;
  createdAt : Z;   (* milliseconds since the epoch *)
  userId : option string;
  authorVerified : option bool;
  qualityScore : option Q
}.

(** [{ ...article, hotScore, engagementScore, timeDecay }]. *)
Record TrendingArticle := {
  article : Article;
  hotScore : Q;
  engagementScore : Q;
  timeDecay : Q
}.

Record Filters := {
  minLikes : option Q;
  minComments : option Q;
  maxAgeDays : option Q;
  useLogarithmicDecay : option bool
}.

Inductive TimeVariant := ANY | WEEK | MONTH | YEAR.

(** [(now.getTime() - article.createdAt.getTime()) / (1000 * 60 * 60 * 24)]. *)
Definition daysOld (now : Z) (a : Article) : Q :=
  inject_Z (now - createdAt a) / (1000 * 60 * 60 * 24).

(** The first test of the filter callback of [rankTrendingArticles]:
    [article.likesCount < minLikes && article.commentsCount < minComments]. *)
Definition failsEngagement (minLikes minComments : Q) (a : Article) : bool :=
  JS.ltb (inject_Z (likesCount a)) minLikes
  && JS.ltb (inject_Z (commentsCount a)) minComments.

(** The second test: [maxAgeDays > 0] and [daysOld > maxAgeDays]. *)
Definition tooOld (now : Z) (maxAgeDays : Q) (a : Article) : bool :=
  JS.ltb 0 maxAgeDays && JS.ltb maxAgeDays (daysOld now a).

(** The filter callback. *)
Definition keepArticle (now : Z) (minLikes minComments maxAgeDays : Q) (a : Article) : bool :=
  if failsEngagement minLikes minComments a then false
  else if tooOld now maxAgeDays a then false
  else true.

Section WithRuntime.

Variables Math_log Math_exp : Q -> Q.
Variable Math_pow : Q -> Q -> Q.

Definition calculateEngagementScore (a : Article) : Q :=
  let engagement :=
    inject_Z (likesCount a) * 2 + inject_Z (commentsCount a) * 3
    + inject_Z (readCount a) * 1 in
  Math_log (1 + engagement).

Definition calculateExponentialDecay (now : Z) (articleDate : Z)
    (decayConstant : option Q) : option Q :=
  let decayConstant := default 7 decayConstant in
  let hoursOld := inject_Z (now - articleDate) / (1000 * 60 * 60) in
  let daysOld := hoursOld / 24 in
  r ← JS.div (- daysOld) decayConstant;
  Some (Math_exp r).

Definition calculateLogarithmicDecay (now : Z) (articleDate : Z)
    (gravity : option Q) : option Q :=
  let gravity := default (18 # 10) gravity in
  let hoursOld := inject_Z (now - articleDate) / (1000 * 60 * 60) in
  JS.div 1 (Math_pow (1 + hoursOld / 12) gravity).

(** [now] is the clock as the decay function reads it. *)
Definition calculateHotScore (now : Z) (a : Article) (useLogarithmic : option bool)
    : option TrendingArticle :=
  let useLogarithmic := default false useLogarithmic in
  let engagementScore := calculateEngagementScore a in
  timeDecay ← (if useLogarithmic
               then calculateLogarithmicDecay now (createdAt a) None
               else calculateExponentialDecay now (createdAt a) None);
  let hotScore := engagementScore * timeDecay in
  let hotScore :=
    if default false (authorVerified a) then hotScore * (11 # 10) else hotScore in
  let hotScore :=
    match qualityScore a with
    | Some q =>
        if negb (Qeq_bool q 0) && JS.ltb 70 q
        then hotScore * (1 + ((q - 70) / 10) * (5 # 100))
        else hotScore
    | None => hotScore
    end in
  Some {| article := a; hotScore := hotScore;
          engagementScore := engagementScore; timeDecay := timeDecay |}.

(** [clock 0] is the [new Date()] of [rankTrendingArticles]; the score of the
    [i]-th article that passed the filter reads the clock at [clock (S i)]. *)
Definition rankTrendingArticles (clock : nat -> Z) (articles : list Article)
    (filters : Filters) (limit : option Z) : option (list TrendingArticle) :=
  let limit := default 20%Z limit in
  let minLikes := default 1 (minLikes filters) in
  let minComments := default 0 (minComments filters) in
  let maxAgeDays := default 90 (maxAgeDays filters) in
  let useLogarithmicDecay := default false (useLogarithmicDecay filters) in
  let now := clock 0%nat in
  let filteredArticles :=
    List.filter (keepArticle now minLikes minComments maxAgeDays) articles in
  trendingArticles ← JS.mapM'
    (fun i a => calculateHotScore (clock (S i)) a (Some useLogarithmicDecay))
    0%nat filteredArticles;
  let ranked := JS.sort (fun x y => hotScore y - hotScore x) trendingArticles in
  Some (JS.slice0 ranked limit).

Definition getTrendingArticlesByPeriod (clock : nat -> Z) (articles : list Article)
    (timeVariant : option TimeVariant) (limit : option Z)
    : option (list TrendingArticle) :=
  let timeVariant := default ANY timeVariant in
  let limit := default 20%Z limit in
  let maxAgeDays :=
    match timeVariant with
    | WEEK => 7
    | MONTH => 30
    | YEAR => 365
    | ANY => 90
    end in
  rankTrendingArticles clock articles
    {| minLikes := Some 1; minComments := Some 0; maxAgeDays := Some maxAgeDays;
       useLogarithmicDecay := Some false |}
    (Some limit).

End WithRuntime.

End Trending.

(** ** Searching articles ([searchArticlesWithBM25] of [bm25.ts]) *)

Module Search.

(** The article as the search takes it; a tag [{ name }] is its name. *)
Record Article := {
  id : string;
  title : string;
  subtitle : option string;
  content : string;
  subContent : option string;
  tags : option (list string)
}.

(** [{ article, score }]; [article] is what [articles.find] returned. *)
Record Result := {
  article : option Article;
  score : Q
}.

(** The document built from an article: the text is
    [`${title} ${subtitle ?? ""} ${subContent ?? ""} ${content ?? ""}`]. *)
Definition toDocument (a : Article) : BM25.Document :=
  {| BM25.id := id a;
     BM25.text :=
       (title a ++ " " ++ default EmptyString (subtitle a) ++ " "
        ++ default EmptyString (subContent a) ++ " " ++ content a)%string;
     BM25.title := Some (title a);
     BM25.subtitle := subtitle a;
     BM25.tags := tags a |}.

Definition searchArticlesWithBM25 (Math_log : Q -> Q) (query : string)
    (articles : list Article) : option (list Result) :=
  let documents := map toDocument articles in
  ranked ← BM25.rankDocumentsWithBM25 Math_log query documents
             {| BM25.k1 := None; BM25.b := None |};
  Some (map (fun doc =>
               {| article :=
                    List.find (fun a => String.eqb (id a) (BM25.id (BM25.document doc)))
                      articles;
                  score := BM25.score doc |})
          ranked).

End Search.

(** ** Recommendations from a reading history ([getUserRecommendations] of
    [recommendations.ts]) *)

(** A [Map] with string keys keeps its entries in the order in which their
    keys were first set. *)
Module JSMap.

Abbreviation t V := (list (string * V)).

Definition get {V : Type} (key : string) (m : t V) : option V :=
  snd <$> List.find (fun entry => String.eqb (fst entry) key) m.

Fixpoint set {V : Type} (key : string) (value : V) (m : t V) : t V :=
  match m with
  | [] => [(key, value)]
  | (key', value') :: rest =>
      if String.eqb key' key then (key', value) :: rest
      else (key', value') :: set key value rest
  end.

Definition values {V : Type} (m : t V) : list V := map snd m.

End JSMap.

Module UserRecommendations.

(** A record as [getContentBasedRecommendations] returned it.  Nothing
    sorts an array of shared tags after that call, so the record is taken
    with the content of its array. *)
Record RecommendedArticle := {
  article : Recommendations.Article;
  similarityScore : Q;
  sharedTags : list string
}.

Definition returned (h : Recommendations.store)
    (rec : Recommendations.RecommendedArticle) : RecommendedArticle :=
  {| article := Recommendations.article rec;
     similarityScore := Recommendations.similarityScore rec;
     sharedTags := Recommendations.sharedTagsOf h rec |}.

(** The callback of the filter on [allArticles]: [daysSinceCreation <= 365]. *)
Definition withinYear (now : Z) (a : Recommendations.Article) : bool :=
  let daysSinceCreation :=
    inject_Z (now - Recommendations.createdAt a) / (1000 * 60 * 60 * 24) in
  Qle_bool daysSinceCreation 365.

(** [array.filter(keep)] when the callback reads the clock: the element at
    index [i] is tested by [keep i]. *)
Fixpoint filterAt {A : Type} (keep : nat -> A -> bool) (i : nat) (l : list A) : list A :=
  match l with
  | [] => []
  | x :: rest =>
      if keep i x then x :: filterAt keep (S i) rest else filterAt keep (S i) rest
  end.

(** The body of the loop over [recommendations]. *)
Definition aggregate (allRecommendations : JSMap.t RecommendedArticle)
    (rec : RecommendedArticle) : JSMap.t RecommendedArticle :=
  let key := Recommendations.id (article rec) in
  match JSMap.get key allRecommendations with
  | Some existing =>
      if JS.ltb (similarityScore existing) (similarityScore rec)
      then JSMap.set key rec allRecommendations
      else allRecommendations
  | None => JSMap.set key rec allRecommendations
  end.

Section WithRuntime.

Variable Math_log : Q -> Q.

(** [clock k] is the clock during turn [k] of the loop over the read
    articles: its first readings are those of the filter, one for each of
    [allArticles], the next ones those of [getContentBasedRecommendations]. *)
Variable clock : nat -> nat -> Z.

Definition recentArticles (allArticles : list Recommendations.Article) (k : nat)
    : list Recommendations.Article :=
  filterAt (fun i a => withinYear (clock k i) a) 0%nat allArticles.

(** The call of turn [k]. *)
Definition recommendationsFor (userReadArticles allArticles : list Recommendations.Article)
    (limit : Z) (k : nat) (readArticle : Recommendations.Article)
    : option (list RecommendedArticle) :=
  '(recommendations, h) ←
     Recommendations.getContentBasedRecommendations Math_log
       (fun i => clock k (length allArticles + i)%nat)
       readArticle (recentArticles allArticles k)
       (Some (map Recommendations.id userReadArticles)) (Some limit);
  Some (map (returned h) recommendations).

(** The loop over [userReadArticles.slice(0, 5)], from turn [k] on. *)
Fixpoint readLoop (userReadArticles allArticles : list Recommendations.Article)
    (limit : Z) (k : nat) (allRecommendations : JSMap.t RecommendedArticle)
    (readArticles : list Recommendations.Article)
    : option (JSMap.t RecommendedArticle) :=
  match readArticles with
  | [] => Some allRecommendations
  | readArticle :: rest =>
      recommendations ←
        recommendationsFor userReadArticles allArticles limit k readArticle;
      readLoop userReadArticles allArticles limit (S k)
        (foldl aggregate allRecommendations recommendations) rest
  end.

Definition getUserRecommendations (userReadArticles allArticles : list Recommendations.Article)
    (limit : option Z) : option (list RecommendedArticle) :=
  let limit := default 10%Z limit in
  if (length userReadArticles =? 0)%nat then Some []
  else
    allRecommendations ←
      readLoop userReadArticles allArticles limit 0%nat []
        (JS.slice0 userReadArticles 5);
    Some (JS.slice0
            (JS.sort (fun x y => similarityScore y - similarityScore x)
               (JSMap.values allRecommendations))
            limit).

End WithRuntime.

End UserRecommendations.

(** ** Notions the further properties are stated with *)

Module BM25Notions.

(** [docId] is in the posting set of [term]. *)
Definition posting (index : gmap string (gset string)) (term docId : string) : Prop :=
  exists ids, index !! term = Some ids /\ docId ∈ ids.

End BM25Notions.

Module RecommendationsNotions.

Import Recommendations.

(** A name is shared only for a tag id that both articles carry; it is the
    name the first article gives to that id, and it is not empty. *)
Definition sharedName (articleA articleB : Article) (n : string) : Prop :=
  exists tagId,
    hasTag tagId articleA = true /\ hasTag tagId articleB = true
    /\ tagNameOf tagId articleA = Some n /\ n <> EmptyString.

(** The record [rec] is the scored candidate: its array holds, in some
    order, the names the candidate shares with the current article, and its
    score is the decayed similarity. *)
Definition linked (Math_log : Q -> Q) (clock : nat -> Z) (currentArticle : Article)
    (candidateArticles : list Article) (h : store) (rec : RecommendedArticle) : Prop :=
  exists similarity shared array i,
    calculateWeightedJaccard Math_log currentArticle (article rec) candidateArticles
    = Some (similarity, shared)
    /\ h !! sharedTags rec = Some array
    /\ Permutation shared array
    /\ similarityScore rec
       = applyRecencyDecay (clock i) similarity (createdAt (article rec)).

(** The weight read from the map: 0 for a tag the article does not carry. *)
Definition weightIn (Math_log : Q -> Q) (a : Article) (allArticles : list Article)
    (tagId : string) : Q :=
  default 0 (weightsFrom Math_log a allArticles ∅ (tags a) !! tagId).

(** The key under which the diversity pass files a record. *)
Definition tagKeyOf (h : store) (rec : RecommendedArticle) : string :=
  JS.join "," (sharedTagsOf h rec).

End RecommendationsNotions.

Module TrendingNotions.

Import Trending.

(** The filter callback of [rankTrendingArticles] under a filter
    configuration. *)
Definition passes (now : Z) (filters : Filters) (a : Article) : bool :=
  keepArticle now (default 1 (minLikes filters)) (default 0 (minComments filters))
    (default 90 (maxAgeDays filters)) a.

(** The factor the boosts multiply the base score by. *)
Definition boost (a : Article) : Q :=
  (if default false (authorVerified a) then 11 # 10 else 1)
  * match qualityScore a with
    | Some q => if JS.ltb 70 q then 1 + (q - 70) / 200 else 1
    | None => 1
    end.


End TrendingNotions.

Module UserRecommendationsNotions.

Import UserRecommendations.

(** The keys of the map are distinct, and each is the id of its record. *)
Definition keyed (m : JSMap.t RecommendedArticle) : Prop :=
  NoDup (map fst m)
  /\ forall key rec, In (key, rec) m -> key = Recommendations.id (article rec).

(** What a record of a turn is: a recent article of the collection, none
    of the read ones, that shares a tag with the read article of the turn. *)
Definition recommended (clock : nat -> nat -> Z)
    (userReadArticles allArticles : list Recommendations.Article)
    (readArticle : Recommendations.Article) (rec : RecommendedArticle) : Prop :=
  In (article rec) allArticles
  /\ (exists k i, withinYear (clock k i) (article rec) = true)
  /\ ~ In (Recommendations.id (article rec)) (map Recommendations.id userReadArticles)
  /\ 0 < similarityScore rec
  /\ sharedTags rec <> []
  /\ exists tagId, Recommendations.hasTag tagId readArticle = true
                   /\ Recommendations.hasTag tagId (article rec) = true.

End UserRecommendationsNotions.

(** ** Sample inputs *)

Module Samples.

Definition rustDoc : BM25.Document :=
  {| BM25.id := "a"; BM25.text := "rust memory safety";
     BM25.title := Some "rust memory safety"%string; BM25.subtitle := None;
     BM25.tags := None |}.

Definition pastaDoc : BM25.Document :=
  {| BM25.id := "b"; BM25.text := "cooking pasta";
     BM25.title := Some "cooking pasta"%string; BM25.subtitle := None;
     BM25.tags := None |}.

Definition gardenDoc : BM25.Document :=
  {| BM25.id := "c"; BM25.text := "gardening tips"; BM25.title := None;
     BM25.subtitle := None; BM25.tags := Some ["garden"%string] |}.

Definition documents : list BM25.Document := [rustDoc; pastaDoc; gardenDoc].

(** [{}]: both parameters at their defaults. *)
Definition defaults : BM25.BM25Config := {| BM25.k1 := None; BM25.b := None |}.

Definition tag (i n : string) : Tag.t := {| Tag.id := i; Tag.name := n; Tag.slug := n |}.

Definition proofsArticle : Recommendations.Article :=
  {| Recommendations.id := "p";
     Recommendations.tags := [tag "1" "zeta"; tag "2" "proofs"; tag "3" "alpha"];
     Recommendations.likesCount := 3; Recommendations.commentsCount := 1;
     Recommendations.readCount := 10; Recommendations.createdAt := 0 |}.

Definition zetaArticle : Recommendations.Article :=
  {| Recommendations.id := "q";
     Recommendations.tags := [tag "3" "alpha"; tag "1" "zeta"];
     Recommendations.likesCount := 0; Recommendations.commentsCount := 0;
     Recommendations.readCount := 0; Recommendations.createdAt := 0 |}.

Definition otherArticle : Recommendations.Article :=
  {| Recommendations.id := "r";
     Recommendations.tags := [tag "2" "proofs"];
     Recommendations.likesCount := 0; Recommendations.commentsCount := 0;
     Recommendations.readCount := 0; Recommendations.createdAt := 0 |}.

Definition miscArticle : Recommendations.Article :=
  {| Recommendations.id := "s";
     Recommendations.tags := [tag "9" "misc"];
     Recommendations.likesCount := 0; Recommendations.commentsCount := 0;
     Recommendations.readCount := 0; Recommendations.createdAt := 0 |}.

Definition corpus : list Recommendations.Article :=
  [proofsArticle; zetaArticle; otherArticle; miscArticle].

(** One year, in milliseconds. *)
Definition oneYear : Z := 365 * 24 * 60 * 60 * 1000.

Definition quietArticle : Trending.Article :=
  {| Trending.id := "t"; Trending.likesCount := 0; Trending.commentsCount := 0;
     Trending.readCount := 0; Trending.createdAt := 0; Trending.userId := None;
     Trending.authorVerified := None; Trending.qualityScore := None |}.

Definition noFilters : Trending.Filters :=
  {| Trending.minLikes := None; Trending.minComments := None;
     Trending.maxAgeDays := None; Trending.useLogarithmicDecay := None |}.

End Samples.

(** ** More sample inputs *)

Module MoreSamples.

(** A rational stand-in for [Math.exp]: [1 / (1 - x)] up to 0 and [1 + x]
    above 0.  It is 1 at 0, positive, and it grows with its argument. *)
Definition Math_exp_ratio (x : Q) : Q :=
  if Qle_bool x 0 then Qred (1 / (1 - x)) else Qred (1 + x).

Definition rustArticle : Search.Article :=
  {| Search.id := "a"; Search.title := "Rust memory safety";
     Search.subtitle := Some "ownership explained"%string;
     Search.content := "borrowing and lifetimes"; Search.subContent := None;
     Search.tags := Some ["rust"%string] |}.

Definition pastaArticle : Search.Article :=
  {| Search.id := "b"; Search.title := "Cooking pasta"; Search.subtitle := None;
     Search.content := "boil the water first"; Search.subContent := None;
     Search.tags := None |}.

Definition gardenArticle : Search.Article :=
  {| Search.id := "c"; Search.title := "Gardening tips"; Search.subtitle := None;
     Search.content := "water the roses"; Search.subContent := None;
     Search.tags := Some ["garden"%string] |}.

Definition articles : list Search.Article := [rustArticle; pastaArticle; gardenArticle].

(** One day, in milliseconds. *)
Definition oneDay : Z := 24 * 60 * 60 * 1000.

Definition agedArticle : Trending.Article :=
  {| Trending.id := "u"; Trending.likesCount := 5; Trending.commentsCount := 2;
     Trending.readCount := 40; Trending.createdAt := 5 * oneDay;
     Trending.userId := None; Trending.authorVerified := Some true;
     Trending.qualityScore := Some 90 |}.

Definition freshArticle : Trending.Article :=
  {| Trending.id := "v"; Trending.likesCount := 5; Trending.commentsCount := 2;
     Trending.readCount := 40; Trending.createdAt := 9 * oneDay;
     Trending.userId := None; Trending.authorVerified := Some true;
     Trending.qualityScore := Some 90 |}.

Definition trendingArticles : list Trending.Article :=
  [agedArticle; Samples.quietArticle; freshArticle].

(** A clock that stands at the tenth day. *)
Definition dayTen : nat -> Z := fun _ => (10 * oneDay)%Z.

(** The reading history: two articles of [Samples.corpus]. *)
Definition history : list Recommendations.Article :=
  [Samples.zetaArticle; Samples.otherArticle].

(** A clock that stands at the epoch, for the turns of [getUserRecommendations]. *)
Definition epoch : nat -> nat -> Z := fun _ _ => 0%Z.

End MoreSamples.

(** * Properties *)

(** ** The runtime *)

Module JSFacts.

Lemma ltb_lt (x y : Q) : JS.ltb x y = true <-> x < y.
Proof.
  unfold JS.ltb. rewrite negb_true_iff.
  destruct (Qle_bool y x) eqn:E.
  - apply Qle_bool_iff in E. split; [discriminate | intros H; lra].
  - split; [intros _ | reflexivity].
    destruct (Qlt_le_dec x y) as [H | H]; [exact H |].
    apply Qle_bool_iff in H. congruence.
Qed.

Lemma ltb_ge (x y : Q) : JS.ltb x y = false <-> y <= x.
Proof.
  unfold JS.ltb. rewrite negb_false_iff. apply Qle_bool_iff.
Qed.

Lemma Qle_bool_false (x y : Q) : Qle_bool x y = false <-> y < x.
Proof.
  rewrite <- ltb_lt. unfold JS.ltb. now rewrite negb_true_iff.
Qed.

Lemma div_Some (x y : Q) : ~ y == 0 -> JS.div x y = Some (x / y).
Proof.
  intros H. unfold JS.div. destruct (Qeq_bool y 0) eqn:E; [| reflexivity].
  apply Qeq_bool_iff in E. contradiction.
Qed.

Lemma div_None (x y : Q) : y == 0 -> JS.div x y = None.
Proof.
  intros H. unfold JS.div. apply Qeq_bool_iff in H. now rewrite H.
Qed.

Lemma len_nonneg {A : Type} (l : list A) : 0 <= JS.len l.
Proof.
  unfold JS.len. change 0 with (inject_Z 0). rewrite <- Zle_Qle. lia.
Qed.

Lemma len_pos {A : Type} (l : list A) : l <> [] -> 0 < JS.len l.
Proof.
  intros H. unfold JS.len. change 0 with (inject_Z 0). rewrite <- Zlt_Qlt.
  destruct l; [contradiction | simpl; lia].
Qed.

(** The stand-in for [Math.log] has the sign of the logarithm from 1 on. *)
Lemma series_sign (y : Q) :
  0 <= y ->
  0 <= 2 * y * (1 + y * y * ((1 # 3) + y * y * ((1 # 5) + y * y * (1 # 7))))
  /\ (0 < y ->
      0 < 2 * y * (1 + y * y * ((1 # 3) + y * y * ((1 # 5) + y * y * (1 # 7))))).
Proof.
  intros Hy.
  assert (H2 : 0 <= y * y) by (apply Qmult_le_0_compat; assumption).
  set (y2 := y * y) in *.
  assert (Ha : 0 <= y2 * (1 # 7)) by (apply Qmult_le_0_compat; lra).
  assert (Hb : 0 <= y2 * ((1 # 5) + y2 * (1 # 7))) by (apply Qmult_le_0_compat; lra).
  assert (Hc : 0 <= y2 * ((1 # 3) + y2 * ((1 # 5) + y2 * (1 # 7))))
    by (apply Qmult_le_0_compat; lra).
  split.
  - apply Qmult_le_0_compat; lra.
  - intros Hpos. apply Qmult_lt_0_compat; lra.
Qed.

Lemma Math_log_series_sign (x : Q) :
  1 <= x -> 0 <= JS.Math_log_series x /\ (1 < x -> 0 < JS.Math_log_series x).
Proof.
  intros Hx. unfold JS.Math_log_series.
  destruct (Qle_bool x 0) eqn:E; [apply Qle_bool_iff in E; lra |].
  cbv zeta. rewrite !Qred_correct.
  set (y := (x - 1) / (x + 1)).
  assert (Hy : 0 <= y) by (unfold y; apply Qle_shift_div_l; lra).
  destruct (series_sign y Hy) as [H0 H1].
  split; [exact H0 |].
  intros Hlt. apply H1. unfold y. apply Qlt_shift_div_l; lra.
Qed.

(** *** Sorting *)

Section Sorting.

Context {A : Type} (before : A -> A -> bool).

Lemma insertSorted_In (x y : A) (l : list A) :
  In y (JS.insertSorted before x l) <-> y = x \/ In y l.
Proof.
  induction l as [| z l IH]; simpl.
  - intuition.
  - destruct (before x z); simpl; [intuition |].
    rewrite IH. intuition.
Qed.

Lemma sortBy_In (y : A) (l : list A) : In y (JS.sortBy before l) <-> In y l.
Proof.
  induction l as [| x l IH]; simpl; [reflexivity |].
  rewrite insertSorted_In, IH. intuition.
Qed.

Lemma sortBy_length (l : list A) : length (JS.sortBy before l) = length l.
Proof.
  assert (Hins : forall x m, length (JS.insertSorted before x m) = S (length m)).
  { intros x m. induction m as [| z m IH]; simpl; [reflexivity |].
    destruct (before x z); simpl; [reflexivity | now rewrite IH]. }
  induction l as [| x l IH]; simpl; [reflexivity |].
  now rewrite Hins, IH.
Qed.

Hypothesis before_total : forall x y, before x y = true \/ before y x = true.

Lemma insertSorted_sorted (x : A) (l : list A) :
  Sorted (fun x y => before x y = true) l ->
  Sorted (fun x y => before x y = true) (JS.insertSorted before x l).
Proof.
  induction 1 as [| z l Hl IH Hd]; simpl.
  - repeat constructor.
  - destruct (before x z) eqn:E.
    + constructor; [constructor; assumption | constructor; exact E].
    + constructor; [exact IH |].
      destruct l as [| w l]; simpl.
      * constructor. destruct (before_total x z); [congruence | assumption].
      * destruct (before x w) eqn:E'.
        -- constructor. destruct (before_total x z); [congruence | assumption].
        -- constructor. inversion Hd; assumption.
Qed.

Lemma sortBy_sorted (l : list A) :
  Sorted (fun x y => before x y = true) (JS.sortBy before l).
Proof.
  induction l as [| x l IH]; simpl; [constructor |].
  now apply insertSorted_sorted.
Qed.

End Sorting.

Lemma Sorted_weaken {A : Type} (R R' : A -> A -> Prop) (l : list A) :
  (forall x y, R x y -> R' x y) -> Sorted R l -> Sorted R' l.
Proof.
  intros HR. induction 1 as [| x l Hl IH Hd]; constructor; [exact IH |].
  destruct Hd; constructor. now apply HR.
Qed.

(** [array.sort((x, y) => key(y) - key(x))] leaves the keys in descending
    order. *)
Lemma sort_descending {A : Type} (key : A -> Q) (l : list A) :
  Sorted (fun x y => key y <= key x) (JS.sort (fun x y => key y - key x) l).
Proof.
  unfold JS.sort.
  apply Sorted_weaken
    with (R := fun x y => Qle_bool (key y - key x) 0 = true).
  - intros x y H%Qle_bool_iff. lra.
  - apply sortBy_sorted. intros x y.
    destruct (Qlt_le_dec (key x) (key y)) as [H | H].
    + right. apply Qle_bool_iff. lra.
    + left. apply Qle_bool_iff. lra.
Qed.

Lemma sortStrings_sorted (l : list string) :
  Sorted (fun x y => String.leb x y = true) (JS.sortStrings l).
Proof.
  apply sortBy_sorted. apply String.leb_total.
Qed.

Lemma take_In {A : Type} (x : A) (n : nat) (l : list A) :
  In x (take n l) -> In x l.
Proof.
  revert l. induction n as [| n IH]; intros [| y l]; simpl; try tauto.
  intros [-> | H]; auto.
Qed.

Lemma slice0_In {A : Type} (x : A) (l : list A) (stop : Z) :
  In x (JS.slice0 l stop) -> In x l.
Proof.
  unfold JS.slice0. destruct (stop <? 0)%Z; apply take_In.
Qed.

(** *** Loops whose body may fail *)

Lemma mapM'_total {A B : Type} (f : nat -> A -> option B) (l : list A) :
  (forall i x, In x l -> is_Some (f i x)) ->
  forall i, is_Some (JS.mapM' f i l).
Proof.
  induction l as [| x l IH]; intros H i; simpl; [eauto |].
  destruct (H i x) as [y ->]; [now left |].
  destruct (IH (fun j z Hz => H j z (or_intror Hz)) (S i)) as [ys ->]. eauto.
Qed.

Lemma mapM'_In {A B : Type} (f : nat -> A -> option B) (l : list A) :
  forall i ys y, JS.mapM' f i l = Some ys -> In y ys ->
  exists j x, In x l /\ f j x = Some y.
Proof.
  induction l as [| x l IH]; intros i ys y; simpl.
  - intros [= <-] [].
  - destruct (f i x) as [y0 |] eqn:E; [| discriminate].
    destruct (JS.mapM' f (S i) l) as [ys0 |] eqn:E'; [| discriminate].
    intros [= <-] [-> | Hy].
    + exists i, x. auto.
    + destruct (IH _ _ _ E' Hy) as (j & z & Hz & Hf). exists j, z. auto.
Qed.

Lemma mapM'_ext_Some {A B : Type} (f : nat -> A -> option B) (g : A -> B) (l : list A) :
  (forall i x, In x l -> f i x = Some (g x)) ->
  forall i, JS.mapM' f i l = Some (map g l).
Proof.
  induction l as [| x l IH]; intros H i; simpl; [reflexivity |].
  rewrite (H i x (or_introl eq_refl)).
  rewrite (IH (fun j z Hz => H j z (or_intror Hz)) (S i)). reflexivity.
Qed.

Lemma foldM'_total {A S : Type} (f : S -> A -> option S) (l : list A) :
  (forall s x, In x l -> is_Some (f s x)) ->
  forall s, is_Some (JS.foldM' f s l).
Proof.
  induction l as [| x l IH]; intros H s; simpl; [eauto |].
  destruct (H s x) as [s' ->]; [now left |].
  apply IH. intros s0 z Hz. apply H. now right.
Qed.

Lemma foldM'_fixed {A S : Type} (f : S -> A -> option S) (l : list A) (s : S) :
  (forall x, In x l -> f s x = Some s) -> JS.foldM' f s l = Some s.
Proof.
  induction l as [| x l IH]; intros H; simpl; [reflexivity |].
  rewrite (H x (or_introl eq_refl)). apply IH. intros z Hz. apply H. now right.
Qed.

(** *** Strings *)

Lemma trimStart_blank (s : string) :
  JS.allChars JS.isSpace s = true -> JS.trimStart s = EmptyString.
Proof.
  induction s as [| c s IH]; simpl; [reflexivity |].
  intros [Hc Hs]%andb_true_iff. rewrite Hc. auto.
Qed.

Lemma trimStart_not_blank (s : string) :
  JS.allChars JS.isSpace s = false ->
  exists c rest, JS.trimStart s = String c rest /\ JS.isSpace c = false.
Proof.
  induction s as [| c s IH]; simpl; [discriminate |].
  destruct (JS.isSpace c) eqn:Hc; simpl; [exact IH |].
  intros _. exists c, s. auto.
Qed.

Lemma trimEnd_head (c : ascii) (s : string) :
  JS.isSpace c = false -> JS.truthy (JS.trimEnd (String c s)) = true.
Proof.
  intros Hc. simpl. destruct (JS.trimEnd s); [rewrite Hc |]; reflexivity.
Qed.

(** [trim] leaves nothing exactly when the string holds blanks only. *)
Lemma trim_truthy (s : string) :
  JS.truthy (JS.trim s) = negb (JS.allChars JS.isSpace s).
Proof.
  unfold JS.trim. destruct (JS.allChars JS.isSpace s) eqn:E; simpl.
  - now rewrite trimStart_blank.
  - destruct (trimStart_not_blank s E) as (c & rest & -> & Hc).
    now apply trimEnd_head.
Qed.

End JSFacts.

(** ** BM25 *)

Module BM25Facts.

Import BM25.

(** *** The tokenizer *)

(** After [toLowerCase], a [\w] code unit is a digit, a lower-case letter or
    the underscore. *)
Lemma lowerChar_word (c : ascii) :
  JS.isWordChar (JS.lowerChar c) = true -> isLowerWordChar (JS.lowerChar c) = true.
Proof.
  destruct c as [[] [] [] [] [] [] [] []]; vm_compute; intros H; congruence.
Qed.

Lemma lowerChar_underscore (c : ascii) :
  JS.isUnderscore (JS.lowerChar c) = JS.isUnderscore c.
Proof.
  destruct c as [[] [] [] [] [] [] [] []]; reflexivity.
Qed.

Lemma space_not_word (c : ascii) : JS.isSpace c = true -> isLowerWordChar c = false.
Proof.
  destruct c as [[] [] [] [] [] [] [] []]; vm_compute; intros H; congruence.
Qed.

(** What [replaceNonWord (toLowerCase text)] is made of. *)
Lemma normalized_chars (text : string) :
  JS.allChars (fun c => JS.isSpace c || isLowerWordChar c)
    (replaceNonWord (JS.toLowerCase text)) = true.
Proof.
  unfold replaceNonWord, JS.toLowerCase.
  induction text as [| c text IH]; simpl; [reflexivity |].
  rewrite IH, andb_true_r.
  destruct (JS.isWordChar (JS.lowerChar c)) eqn:Hw; simpl.
  - rewrite (lowerChar_word c Hw). apply orb_true_r.
  - destruct (JS.isSpace (JS.lowerChar c)) eqn:Hs; simpl.
    + now rewrite Hs.
    + reflexivity.
Qed.

(** The pieces of a split hold the code units that are not blanks. *)
Lemma splitSpaces_pieces (p : ascii -> bool) (s : string) :
  JS.allChars (fun c => JS.isSpace c || p c) s = true ->
  Forall (fun piece => JS.allChars p piece = true) (JS.splitSpaces s).
Proof.
  induction s as [| c s IH]; simpl.
  - intros _. repeat constructor.
  - intros [Hc Hs]%andb_true_iff. specialize (IH Hs).
    destruct (JS.isSpace c) eqn:Ec.
    + destruct (JS.startsWithSpace s); [exact IH | constructor; [reflexivity | exact IH]].
    + simpl in Hc. destruct (JS.splitSpaces s) as [| piece pieces].
      * repeat constructor. simpl. now rewrite Hc.
      * inversion IH; subst. constructor; [| assumption].
        simpl. rewrite Hc. assumption.
Qed.

Lemma tokenize_tokens (text token : string) :
  In token (tokenize text) ->
  (3 <= String.length token)%nat /\ JS.allChars isLowerWordChar token = true.
Proof.
  unfold tokenize. rewrite filter_In. intros [Hin Hlen].
  split.
  - apply Nat.ltb_lt in Hlen. lia.
  - pose proof (splitSpaces_pieces isLowerWordChar _ (normalized_chars text)) as H.
    rewrite Forall_forall in H. apply H.
    apply list_elem_of_In. exact Hin.
Qed.

(** Without an underscore in the text the two replacements agree. *)
Lemma replace_agree (text : string) :
  JS.allChars (fun c => negb (JS.isUnderscore c)) text = true ->
  replaceNonWord (JS.toLowerCase text) = replaceNonAlphanumeric (JS.toLowerCase text).
Proof.
  unfold replaceNonWord, replaceNonAlphanumeric, JS.toLowerCase.
  induction text as [| c text IH]; simpl; [reflexivity |].
  intros [Hc Ht]%andb_true_iff. rewrite (IH Ht). f_equal.
  unfold JS.isWordChar, isAlphanumeric.
  rewrite lowerChar_underscore. apply negb_true_iff in Hc. rewrite Hc.
  now rewrite orb_false_r.
Qed.

Lemma lowerChar_alphanumeric (c : ascii) :
  isAlphanumeric (JS.lowerChar c) = true -> isLowerAlphanumeric (JS.lowerChar c) = true.
Proof.
  destruct c as [[] [] [] [] [] [] [] []]; vm_compute; intros H; congruence.
Qed.

Lemma normalized_chars_spec (text : string) :
  JS.allChars (fun c => JS.isSpace c || isLowerAlphanumeric c)
    (replaceNonAlphanumeric (JS.toLowerCase text)) = true.
Proof.
  unfold replaceNonAlphanumeric, JS.toLowerCase.
  induction text as [| c text IH]; simpl; [reflexivity |].
  rewrite IH, andb_true_r.
  destruct (isAlphanumeric (JS.lowerChar c)) eqn:Hw; simpl.
  - rewrite (lowerChar_alphanumeric c Hw). apply orb_true_r.
  - destruct (JS.isSpace (JS.lowerChar c)) eqn:Hs; simpl.
    + now rewrite Hs.
    + reflexivity.
Qed.

Lemma tokenizeSpec_tokens (text token : string) :
  In token (tokenizeSpec text) -> JS.allChars isLowerAlphanumeric token = true.
Proof.
  unfold tokenizeSpec. rewrite filter_In. intros [Hin _].
  pose proof (splitSpaces_pieces isLowerAlphanumeric _ (normalized_chars_spec text)) as H.
  rewrite Forall_forall in H. apply H. apply list_elem_of_In. exact Hin.
Qed.

(** C5 (amended). Every token that [tokenize] returns has at least three
    code units, each a lower-case letter, a digit or the underscore: the
    replacement keeps the [\w] class, which holds the underscore.  On a text
    without an underscore [tokenize] is the tokenizer the specification
    describes, and its tokens are lower-case alphanumeric. *)
Theorem tokenize_shape (text token : string) :
  In token (tokenize text) ->
  (3 <= String.length token)%nat
  /\ JS.allChars isLowerWordChar token = true
  /\ (JS.allChars (fun c => negb (JS.isUnderscore c)) text = true ->
      tokenize text = tokenizeSpec text
      /\ JS.allChars isLowerAlphanumeric token = true).
Proof.
  intros Hin. destruct (tokenize_tokens text token Hin) as [Hlen Hchars].
  repeat split; try assumption.
  - unfold tokenize, tokenizeSpec. now rewrite replace_agree.
  - apply (tokenizeSpec_tokens text).
    unfold tokenize, tokenizeSpec in *. now rewrite <- replace_agree.
Qed.

(** *** Ranking *)

Section WithRuntime.

Variable Math_log : Q -> Q.

Lemma passThrough_blank (query : string) (documents : list Document) :
  JS.allChars JS.isSpace query = true \/ documents = [] ->
  passThrough query documents = true.
Proof.
  unfold passThrough. rewrite JSFacts.trim_truthy, negb_involutive.
  intros [-> | ->]; [reflexivity | apply orb_true_r].
Qed.

Lemma passThrough_false (query : string) (documents : list Document) :
  documents <> [] -> JS.allChars JS.isSpace query = false ->
  passThrough query documents = false.
Proof.
  unfold passThrough. rewrite JSFacts.trim_truthy, negb_involutive.
  intros Hd ->. destruct documents; [contradiction | reflexivity].
Qed.

Lemma scored_document (query : string) (documents : list Document)
    (index : gmap string (gset string)) (avg : Q) (config : BM25Config)
    (doc : Document) (sd : ScoredDocument) :
  (score ← calculateBM25Score Math_log query doc documents index avg config;
   Some {| document := doc; score := score |}) = Some sd ->
  document sd = doc.
Proof.
  destruct (calculateBM25Score _ _ _ _ _ _ _); simpl; [| discriminate].
  now intros [= <-].
Qed.

(** The scoring path: what it returns are documents of the input with a
    positive score, the higher score first. *)
Lemma rank_scoring_path (query : string) (documents : list Document)
    (config : BM25Config) (results : list ScoredDocument) :
  passThrough query documents = false ->
  rankDocumentsWithBM25 Math_log query documents config = Some results ->
  (forall sd, In sd results -> 0 < score sd /\ In (document sd) documents)
  /\ Sorted (fun x y => score y <= score x) results.
Proof.
  intros Hp. unfold rankDocumentsWithBM25. rewrite Hp.
  destruct (calculateAvgDocLength documents) as [avg |]; simpl; [| discriminate].
  destruct (JS.mapM' _ _ _) as [scored |] eqn:E; simpl; [| discriminate].
  intros [= <-]. split.
  - intros sd Hin. unfold JS.sort in Hin.
    apply JSFacts.sortBy_In, filter_In in Hin as [Hin Hpos].
    split; [now apply JSFacts.ltb_lt |].
    destruct (JSFacts.mapM'_In _ _ _ _ _ E Hin) as (j & doc & Hdoc & Hsd).
    apply scored_document in Hsd. now rewrite Hsd.
  - apply JSFacts.sort_descending.
Qed.

(** C3. With a query that is empty or made of blanks only, or with an empty
    collection, [rankDocumentsWithBM25] takes its first branch and returns
    every document of the input, in the input's order, with score 0.  The
    other branch is the scoring path, which keeps the positive scores only
    and sorts them in descending order. *)
Theorem rank_pass_through (query : string) (documents : list Document)
    (config : BM25Config) :
  (JS.allChars JS.isSpace query = true \/ documents = [] ->
   passThrough query documents = true
   /\ rankDocumentsWithBM25 Math_log query documents config
      = Some (map (fun doc => {| document := doc; score := 0 |}) documents))
  /\ (passThrough query documents = false ->
      forall results,
        rankDocumentsWithBM25 Math_log query documents config = Some results ->
        (forall sd, In sd results -> 0 < score sd /\ In (document sd) documents)
        /\ Sorted (fun x y => score y <= score x) results).
Proof.
  split.
  - intros H. pose proof (passThrough_blank query documents H) as Hp.
    split; [exact Hp |].
    unfold rankDocumentsWithBM25. now rewrite Hp.
  - intros Hp results. now apply rank_scoring_path.
Qed.

Lemma avgDocLength_Some (documents : list Document) :
  is_Some (calculateAvgDocLength documents).
Proof.
  unfold calculateAvgDocLength.
  destruct (JS.ltb 0 (JS.len documents)) eqn:E; [| eauto].
  apply JSFacts.ltb_lt in E. rewrite JSFacts.div_Some; [eauto |].
  intros H. rewrite H in E. lra.
Qed.

(** A query of stop-words leaves the score at its initial value. *)
Lemma score_stop_words (query : string) (doc : Document)
    (allDocuments : list Document) (invertedIndex : gmap string (gset string))
    (avgDocLength : Q) (config : BM25Config) :
  Forall (fun term => isStopWord term = true) (tokenize query) ->
  calculateBM25Score Math_log query doc allDocuments invertedIndex avgDocLength config
  = Some 0.
Proof.
  intros H. unfold calculateBM25Score. apply JSFacts.foldM'_fixed.
  intros term Hterm. rewrite Forall_forall in H.
  unfold scoreTerm. rewrite (H term); [reflexivity |].
  apply list_elem_of_In. exact Hterm.
Qed.

(** C4. On a collection that is not empty, a query that is not blank and
    whose tokens are all stop-words does not take the pass-through branch;
    every document scores 0, and the filter of the scoring path leaves the
    empty list. *)
Theorem rank_stop_words (query : string) (documents : list Document)
    (config : BM25Config) :
  documents <> [] ->
  JS.allChars JS.isSpace query = false ->
  Forall (fun term => isStopWord term = true) (tokenize query) ->
  passThrough query documents = false
  /\ (forall doc allDocuments invertedIndex avgDocLength,
        calculateBM25Score Math_log query doc allDocuments invertedIndex
          avgDocLength config = Some 0)
  /\ rankDocumentsWithBM25 Math_log query documents config = Some [].
Proof.
  intros Hd Hq Hstop.
  pose proof (passThrough_false query documents Hd Hq) as Hp.
  split; [exact Hp |]. split.
  - intros. now apply score_stop_words.
  - unfold rankDocumentsWithBM25. rewrite Hp.
    destruct (avgDocLength_Some documents) as [avg ->]. simpl.
    rewrite (JSFacts.mapM'_ext_Some _ (fun doc => {| document := doc; score := 0 |})).
    + simpl. f_equal.
      replace (List.filter _ _) with (@nil ScoredDocument); [reflexivity |].
      clear. induction documents as [| d ds IH]; [reflexivity | exact IH].
    + intros i doc _. now rewrite score_stop_words.
Qed.

(** *** Divisions *)

Lemma setAdd_In (x y : string) (s : list string) :
  In x (JS.setAdd s y) -> In x s \/ x = y.
Proof.
  unfold JS.setAdd. case_bool_decide; [auto |].
  rewrite in_app_iff. simpl. intuition.
Qed.

Lemma setOf_In (x : string) (l : list string) : In x (JS.setOf l) -> In x l.
Proof.
  unfold JS.setOf.
  assert (H : forall acc, In x (foldl JS.setAdd acc l) -> In x acc \/ In x l).
  { induction l as [| y l IH]; intros acc; simpl; [auto |].
    intros [[H | ->]%setAdd_In | H]%IH; auto. }
  intros [[] | Hx]%H. exact Hx.
Qed.

Lemma addToken_keys (documents : list Document) (doc : Document)
    (index : gmap string (gset string)) (token : string) :
  In doc documents -> In token (tokenize (text doc)) ->
  keysFrom documents index -> keysFrom documents (addToken (id doc) index token).
Proof.
  intros Hdoc Htoken Hkeys term. unfold addToken.
  destruct (isStopWord token); [apply Hkeys |].
  destruct (decide (term = token)) as [-> | Hne]; [intros _; eauto |].
  intros Hsome. apply Hkeys.
  case_bool_decide as Hhas.
  - destruct (index !! token) eqn:E; [| destruct Hhas as [? [=]]].
    now rewrite lookup_insert_ne in Hsome.
  - rewrite lookup_insert_eq in Hsome.
    now rewrite !lookup_insert_ne in Hsome.
Qed.

Lemma buildInvertedIndex_keys (documents : list Document) :
  keysFrom documents (buildInvertedIndex documents).
Proof.
  unfold buildInvertedIndex.
  assert (H : forall docs index,
             (forall doc, In doc docs -> In doc documents) ->
             keysFrom documents index ->
             keysFrom documents
               (foldl (fun index doc =>
                         foldl (addToken (id doc)) index (JS.setOf (tokenize (text doc))))
                  index docs)).
  { induction docs as [| doc docs IH]; intros index Hsub Hkeys; simpl; [exact Hkeys |].
    apply IH; [intros d Hd; apply Hsub; now right |].
    assert (Hin : forall token, In token (JS.setOf (tokenize (text doc))) ->
                                In token (tokenize (text doc)))
      by (intros token; apply setOf_In).
    revert index Hkeys Hin. generalize (JS.setOf (tokenize (text doc))).
    induction l as [| token l IHl]; intros index Hkeys Hin; simpl; [exact Hkeys |].
    apply IHl; [| intros t Ht; apply Hin; now right].
    apply addToken_keys; [apply Hsub; now left | apply Hin; now left | exact Hkeys]. }
  apply H; [auto |].
  intros term [ids Hids]. rewrite lookup_empty in Hids. discriminate.
Qed.

Lemma totalLength_lower (documents : list Document) (sum : Q) :
  sum <= foldl (fun sum doc => sum + JS.len (tokenize (text doc))) sum documents.
Proof.
  revert sum. induction documents as [| d ds IH]; intros sum; simpl; [lra |].
  specialize (IH (sum + JS.len (tokenize (text d)))).
  pose proof (JSFacts.len_nonneg (tokenize (text d))). lra.
Qed.

Lemma totalLength_doc (documents : list Document) (doc : Document) (sum : Q) :
  In doc documents ->
  sum + JS.len (tokenize (text doc))
  <= foldl (fun sum doc => sum + JS.len (tokenize (text doc))) sum documents.
Proof.
  revert sum. induction documents as [| d ds IH]; intros sum; simpl; [tauto |].
  intros [-> | Hin].
  - apply totalLength_lower.
  - specialize (IH (sum + JS.len (tokenize (text d))) Hin).
    pose proof (JSFacts.len_nonneg (tokenize (text d))). lra.
Qed.

(** A document with a token makes the average length positive. *)
Lemma avgDocLength_pos (documents : list Document) (doc : Document)
    (term : string) (avg : Q) :
  In doc documents -> In term (tokenize (text doc)) ->
  calculateAvgDocLength documents = Some avg -> 0 < avg.
Proof.
  intros Hdoc Hterm. unfold calculateAvgDocLength.
  assert (Hlen : 0 < JS.len documents)
    by (apply JSFacts.len_pos; intros ->; contradiction).
  destruct (JS.ltb 0 (JS.len documents)) eqn:E;
    [| apply JSFacts.ltb_ge in E; lra].
  rewrite JSFacts.div_Some by (intros H; rewrite H in Hlen; lra).
  intros [= <-].
  pose proof (totalLength_doc documents doc 0 Hdoc) as Htotal.
  assert (Htok : 0 < JS.len (tokenize (text doc)))
    by (apply JSFacts.len_pos; intros Hnil; rewrite Hnil in Hterm; contradiction).
  apply Qlt_shift_div_l; [exact Hlen | lra].
Qed.

Lemma calculateIDF_Some (term : string) (documents : list Document)
    (allTokens : gmap string (gset string)) :
  exists idf, calculateIDF Math_log term documents allTokens = Some idf
    /\ (0 < idf -> is_Some (allTokens !! term)).
Proof.
  unfold calculateIDF.
  destruct (allTokens !! term) as [ids |] eqn:E.
  - set (n := inject_Z (Z.of_nat (size ids))).
    assert (Hn : 0 <= n)
      by (unfold n; change 0 with (inject_Z 0); rewrite <- Zle_Qle; lia).
    destruct (Qeq_bool n 0); [exists 0; split; [reflexivity | lra] |].
    rewrite JSFacts.div_Some by (intros H; lra). simpl. eauto.
  - simpl. exists 0. split; [reflexivity | lra].
Qed.

Lemma calculateTF_nonneg (term : string) (tokens : list string) :
  0 <= calculateTF term tokens.
Proof. apply JSFacts.len_nonneg. Qed.

(** One turn of the scoring loop does not divide by zero when the index and
    the average length are those of the collection. *)
Lemma scoreTerm_Some (documents : list Document) (avg : Q) (config : BM25Config)
    (doc : Document) (score : Q) (term : string) :
  0 < default (3 # 2) (k1 config) ->
  0 <= default (3 # 4) (b config) < 1 ->
  calculateAvgDocLength documents = Some avg ->
  is_Some (scoreTerm Math_log doc documents (buildInvertedIndex documents) avg
             config score term).
Proof.
  intros Hk1 [Hb0 Hb1] Havg. unfold scoreTerm.
  destruct (isStopWord term); [eauto |].
  destruct (calculateIDF_Some term documents (buildInvertedIndex documents))
    as (idf & -> & Hidf). simpl.
  destruct (Qle_bool idf 0) eqn:E; [eauto |].
  apply JSFacts.Qle_bool_false in E.
  destruct (buildInvertedIndex_keys documents term (Hidf E)) as (d & Hd & Hterm).
  pose proof (avgDocLength_pos documents d term avg Hd Hterm Havg) as Hpos.
  rewrite JSFacts.div_Some by (intros H; rewrite H in Hpos; lra). simpl.
  set (ratio := JS.len (tokenize (text doc)) / avg).
  assert (Hratio : 0 <= ratio).
  { unfold ratio. apply Qle_shift_div_l; [exact Hpos |].
    pose proof (JSFacts.len_nonneg (tokenize (text doc))). lra. }
  pose proof (calculateTF_nonneg term (tokenize (text doc))) as Htf.
  set (kk := default (3 # 2) (k1 config)) in *.
  set (bb := default (3 # 4) (b config)) in *.
  assert (Hden : 0 < calculateTF term (tokenize (text doc))
                     + kk * (1 - bb + bb * ratio)).
  { assert (0 <= bb * ratio) by (apply Qmult_le_0_compat; assumption).
    assert (0 < kk * (1 - bb + bb * ratio))
      by (apply Qmult_lt_0_compat; lra).
    lra. }
  rewrite JSFacts.div_Some by (intros H; rewrite H in Hden; lra).
  simpl. eauto.
Qed.

(** With [k1 > 0] and [0 <= b < 1], the defaults among them,
    [rankDocumentsWithBM25] divides by zero on no query and no collection. *)
Lemma rank_no_division_by_zero (query : string) (documents : list Document)
    (config : BM25Config) :
  0 < default (3 # 2) (k1 config) ->
  0 <= default (3 # 4) (b config) < 1 ->
  is_Some (rankDocumentsWithBM25 Math_log query documents config).
Proof.
  intros Hk1 Hb. unfold rankDocumentsWithBM25.
  destruct (passThrough query documents); [eauto |].
  destruct (avgDocLength_Some documents) as [avg Havg]. rewrite Havg. simpl.
  destruct (JSFacts.mapM'_total
              (fun (_ : nat) doc =>
                 score ← calculateBM25Score Math_log query doc documents
                           (buildInvertedIndex documents) avg config;
                 Some {| document := doc; score := score |})
              documents) with (i := 0%nat) as [scored ->]; [| simpl; eauto].
  intros _ doc _.
  destruct (JSFacts.foldM'_total
              (scoreTerm Math_log doc documents (buildInvertedIndex documents) avg config)
              (tokenize query)) with (s := 0) as [sc Hsc].
  - intros s term _. now apply scoreTerm_Some.
  - unfold calculateBM25Score. rewrite Hsc. simpl. eauto.
Qed.

End WithRuntime.

End BM25Facts.

(** ** Recommendations *)

Module RecommendationsFacts.

Import Recommendations.

Section WithRuntime.

Variable Math_log : Q -> Q.

(** *** Tag weights *)

Lemma calculateTagWeight_eq (tagId tagName : string) (a : Article)
    (allArticles : list Article) :
  calculateTagWeight Math_log tagId tagName a allArticles
  = Some (weightOf Math_log tagId a allArticles).
Proof.
  unfold calculateTagWeight, weightOf.
  pose proof (JSFacts.len_nonneg (List.filter (hasTag tagId) allArticles)) as H.
  rewrite JSFacts.div_Some by (intros E; lra). reflexivity.
Qed.

Lemma tagWeights_loop (a : Article) (allArticles : list Article) (ts : list Tag.t)
    (weights : gmap string Q) :
  JS.foldM'
    (fun weights tag =>
       weight ← calculateTagWeight Math_log (Tag.id tag) (Tag.name tag) a allArticles;
       Some (<[Tag.id tag := weight]> weights))
    weights ts
  = Some (weightsFrom Math_log a allArticles weights ts).
Proof.
  revert weights. induction ts as [| t ts IH]; intros weights; simpl; [reflexivity |].
  rewrite calculateTagWeight_eq. simpl. apply IH.
Qed.

Lemma tagWeights_eq (a : Article) (allArticles : list Article) :
  tagWeights Math_log a allArticles = Some (weightsFrom Math_log a allArticles ∅ (tags a)).
Proof. apply tagWeights_loop. Qed.

Lemma weightsFrom_lookup (a : Article) (allArticles : list Article)
    (ts : list Tag.t) (weights : gmap string Q) (tagId : string) :
  weightsFrom Math_log a allArticles weights ts !! tagId
  = if existsb (fun t => String.eqb (Tag.id t) tagId) ts
    then Some (weightOf Math_log tagId a allArticles)
    else weights !! tagId.
Proof.
  revert weights. induction ts as [| t ts IH]; intros weights; simpl; [reflexivity |].
  unfold weightsFrom in *. rewrite IH.
  destruct (existsb _ ts); [now rewrite orb_true_r |].
  rewrite orb_false_r.
  destruct (String.eqb_spec (Tag.id t) tagId) as [<- | Hne].
  - now rewrite lookup_insert_eq.
  - now rewrite lookup_insert_ne.
Qed.

(** *** Divisions *)

(** [calculateWeightedJaccard] divides by [maxSum] only under [maxSum > 0]:
    it divides by zero on no input. *)
Lemma jaccard_no_division_by_zero (articleA articleB : Article)
    (allArticles : list Article) :
  is_Some (calculateWeightedJaccard Math_log articleA articleB allArticles).
Proof.
  unfold calculateWeightedJaccard. rewrite !tagWeights_eq. simpl.
  destruct (foldl _ _ _) as [[minSum maxSum] shared].
  destruct (JS.ltb 0 maxSum) eqn:E; [| simpl; eauto].
  apply JSFacts.ltb_lt in E.
  rewrite JSFacts.div_Some by (intros H; rewrite H in E; lra).
  simpl. eauto.
Qed.

(** *** An article against itself *)

Lemma Qmin_same (w : Q) : Qmin w w = w.
Proof. unfold Qmin, GenericMinMax.gmin. now destruct (w ?= w). Qed.

Lemma Qmax_same (w : Q) : Qmax w w = w.
Proof. unfold Qmax, GenericMinMax.gmax. now destruct (w ?= w). Qed.

Lemma setAdd_known (s l : list string) :
  (forall x, In x l -> In x s) -> foldl JS.setAdd s l = s.
Proof.
  induction l as [| x l IH]; intros H; simpl; [reflexivity |].
  unfold JS.setAdd at 2. rewrite bool_decide_eq_true_2.
  - apply IH. intros y Hy. apply H. now right.
  - apply list_elem_of_In. apply H. now left.
Qed.

Lemma setAdd_fresh (s l : list string) :
  NoDup (s ++ l) -> foldl JS.setAdd s l = s ++ l.
Proof.
  revert s. induction l as [| x l IH]; intros s Hnd; simpl.
  - now rewrite app_nil_r.
  - unfold JS.setAdd at 2. rewrite bool_decide_eq_false_2.
    + rewrite IH; rewrite <- app_assoc; [reflexivity | exact Hnd].
    + apply NoDup_app in Hnd as (_ & Hdisj & _).
      intros Hx. apply (Hdisj x Hx). now left.
Qed.

Lemma allTagIds_self (ids : list string) :
  NoDup ids -> foldl JS.setAdd (foldl JS.setAdd [] ids) ids = ids.
Proof.
  intros Hnd. rewrite (setAdd_fresh [] ids Hnd). simpl.
  now apply setAdd_known.
Qed.

Lemma find_tag (ts : list Tag.t) (t : Tag.t) :
  NoDup (map Tag.id ts) -> In t ts ->
  List.find (fun t' => String.eqb (Tag.id t') (Tag.id t)) ts = Some t.
Proof.
  induction ts as [| t0 ts IH]; simpl; [tauto |].
  intros Hnd%NoDup_cons [-> | Hin].
  - now rewrite String.eqb_refl.
  - destruct Hnd as [Hnotin Hnd].
    destruct (String.eqb_spec (Tag.id t0) (Tag.id t)) as [E | _]; [| auto].
    exfalso. apply Hnotin. rewrite E. apply list_elem_of_In.
    now apply in_map.
Qed.

Lemma hasTag_own (a : Article) (t : Tag.t) : In t (tags a) -> hasTag (Tag.id t) a = true.
Proof.
  intros Hin. unfold hasTag. apply existsb_exists. exists t.
  split; [exact Hin | apply String.eqb_refl].
Qed.

Lemma truthy_nonempty (s : string) : s <> EmptyString -> JS.truthy s = true.
Proof. destruct s; [contradiction | reflexivity]. Qed.

Section Self.

Variables (a : Article) (allArticles : list Article).

Hypothesis distinct_ids : NoDup (map Tag.id (tags a)).
Hypothesis named : forall t, In t (tags a) -> Tag.name t <> EmptyString.
Hypothesis weighted : forall t, In t (tags a) -> 0 < weightOf Math_log (Tag.id t) a allArticles.

(** The loop over the tag ids, when both articles are [a]: the two sums stay
    equal and every tag adds its name. *)
Lemma self_loop (ts : list Tag.t) (sum : Q) (shared : list string) :
  (forall t, In t ts -> In t (tags a)) ->
  exists sum',
    foldl (jaccardStep a a (weightsFrom Math_log a allArticles ∅ (tags a))
             (weightsFrom Math_log a allArticles ∅ (tags a)))
      (sum, sum, shared) (map Tag.id ts)
    = (sum', sum', shared ++ map Tag.name ts)
    /\ sum <= sum' /\ (ts <> [] -> sum < sum').
Proof.
  revert sum shared. induction ts as [| t ts IH]; intros sum shared Hsub; simpl.
  - exists sum. rewrite app_nil_r. repeat split; [lra | tauto].
  - assert (Ht : In t (tags a)) by (apply Hsub; now left).
    assert (Hw : weightsFrom Math_log a allArticles ∅ (tags a) !! Tag.id t
                 = Some (weightOf Math_log (Tag.id t) a allArticles)).
    { rewrite weightsFrom_lookup.
      pose proof (hasTag_own a t Ht) as H. unfold hasTag in H. now rewrite H. }
    pose proof (weighted t Ht) as Hpos.
    rewrite Hw. simpl.
    rewrite (proj2 (JSFacts.ltb_lt 0 _) Hpos). simpl.
    unfold tagNameOf. rewrite (find_tag (tags a) t distinct_ids Ht). simpl.
    rewrite (truthy_nonempty _ (named t Ht)).
    rewrite Qmin_same, Qmax_same.
    destruct (IH (sum + weightOf Math_log (Tag.id t) a allArticles) (shared ++ [Tag.name t]))
      as (sum' & Heq & Hle & _); [intros t' Ht'; apply Hsub; now right |].
    exists sum'. rewrite Heq, <- app_assoc. simpl.
    repeat split; [lra | intros _; lra].
Qed.

Lemma jaccard_self_eq :
  tags a <> [] ->
  exists similarity,
    calculateWeightedJaccard Math_log a a allArticles
    = Some (similarity, map Tag.name (tags a))
    /\ similarity == 1.
Proof.
  intros Hne. unfold calculateWeightedJaccard.
  rewrite tagWeights_eq. simpl. rewrite (allTagIds_self _ distinct_ids).
  destruct (self_loop (tags a) 0 []) as (sum' & Heq & _ & Hpos); [auto |].
  rewrite Heq. specialize (Hpos Hne).
  rewrite (proj2 (JSFacts.ltb_lt 0 sum') Hpos).
  rewrite JSFacts.div_Some by (intros H; rewrite H in Hpos; lra).
  simpl. eexists. split; [reflexivity |].
  apply Qmult_inv_r. intros H. rewrite H in Hpos. lra.
Qed.

End Self.

Lemma self_sums (a : Article) (weights : gmap string Q) (ids : list string)
    (sum : Q) (shared : list string) :
  exists sum' shared',
    foldl (jaccardStep a a weights weights) (sum, sum, shared) ids
    = (sum', sum', shared').
Proof.
  revert sum shared. induction ids as [| i ids IH]; intros sum shared; simpl; [eauto |].
  rewrite Qmin_same, Qmax_same. apply IH.
Qed.

(** The similarity of an article with itself is 1 or 0. *)
Lemma jaccard_self_values (a : Article) (allArticles : list Article) :
  exists similarity shared,
    calculateWeightedJaccard Math_log a a allArticles = Some (similarity, shared)
    /\ (similarity == 1 \/ similarity == 0).
Proof.
  unfold calculateWeightedJaccard. rewrite tagWeights_eq. simpl.
  destruct (self_sums a (weightsFrom Math_log a allArticles ∅ (tags a))
              (foldl JS.setAdd (foldl JS.setAdd [] (map Tag.id (tags a)))
                 (map Tag.id (tags a))) 0 []) as (sum' & shared' & ->).
  destruct (JS.ltb 0 sum') eqn:E.
  - apply JSFacts.ltb_lt in E.
    rewrite JSFacts.div_Some by (intros H; rewrite H in E; lra).
    simpl. eexists _, _. split; [reflexivity | left].
    apply Qmult_inv_r. intros H. rewrite H in E. lra.
  - simpl. eexists _, _. split; [reflexivity | right; reflexivity].
Qed.

Lemma jaccard_self_untagged (a : Article) (allArticles : list Article) :
  tags a = [] ->
  calculateWeightedJaccard Math_log a a allArticles = Some (0, []).
Proof.
  intros H. unfold calculateWeightedJaccard, tagWeights. rewrite H. reflexivity.
Qed.

(** C2 (amended). An article whose tags have distinct ids, non-empty names
    and, each of them, a strictly positive weight in the corpus, compared
    with itself, has similarity 1 and shares the names of all its tags, in
    their order.  (In general the similarity of an article with itself is
    1 or 0, and 0 when it has no tag: [jaccard_self_values],
    [jaccard_self_untagged].) *)
Theorem jaccard_self (a : Article) (allArticles : list Article) :
  tags a <> [] ->
  NoDup (map Tag.id (tags a)) ->
  (forall t, In t (tags a) ->
     Tag.name t <> EmptyString
     /\ exists weight,
          calculateTagWeight Math_log (Tag.id t) (Tag.name t) a allArticles = Some weight
          /\ 0 < weight) ->
  exists similarity,
    calculateWeightedJaccard Math_log a a allArticles
    = Some (similarity, map Tag.name (tags a))
    /\ similarity == 1.
Proof.
  intros Hne Hnd Htags. apply jaccard_self_eq; try assumption.
  - intros t Ht. apply (Htags t Ht).
  - intros t Ht. destruct (Htags t Ht) as (_ & w & Hw & Hpos).
    rewrite calculateTagWeight_eq in Hw. now injection Hw as ->.
Qed.

(** *** When a weight is positive *)

Section LogarithmSign.

(** What the weights need of [Math.log]: its sign from 1 on. *)
Hypothesis log_nonneg : forall x, 1 <= x -> 0 <= Math_log x.
Hypothesis log_pos : forall x, 1 < x -> 0 < Math_log x.

(** A tag of the article that some article of the corpus does not carry has
    a positive weight, the counters being non-negative. *)
Lemma weightOf_positive (a : Article) (allArticles : list Article) (t : Tag.t) :
  In t (tags a) ->
  (length (List.filter (hasTag (Tag.id t)) allArticles) < length allArticles)%nat ->
  (0 <= likesCount a)%Z -> (0 <= commentsCount a)%Z -> (0 <= readCount a)%Z ->
  0 < weightOf Math_log (Tag.id t) a allArticles.
Proof.
  intros Ht Hcount Hl Hc Hr. unfold weightOf. rewrite (hasTag_own a t Ht).
  set (n := JS.len (List.filter (hasTag (Tag.id t)) allArticles)).
  assert (Hn : 0 <= n) by apply JSFacts.len_nonneg.
  assert (Hlt : n < JS.len allArticles).
  { unfold n, JS.len. rewrite <- Zlt_Qlt. lia. }
  assert (Hidf : 0 < Math_log ((JS.len allArticles + 1) / (n + 1))).
  { apply log_pos. apply Qlt_shift_div_l; lra. }
  assert (Hboost : 0 <= Math_log (1 + (inject_Z (likesCount a) * (3 # 10)
                                        + inject_Z (commentsCount a) * (5 # 10)
                                        + inject_Z (readCount a) * (2 # 10)))).
  { apply log_nonneg.
    assert (0 <= inject_Z (likesCount a))
      by (change 0 with (inject_Z 0); now rewrite <- Zle_Qle).
    assert (0 <= inject_Z (commentsCount a))
      by (change 0 with (inject_Z 0); now rewrite <- Zle_Qle).
    assert (0 <= inject_Z (readCount a))
      by (change 0 with (inject_Z 0); now rewrite <- Zle_Qle).
    lra. }
  apply Qmult_lt_0_compat; [| lra].
  rewrite Qmult_1_l. exact Hidf.
Qed.

(** An article with non-negative counters, whose tags have distinct ids and
    non-empty names and are each missing from some article of the corpus,
    has similarity 1 with itself and shares all its tag names. *)
Lemma jaccard_self_corpus (a : Article) (allArticles : list Article) :
  tags a <> [] ->
  NoDup (map Tag.id (tags a)) ->
  (forall t, In t (tags a) ->
     Tag.name t <> EmptyString
     /\ (length (List.filter (hasTag (Tag.id t)) allArticles) < length allArticles)%nat) ->
  (0 <= likesCount a)%Z -> (0 <= commentsCount a)%Z -> (0 <= readCount a)%Z ->
  exists similarity,
    calculateWeightedJaccard Math_log a a allArticles
    = Some (similarity, map Tag.name (tags a))
    /\ similarity == 1.
Proof.
  intros Hne Hnd Htags Hl Hc Hr. apply jaccard_self_eq; try assumption.
  - intros t Ht. apply (Htags t Ht).
  - intros t Ht. apply weightOf_positive; try assumption. apply (Htags t Ht).
Qed.

End LogarithmSign.

(** *** Recency decay *)

Lemma ageFactor_bounds (x : Q) : Qmin 1 x * (2 # 10) <= 2 # 10.
Proof. pose proof (Q.le_min_l 1 x). lra. Qed.

(** C7 (amended). For a similarity that is not negative, and one reading
    of the clock: an article created earlier has a decayed similarity that is
    no larger; the decayed similarity is at least 0.8 times the raw one; and,
    the similarity being positive, it is exactly 0.8 times the raw one when
    and only when the article is 365 days old or older. *)
Theorem recency_decay (now : Z) (similarity : Q) (earlier later : Z) :
  0 <= similarity ->
  (earlier <= later)%Z ->
  applyRecencyDecay now similarity earlier <= applyRecencyDecay now similarity later
  /\ (8 # 10) * similarity <= applyRecencyDecay now similarity earlier
  /\ (0 < similarity ->
      (applyRecencyDecay now similarity earlier == (8 # 10) * similarity
       <-> 365 <= inject_Z (now - earlier) / (1000 * 60 * 60 * 24))).
Proof.
  intros Hs Hle. unfold applyRecencyDecay.
  set (day := 1000 * 60 * 60 * 24).
  assert (Hday : 0 < day) by (unfold day; lra).
  set (d1 := inject_Z (now - earlier) / day).
  set (d2 := inject_Z (now - later) / day).
  assert (Hd : d2 <= d1).
  { unfold d1, d2. apply Qmult_le_compat_r.
    - rewrite <- Zle_Qle. lia.
    - apply Qlt_le_weak, Qinv_lt_0_compat, Hday. }
  assert (Hm : Qmin 1 (d2 / 365) <= Qmin 1 (d1 / 365)).
  { apply Q.min_le_compat_l. apply Qmult_le_compat_r; [exact Hd | easy]. }
  pose proof (Q.le_min_l 1 (d1 / 365)) as Hcap.
  split; [| split].
  - assert (similarity * Qmin 1 (d2 / 365) <= similarity * Qmin 1 (d1 / 365)).
    { rewrite !(Qmult_comm similarity). now apply Qmult_le_compat_r. }
    lra.
  - assert (0 <= similarity * (1 - Qmin 1 (d1 / 365)))
      by (apply Qmult_le_0_compat; lra).
    lra.
  - intros Hpos. split.
    + intros Heq.
      assert (Hone : Qmin 1 (d1 / 365) == 1).
      { assert (E : similarity * (1 - Qmin 1 (d1 / 365)) == 0) by lra.
        apply Qmult_integral in E. destruct E as [E | E]; lra. }
      pose proof (Q.le_min_r 1 (d1 / 365)) as Hr. rewrite Hone in Hr.
      assert (Hfield : d1 == d1 / 365 * 365) by field.
      lra.
    + intros Hold.
      assert (Hone : Qmin 1 (d1 / 365) == 1).
      { apply Q.min_l. apply Qle_shift_div_l; lra. }
      rewrite Hone. lra.
Qed.

(** *** The recommendations *)

Lemma scoreCandidates_Some (clock : nat -> Z) (currentArticle : Article)
    (candidateArticles candidates : list Article) (i : nat) (h : store) :
  is_Some (scoreCandidates Math_log clock currentArticle candidateArticles i h candidates).
Proof.
  revert i h. induction candidates as [| a rest IH]; intros i h; simpl; [eauto |].
  destruct (jaccard_no_division_by_zero currentArticle a candidateArticles)
    as [[similarity shared] ->]. simpl.
  destruct (IH (S i) (h ++ [shared])) as [[recs h'] ->]. simpl. eauto.
Qed.

End WithRuntime.

Lemma store_update_other (h : store) (loc : nat) (array : list string)
    (rec : RecommendedArticle) :
  Sorted (fun x y => String.leb x y = true) array ->
  sortedTags h rec -> sortedTags (<[loc := array]> h) rec.
Proof.
  unfold sortedTags, sharedTagsOf. intros Harray Hrec.
  destruct (decide (loc = sharedTags rec)) as [-> | Hne].
  - destruct (decide (sharedTags rec < length h)%nat) as [Hlt | Hge].
    + now rewrite list_lookup_insert_eq.
    + rewrite list_insert_ge by lia. exact Hrec.
  - now rewrite list_lookup_insert_ne.
Qed.

Lemma store_update_self (h : store) (array : list string) (rec : RecommendedArticle) :
  Sorted (fun x y => String.leb x y = true) array ->
  sortedTags (<[sharedTags rec := array]> h) rec.
Proof.
  unfold sortedTags, sharedTagsOf. intros Harray.
  destruct (decide (sharedTags rec < length h)%nat) as [Hlt | Hge].
  - now rewrite list_lookup_insert_eq.
  - rewrite list_insert_ge by lia.
    rewrite lookup_ge_None_2 by lia. constructor.
Qed.

(** The diversity loop leaves every accepted record with a sorted array: it
    sorts the array of a record before it accepts it, and later turns only
    sort arrays again. *)
Lemma diversityPass_sorted (limit : Z) (sorted : list RecommendedArticle) :
  forall diverseResults usedTagCombinations h results h',
  Forall (sortedTags h) diverseResults ->
  diversityPass limit sorted diverseResults usedTagCombinations h = (results, h') ->
  Forall (sortedTags h') results.
Proof.
  induction sorted as [| rec rest IH];
    intros diverseResults used h results h' Hinv; simpl.
  - now intros [= <- <-].
  - destruct (Qle_bool (inject_Z limit) (JS.len diverseResults));
      [now intros [= <- <-] |].
    set (array := JS.sortStrings (default [] (h !! sharedTags rec))).
    assert (Harray : Sorted (fun x y => String.leb x y = true) array)
      by apply JSFacts.sortStrings_sorted.
    assert (Hkept : Forall (sortedTags (<[sharedTags rec := array]> h)) diverseResults).
    { eapply Forall_impl; [exact Hinv |].
      intros r Hr. now apply store_update_other. }
    destruct (negb _ || _); apply IH; [| exact Hkept].
    apply Forall_app. split; [exact Hkept |].
    constructor; [| constructor]. now apply store_update_self.
Qed.

(** C10. [getContentBasedRecommendations] returns on every input, and the
    [sharedTags] array of every record it returns is in ascending code-unit
    order. *)
Theorem recommendations_shared_tags_sorted (Math_log : Q -> Q) (clock : nat -> Z)
    (currentArticle : Article) (candidateArticles : list Article)
    (excludeArticleIds : option (list string)) (limit : option Z) :
  exists results h,
    getContentBasedRecommendations Math_log clock currentArticle candidateArticles
      excludeArticleIds limit = Some (results, h)
    /\ forall rec, In rec results ->
         Sorted (fun x y => String.leb x y = true) (sharedTagsOf h rec).
Proof.
  unfold getContentBasedRecommendations.
  destruct (scoreCandidates_Some Math_log clock currentArticle candidateArticles
              (List.filter
                 (fun a => negb (String.eqb (id a) (id currentArticle))
                           && negb (existsb (String.eqb (id a))
                                      (default [] excludeArticleIds)))
                 candidateArticles) 0%nat []) as [[recs h] ->].
  simpl.
  destruct (diversityPass _ _ _ _ _) as [results h'] eqn:Hpass.
  exists (JS.slice0 results (default 10%Z limit)), h'. split; [reflexivity |].
  intros rec Hin%JSFacts.slice0_In.
  apply diversityPass_sorted in Hpass; [| constructor].
  rewrite Forall_forall in Hpass. apply Hpass, list_elem_of_In, Hin.
Qed.

End RecommendationsFacts.

(** ** Trending *)

Module TrendingFacts.

Import Trending.

(** C6. Whatever the thresholds of the filter configuration, an article
    passes the engagement test of the filter exactly when its likes reach
    [minLikes] or its comments reach [minComments], and fails it exactly when
    it is below both; the filter keeps an article that passes it unless the
    article is too old. *)
Theorem engagement_filter (filters : Filters) (a : Article) :
  let minLikes := default 1 (minLikes filters) in
  let minComments := default 0 (minComments filters) in
  (failsEngagement minLikes minComments a = false
   <-> minLikes <= inject_Z (likesCount a) \/ minComments <= inject_Z (commentsCount a))
  /\ (failsEngagement minLikes minComments a = true
      <-> inject_Z (likesCount a) < minLikes /\ inject_Z (commentsCount a) < minComments)
  /\ (forall now maxAgeDays,
        keepArticle now minLikes minComments maxAgeDays a
        = negb (failsEngagement minLikes minComments a)
          && negb (tooOld now maxAgeDays a)).
Proof.
  intros minLikes minComments. unfold failsEngagement, keepArticle.
  split; [| split].
  - rewrite andb_false_iff, !JSFacts.ltb_ge. reflexivity.
  - rewrite andb_true_iff, !JSFacts.ltb_lt. reflexivity.
  - intros now maxAgeDays. unfold failsEngagement.
    destruct (_ && _); [reflexivity |].
    destruct (tooOld now maxAgeDays a); reflexivity.
Qed.

(** C9. With the default thresholds ([minLikes = 1], [minComments = 0]) an
    article whose comment count is not negative passes the engagement test,
    whatever its likes: the threshold on likes, the default or any other,
    changes nothing, and the age test alone decides. *)
Theorem default_engagement_filter (filters : Filters) (now : Z) (a : Article) :
  Trending.minLikes filters = None ->
  Trending.minComments filters = None ->
  (0 <= commentsCount a)%Z ->
  failsEngagement (default 1 (Trending.minLikes filters))
    (default 0 (Trending.minComments filters)) a = false
  /\ forall minLikes maxAgeDays,
       keepArticle now minLikes (default 0 (Trending.minComments filters)) maxAgeDays a
       = negb (tooOld now maxAgeDays a).
Proof.
  intros -> -> Hc. simpl.
  assert (H : JS.ltb (inject_Z (commentsCount a)) 0 = false).
  { apply JSFacts.ltb_ge. change 0 with (inject_Z 0). rewrite <- Zle_Qle. exact Hc. }
  split.
  - unfold failsEngagement. rewrite H. apply andb_false_r.
  - intros minLikes maxAgeDays. unfold keepArticle, failsEngagement.
    rewrite H, andb_false_r. destruct (tooOld now maxAgeDays a); reflexivity.
Qed.

Section WithRuntime.

Variables Math_log Math_exp : Q -> Q.
Variable Math_pow : Q -> Q -> Q.

Lemma calculateHotScore_article (now : Z) (a : Article) (useLogarithmic : option bool)
    (t : TrendingArticle) :
  calculateHotScore Math_log Math_exp Math_pow now a useLogarithmic = Some t ->
  article t = a.
Proof.
  unfold calculateHotScore.
  destruct (if default false useLogarithmic then _ else _) as [decay |];
    simpl; [| discriminate].
  now intros [= <-].
Qed.

(** With the exponential decay the score divides by the constant 7. *)
Lemma calculateHotScore_exponential (now : Z) (a : Article) :
  is_Some (calculateHotScore Math_log Math_exp Math_pow now a (Some false)).
Proof.
  unfold calculateHotScore, calculateExponentialDecay. cbv zeta.
  change (default false (Some false)) with false. cbv iota.
  rewrite JSFacts.div_Some by (simpl; lra). simpl. eauto.
Qed.

(** What [rankTrendingArticles] returns passed its filter. *)
Lemma rank_members (clock : nat -> Z) (articles : list Article) (filters : Filters)
    (limit : option Z) (results : list TrendingArticle) (t : TrendingArticle) :
  rankTrendingArticles Math_log Math_exp Math_pow clock articles filters limit
  = Some results ->
  In t results ->
  In (article t) articles
  /\ keepArticle (clock 0%nat) (default 1 (minLikes filters))
       (default 0 (minComments filters)) (default 90 (maxAgeDays filters))
       (article t) = true.
Proof.
  unfold rankTrendingArticles.
  destruct (JS.mapM' _ _ _) as [trending |] eqn:E; simpl; [| discriminate].
  intros [= <-] Hin%JSFacts.slice0_In.
  unfold JS.sort in Hin. apply JSFacts.sortBy_In in Hin.
  destruct (JSFacts.mapM'_In _ _ _ _ _ E Hin) as (j & a & Ha & Hscore).
  apply calculateHotScore_article in Hscore. subst a.
  now apply filter_In in Ha.
Qed.

(** C8. [getTrendingArticlesByPeriod] with the period [WEEK] returns on
    every collection and every limit, and each article it returns is one of
    the collection whose age, at the clock reading of the call, is at most 7
    days; the engagement counters play no part. *)
Theorem week_excludes_old (clock : nat -> Z) (articles : list Article)
    (limit : option Z) :
  exists results,
    getTrendingArticlesByPeriod Math_log Math_exp Math_pow clock articles
      (Some WEEK) limit = Some results
    /\ forall t, In t results ->
         In (article t) articles /\ daysOld (clock 0%nat) (article t) <= 7.
Proof.
  unfold getTrendingArticlesByPeriod. simpl.
  destruct (rankTrendingArticles Math_log Math_exp Math_pow clock articles
              {| minLikes := Some 1; minComments := Some 0; maxAgeDays := Some 7;
                 useLogarithmicDecay := Some false |}
              (Some (default 20%Z limit))) as [results |] eqn:E.
  - exists results. split; [reflexivity |].
    intros t Ht. destruct (rank_members _ _ _ _ _ t E Ht) as [Hin Hkeep].
    split; [exact Hin |].
    simpl in Hkeep. unfold keepArticle in Hkeep.
    destruct (failsEngagement 1 0 (article t)); [discriminate |].
    destruct (tooOld (clock 0%nat) 7 (article t)) eqn:Hold; [discriminate |].
    unfold tooOld in Hold. apply andb_false_iff in Hold as [Hold | Hold].
    + apply JSFacts.ltb_ge in Hold. lra.
    + now apply JSFacts.ltb_ge in Hold.
  - exfalso. unfold rankTrendingArticles in E. simpl in E.
    destruct (JSFacts.mapM'_total
                (fun i a => calculateHotScore Math_log Math_exp Math_pow
                              (clock (S i)) a (Some false))
                (List.filter (keepArticle (clock 0%nat) 1 0 7) articles))
      with (i := 0%nat) as [trending Htr].
    + intros i a _. apply calculateHotScore_exponential.
    + rewrite Htr in E. discriminate.
Qed.

End WithRuntime.

End TrendingFacts.

(** ** The engine as a whole, and the properties on the sample inputs *)

Module EngineFacts.

Import Samples.

(** C1 (amended). [calculateWeightedJaccard] divides by zero on no input: it
    divides by [maxSum] under the test [maxSum > 0] and returns 0 otherwise,
    as it does for two articles without tags.  [calculateAvgDocLength]
    divides on a collection that is not empty and returns 0 on the empty one.
    [calculateBM25Score] has no test of its own on [avgDocLength] or on the
    denominator of the term score: called by [rankDocumentsWithBM25] with
    [k1 > 0] and [0 <= b < 1] (the defaults 1.5 and 0.75 among them) it
    divides by zero on no query and no collection, because a term with a
    positive IDF is a token of some document, which makes the average length
    positive. *)
Theorem division_guards :
  (forall Math_log articleA articleB allArticles,
     is_Some (Recommendations.calculateWeightedJaccard Math_log articleA articleB
                allArticles))
  /\ (forall Math_log articleA articleB allArticles,
        Recommendations.tags articleA = [] -> Recommendations.tags articleB = [] ->
        Recommendations.calculateWeightedJaccard Math_log articleA articleB allArticles
        = Some (0, []))
  /\ (forall documents, is_Some (BM25.calculateAvgDocLength documents))
  /\ BM25.calculateAvgDocLength [] = Some 0
  /\ (forall Math_log query documents config,
        0 < default (3 # 2) (BM25.k1 config) ->
        0 <= default (3 # 4) (BM25.b config) < 1 ->
        is_Some (BM25.rankDocumentsWithBM25 Math_log query documents config)).
Proof.
  split; [| split; [| split; [| split]]].
  - apply RecommendationsFacts.jaccard_no_division_by_zero.
  - intros Math_log articleA articleB allArticles HA HB.
    unfold Recommendations.calculateWeightedJaccard, Recommendations.tagWeights.
    rewrite HA, HB. reflexivity.
  - apply BM25Facts.avgDocLength_Some.
  - reflexivity.
  - apply BM25Facts.rank_no_division_by_zero.
Qed.

Lemma division_guards_witness :
  is_Some (BM25.rankDocumentsWithBM25 JS.Math_log_series "rust memory" documents defaults).
Proof.
  apply (proj2 (proj2 (proj2 (proj2 division_guards)))).
  - reflexivity.
  - split; [discriminate | reflexivity].
Defined.

(** C1, as stated, fails: [calculateBM25Score] divides by the average length
    it is given, here 0, for a term with a positive IDF; and through
    [rankDocumentsWithBM25] with [k1 = 0] it divides 0 by 0 for the document
    that does not hold the term. *)
Lemma division_guards_counterexample :
  BM25.calculateBM25Score JS.Math_log_series "rust" pastaDoc documents
    (BM25.buildInvertedIndex documents) 0 defaults = None
  /\ BM25.rankDocumentsWithBM25 JS.Math_log_series "rust" documents
       {| BM25.k1 := Some 0; BM25.b := None |} = None.
Proof. split; vm_compute; reflexivity. Qed.

(** C2, as stated, fails: in a corpus that holds the article alone every tag
    has IDF [ln 1 = 0], so the similarity of the article with itself is 0 and
    no tag is shared. *)
Lemma jaccard_self_counterexample :
  Recommendations.calculateWeightedJaccard JS.Math_log_series proofsArticle
    proofsArticle [proofsArticle] = Some (0, [])
  /\ ~ (forall a allArticles,
          exists similarity,
            Recommendations.calculateWeightedJaccard JS.Math_log_series a a allArticles
            = Some (similarity, map Tag.name (Recommendations.tags a))
            /\ similarity == 1).
Proof.
  assert (H : Recommendations.calculateWeightedJaccard JS.Math_log_series
                proofsArticle proofsArticle [proofsArticle] = Some (0, []))
    by (vm_compute; reflexivity).
  split; [exact H |].
  intros Hall. destruct (Hall proofsArticle [proofsArticle]) as (sim & Heq & _).
  rewrite H in Heq. discriminate.
Qed.

Lemma jaccard_self_witness :
  exists similarity,
    Recommendations.calculateWeightedJaccard JS.Math_log_series proofsArticle
      proofsArticle corpus = Some (similarity, ["zeta"; "proofs"; "alpha"]%string)
    /\ similarity == 1.
Proof.
  apply (RecommendationsFacts.jaccard_self JS.Math_log_series proofsArticle corpus).
  - discriminate.
  - apply NoDup_ListNoDup. repeat constructor; simpl; intuition discriminate.
  - intros t [<- | [<- | [<- | []]]];
      (split; [discriminate |]);
      eexists; (split; [vm_compute; reflexivity | reflexivity]).
Defined.

(** C5, as stated, fails: the underscore is a [\w] code unit, so it is kept;
    the tokenizer of the specification would split there. *)
Lemma tokenize_counterexample :
  BM25.tokenize "foo_bar" = ["foo_bar"%string]
  /\ BM25.tokenizeSpec "foo_bar" = ["foo"; "bar"]%string
  /\ ~ (forall text token,
          In token (BM25.tokenize text) ->
          JS.allChars BM25.isLowerAlphanumeric token = true).
Proof.
  split; [reflexivity |]. split; [reflexivity |].
  intros H. specialize (H "foo_bar"%string "foo_bar"%string (or_introl eq_refl)).
  discriminate.
Qed.

Lemma tokenize_shape_witness :
  In "hello"%string (BM25.tokenize "Hello, World!")
  /\ (3 <= String.length "hello")%nat
  /\ JS.allChars BM25.isLowerWordChar "hello" = true.
Proof.
  assert (H : In "hello"%string (BM25.tokenize "Hello, World!")) by (now left).
  split; [exact H |].
  destruct (BM25Facts.tokenize_shape "Hello, World!" "hello" H) as (Hlen & Hchars & _).
  split; assumption.
Defined.

Lemma rank_pass_through_witness :
  BM25.rankDocumentsWithBM25 JS.Math_log_series "  " documents defaults
  = Some [ {| BM25.document := rustDoc; BM25.score := 0 |};
           {| BM25.document := pastaDoc; BM25.score := 0 |};
           {| BM25.document := gardenDoc; BM25.score := 0 |} ].
Proof.
  apply (proj1 (BM25Facts.rank_pass_through JS.Math_log_series "  " documents defaults)).
  left. reflexivity.
Defined.

Lemma rank_stop_words_witness :
  BM25.passThrough "what is the who" documents = false
  /\ BM25.rankDocumentsWithBM25 JS.Math_log_series "what is the who" documents defaults
     = Some [].
Proof.
  destruct (BM25Facts.rank_stop_words JS.Math_log_series "what is the who" documents
              defaults) as (Hpass & _ & Hrank).
  - discriminate.
  - reflexivity.
  - repeat constructor.
  - split; assumption.
Defined.

(** C7, as stated, fails: with a negative similarity the older article has
    the larger decayed value. *)
Lemma recency_decay_counterexample :
  ~ (forall now similarity earlier later,
       (earlier <= later)%Z ->
       Recommendations.applyRecencyDecay now similarity earlier
       <= Recommendations.applyRecencyDecay now similarity later).
Proof.
  intros H. specialize (H oneYear (-1) 0%Z oneYear).
  vm_compute in H. apply H; [discriminate | reflexivity].
Qed.

Lemma recency_decay_witness :
  Recommendations.applyRecencyDecay oneYear 1 0
  <= Recommendations.applyRecencyDecay oneYear 1 oneYear
  /\ (8 # 10) * 1 <= Recommendations.applyRecencyDecay oneYear 1 0.
Proof.
  destruct (RecommendationsFacts.recency_decay oneYear 1 0 oneYear) as (H1 & H2 & _).
  - discriminate.
  - discriminate.
  - split; assumption.
Defined.

Lemma default_engagement_filter_witness :
  Trending.failsEngagement 1 0 quietArticle = false.
Proof.
  apply (TrendingFacts.default_engagement_filter noFilters 0 quietArticle);
    [reflexivity | reflexivity | discriminate].
Defined.

(** *** The definitions at work *)

Example tokenize_sample :
  BM25.tokenize "Hello, World! foo_bar a  bc  The"
  = ["hello"; "world"; "foo_bar"; "the"]%string.
Proof. reflexivity. Qed.

Example splitSpaces_sample :
  JS.splitSpaces " a  b " = [""; "a"; "b"; ""]%string.
Proof. reflexivity. Qed.

(** The document about Rust is the only one returned for "rust memory". *)
Example rank_sample :
  exists score,
    BM25.rankDocumentsWithBM25 JS.Math_log_series "rust memory" documents defaults
    = Some [ {| BM25.document := rustDoc; BM25.score := score |} ]
    /\ 0 < score.
Proof. eexists. split; [vm_compute; reflexivity | reflexivity]. Qed.

(** The shared tags of the first recommendation were collected as
    ["zeta"; "alpha"], the order of the reference article's tags; the
    diversity loop leaves them sorted. *)
Example recommendations_sample :
  snd <$> Recommendations.calculateWeightedJaccard JS.Math_log_series proofsArticle
            zetaArticle corpus
  = Some ["zeta"; "alpha"]%string.
Proof. vm_compute. reflexivity. Qed.

Example recommendations_run :
  exists results h,
    Recommendations.getContentBasedRecommendations JS.Math_log_series (fun _ => 0%Z)
      proofsArticle corpus None None = Some (results, h)
    /\ map (fun rec => Recommendations.id (Recommendations.article rec)) results
       = ["q"; "r"]%string
    /\ map (Recommendations.sharedTagsOf h) results
       = [["alpha"; "zeta"]; ["proofs"]]%string.
Proof. eexists _, _. split; [vm_compute; reflexivity |]. split; reflexivity. Qed.

(** The sample corpus meets the hypotheses of [jaccard_self_corpus] with the
    stand-in logarithm. *)
Example jaccard_self_sample :
  exists similarity,
    Recommendations.calculateWeightedJaccard JS.Math_log_series proofsArticle
      proofsArticle corpus = Some (similarity, ["zeta"; "proofs"; "alpha"]%string)
    /\ similarity == 1.
Proof.
  apply (RecommendationsFacts.jaccard_self_corpus JS.Math_log_series).
  - intros x Hx. now apply JSFacts.Math_log_series_sign.
  - intros x Hx. apply JSFacts.Math_log_series_sign; lra.
  - discriminate.
  - apply NoDup_ListNoDup. repeat constructor; simpl; intuition discriminate.
  - intros t [<- | [<- | [<- | []]]]; (split; [discriminate | vm_compute; lia]).
  - discriminate.
  - discriminate.
  - discriminate.
Qed.

End EngineFacts.

(** * Further properties *)

(** ** More on BM25 *)

Module BM25More.

Import BM25 BM25Notions.

(** The stand-in for [Math.log] is not positive up to 1. *)
Lemma Math_log_series_nonpos (x : Q) : x <= 1 -> JS.Math_log_series x <= 0.
Proof.
  intros Hx. unfold JS.Math_log_series.
  destruct (Qle_bool x 0) eqn:E; [lra |].
  apply JSFacts.Qle_bool_false in E.
  cbv zeta. rewrite !Qred_correct.
  set (y := (x - 1) / (x + 1)).
  assert (Hy : 0 <= - y).
  { assert (y <= 0) by (unfold y; apply Qle_shift_div_r; lra). lra. }
  destruct (JSFacts.series_sign (- y) Hy) as [H _].
  assert (Heq : 2 * y * (1 + y * y * ((1 # 3) + y * y * ((1 # 5) + y * y * (1 # 7))))
                == - (2 * - y * (1 + - y * - y * ((1 # 3) + - y * - y
                                                       * ((1 # 5) + - y * - y * (1 # 7))))))
    by ring.
  rewrite Heq. lra.
Qed.

(** *** Case *)

Lemma lowerChar_idempotent (c : ascii) : JS.lowerChar (JS.lowerChar c) = JS.lowerChar c.
Proof. destruct c as [[] [] [] [] [] [] [] []]; reflexivity. Qed.

Lemma lowerChar_space (c : ascii) : JS.isSpace (JS.lowerChar c) = JS.isSpace c.
Proof. destruct c as [[] [] [] [] [] [] [] []]; reflexivity. Qed.

Lemma toLowerCase_idempotent (s : string) :
  JS.toLowerCase (JS.toLowerCase s) = JS.toLowerCase s.
Proof.
  unfold JS.toLowerCase. induction s as [| c s IH]; simpl; [reflexivity |].
  now rewrite lowerChar_idempotent, IH.
Qed.

Lemma tokenize_lower (text : string) : tokenize (JS.toLowerCase text) = tokenize text.
Proof. unfold tokenize. now rewrite toLowerCase_idempotent. Qed.

Lemma blank_lower (s : string) :
  JS.allChars JS.isSpace (JS.toLowerCase s) = JS.allChars JS.isSpace s.
Proof.
  unfold JS.toLowerCase. induction s as [| c s IH]; simpl; [reflexivity |].
  now rewrite lowerChar_space, IH.
Qed.

Lemma passThrough_lower (query : string) (documents : list Document) :
  passThrough (JS.toLowerCase query) documents = passThrough query documents.
Proof.
  unfold passThrough. now rewrite !JSFacts.trim_truthy, blank_lower.
Qed.

(** X1. The ranking reads the query through its tokens and its blankness only:
    two queries that differ in the case of their letters rank alike. *)
Theorem rank_query_case (Math_log : Q -> Q) (query1 query2 : string)
    (documents : list Document) (config : BM25Config) :
  JS.toLowerCase query1 = JS.toLowerCase query2 ->
  rankDocumentsWithBM25 Math_log query1 documents config
  = rankDocumentsWithBM25 Math_log query2 documents config.
Proof.
  intros H. unfold rankDocumentsWithBM25, calculateBM25Score.
  rewrite <- (passThrough_lower query1), <- (passThrough_lower query2).
  rewrite <- (tokenize_lower query1), <- (tokenize_lower query2).
  now rewrite H.
Qed.

(** *** The inverted index *)

Lemma addToken_posting (docId : string) (index : gmap string (gset string))
    (token term d : string) :
  posting (addToken docId index token) term d
  <-> posting index term d
      \/ (isStopWord token = false /\ term = token /\ d = docId).
Proof.
  unfold addToken, posting.
  destruct (isStopWord token) eqn:Estop.
  - split; [auto | intros [H | (H & _)]; [exact H | discriminate]].
  - destruct (decide (term = token)) as [-> | Hne].
    + case_bool_decide as Hhas.
      * destruct Hhas as [ids0 Hids0]. rewrite Hids0, lookup_insert_eq.
        split.
        -- intros (ids & [= <-] & Hd). apply elem_of_union in Hd as [Hd | Hd].
           ++ left. eauto.
           ++ right. apply elem_of_singleton in Hd. auto.
        -- intros [(ids & Hids & Hd) | (_ & _ & ->)].
           ++ exists (ids0 ∪ {[docId]}). split; [reflexivity |].
              injection Hids as <-.
              apply elem_of_union. now left.
           ++ exists (ids0 ∪ {[docId]}). split; [reflexivity |].
              apply elem_of_union. right. now apply elem_of_singleton.
      * rewrite lookup_insert_eq, lookup_insert_eq.
        assert (Hnone : index !! token = None).
        { destruct (index !! token) eqn:E; [| reflexivity].
          exfalso. apply Hhas. eauto. }
        split.
        -- intros (ids & [= <-] & Hd). right.
           apply elem_of_union in Hd as [Hd | Hd]; [set_solver |].
           apply elem_of_singleton in Hd. auto.
        -- intros [(ids & Hids & _) | (_ & _ & ->)]; [congruence |].
           exists (∅ ∪ {[docId]}). split; [reflexivity | set_solver].
    + assert (Hsame : forall m : gmap string (gset string),
                match (if bool_decide (is_Some (index !! token)) then index
                       else <[token := ∅]> index) !! token with
                | Some ids => <[token := ids ∪ {[docId]}]>
                                (if bool_decide (is_Some (index !! token)) then index
                                 else <[token := ∅]> index)
                | None => (if bool_decide (is_Some (index !! token)) then index
                           else <[token := ∅]> index)
                end !! term = index !! term).
      { intros _. case_bool_decide as Hhas.
        - destruct (index !! token) eqn:E.
          + now rewrite lookup_insert_ne.
          + reflexivity.
        - rewrite lookup_insert_eq. now rewrite !lookup_insert_ne. }
      rewrite (Hsame ∅). split; [auto |].
      intros [H | (_ & Heq & _)]; [exact H | contradiction].
Qed.

Lemma addTokens_posting (docId : string) (tokens : list string)
    (index : gmap string (gset string)) (term d : string) :
  posting (foldl (addToken docId) index tokens) term d
  <-> posting index term d
      \/ (isStopWord term = false /\ In term tokens /\ d = docId).
Proof.
  revert index. induction tokens as [| token tokens IH]; intros index; simpl.
  - intuition.
  - rewrite IH, addToken_posting. split.
    + intros [[H | (Hs & -> & ->)] | (Hs & Hin & ->)]; auto 6.
    + intros [H | (Hs & [-> | Hin] & ->)]; auto 6.
Qed.

Lemma setOf_complete (x : string) (l : list string) : In x l -> In x (JS.setOf l).
Proof.
  unfold JS.setOf.
  assert (Hkeep : forall l acc, In x acc -> In x (foldl JS.setAdd acc l)).
  { clear. induction l as [| y l IH]; intros acc Hacc; simpl; [exact Hacc |].
    apply IH. unfold JS.setAdd. case_bool_decide; [exact Hacc |].
    apply in_app_iff. now left. }
  generalize (@nil string).
  induction l as [| y l IH]; intros acc; simpl; [tauto |].
  intros [-> | Hin]; [| now apply IH].
  apply Hkeep. unfold JS.setAdd. case_bool_decide as Hx.
  - now apply list_elem_of_In.
  - apply in_app_iff. right. now left.
Qed.

(** X2. The index holds exactly the postings of the collection: [docId] is
    listed under [term] when and only when [term] is not a stop-word and is a
    token of a document whose id is [docId]. *)
Theorem buildInvertedIndex_postings (documents : list Document) (term docId : string) :
  posting (buildInvertedIndex documents) term docId
  <-> isStopWord term = false
      /\ exists doc, In doc documents /\ id doc = docId
                     /\ In term (tokenize (text doc)).
Proof.
  unfold buildInvertedIndex.
  assert (H : forall docs index,
             posting
               (foldl (fun index doc =>
                         foldl (addToken (id doc)) index (JS.setOf (tokenize (text doc))))
                  index docs) term docId
             <-> posting index term docId
                 \/ (isStopWord term = false
                     /\ exists doc, In doc docs /\ id doc = docId
                                    /\ In term (tokenize (text doc)))).
  { induction docs as [| doc docs IH]; intros index; simpl.
    - split; [auto | intros [H | (_ & d & [] & _)]; exact H].
    - rewrite IH, addTokens_posting. split.
      + intros [[H | (Hs & Hin & ->)] | (Hs & d & Hd & Hid & Hin)].
        * now left.
        * right. split; [exact Hs |]. exists doc.
          split; [now left |]. split; [reflexivity | now apply BM25Facts.setOf_In].
        * right. split; [exact Hs |]. exists d. auto.
      + intros [H | (Hs & d & [<- | Hd] & Hid & Hin)].
        * auto.
        * left. right. split; [exact Hs |].
          split; [now apply setOf_complete | now symmetry].
        * right. split; [exact Hs |]. exists d. auto. }
  rewrite H. split.
  - intros [(ids & Hids & _) | Hr]; [| exact Hr].
    rewrite lookup_empty in Hids. discriminate.
  - auto.
Qed.

(** *** What is returned *)

Section WithRuntime.

Variable Math_log : Q -> Q.

Lemma unknown_term_idf (term : string) (documents : list Document) :
  (forall doc, In doc documents -> ~ In term (tokenize (text doc))) ->
  calculateIDF Math_log term documents (buildInvertedIndex documents) = Some 0.
Proof.
  intros H. unfold calculateIDF.
  destruct (buildInvertedIndex documents !! term) as [ids |] eqn:E; [| reflexivity].
  exfalso.
  destruct (BM25Facts.buildInvertedIndex_keys documents term) as (doc & Hdoc & Hterm);
    [eauto |].
  exact (H doc Hdoc Hterm).
Qed.

Lemma filter_none (term : string) (tokens : list string) :
  ~ In term tokens -> List.filter (fun token => String.eqb token term) tokens = [].
Proof.
  induction tokens as [| t tokens IH]; simpl; [reflexivity |].
  intros H. destruct (String.eqb_spec t term) as [-> | _].
  - exfalso. apply H. now left.
  - apply IH. intros Hin. apply H. now right.
Qed.

(** A term that is not a token of the document leaves the score of the
    document as it is, up to the equality of numbers. *)
Lemma scoreTerm_absent (doc : Document) (allDocuments : list Document)
    (index : gmap string (gset string)) (avg : Q) (config : BM25Config)
    (score score' : Q) (term : string) :
  ~ In term (tokenize (text doc)) ->
  scoreTerm Math_log doc allDocuments index avg config score term = Some score' ->
  score' == score.
Proof.
  intros Habsent. unfold scoreTerm.
  destruct (isStopWord term); [now intros [= <-] |].
  destruct (calculateIDF Math_log term allDocuments index) as [idf |];
    simpl; [| discriminate].
  destruct (Qle_bool idf 0); [now intros [= <-] |].
  destruct (JS.div (JS.len (tokenize (text doc))) avg) as [ratio |];
    simpl; [| discriminate].
  unfold calculateTF. rewrite (filter_none term _ Habsent).
  change (JS.len (@nil string)) with 0.
  unfold JS.div. destruct (Qeq_bool _ 0); simpl; [discriminate |].
  intros [= <-]. unfold Qdiv. ring.
Qed.

Lemma scoreTerm_stop (doc : Document) (allDocuments : list Document)
    (index : gmap string (gset string)) (avg : Q) (config : BM25Config)
    (score score' : Q) (term : string) :
  isStopWord term = true ->
  scoreTerm Math_log doc allDocuments index avg config score term = Some score' ->
  score' == score.
Proof.
  intros Hstop. unfold scoreTerm. rewrite Hstop. now intros [= <-].
Qed.

Lemma score_no_match (query : string) (doc : Document)
    (allDocuments : list Document) (index : gmap string (gset string)) (avg : Q)
    (config : BM25Config) (score : Q) :
  Forall (fun term => isStopWord term = true \/ ~ In term (tokenize (text doc)))
    (tokenize query) ->
  calculateBM25Score Math_log query doc allDocuments index avg config = Some score ->
  score == 0.
Proof.
  unfold calculateBM25Score. generalize (tokenize query) as terms.
  assert (H : forall terms start,
             Forall (fun term => isStopWord term = true
                                 \/ ~ In term (tokenize (text doc))) terms ->
             JS.foldM' (scoreTerm Math_log doc allDocuments index avg config)
               start terms = Some score ->
             score == start).
  { induction terms as [| term terms IH]; intros start Hall; simpl.
    - now intros [= <-].
    - apply Forall_cons in Hall as [Hterm Hall].
      destruct (scoreTerm _ _ _ _ _ _ start term) as [next |] eqn:E; [| discriminate].
      intros Hrest. rewrite (IH next Hall Hrest).
      destruct Hterm as [Hstop | Habsent].
      + now apply scoreTerm_stop in E.
      + now apply scoreTerm_absent in E. }
  intros terms. apply H.
Qed.

(** X3. A document that [rankDocumentsWithBM25] returns on the scoring path
    holds a token of the query that is not a stop-word. *)
Theorem rank_results_match (query : string) (documents : list Document)
    (config : BM25Config) (results : list ScoredDocument) (sd : ScoredDocument) :
  passThrough query documents = false ->
  rankDocumentsWithBM25 Math_log query documents config = Some results ->
  In sd results ->
  exists term,
    In term (tokenize query) /\ isStopWord term = false
    /\ In term (tokenize (text (document sd))).
Proof.
  intros Hp Hrank Hin.
  destruct (BM25Facts.rank_scoring_path Math_log query documents config results
              Hp Hrank) as [Hpos _].
  destruct (Hpos sd Hin) as [Hscore _].
  unfold rankDocumentsWithBM25 in Hrank. rewrite Hp in Hrank.
  destruct (calculateAvgDocLength documents) as [avg |]; simpl in Hrank;
    [| discriminate].
  destruct (JS.mapM' _ _ _) as [scored |] eqn:E; simpl in Hrank; [| discriminate].
  injection Hrank as <-.
  unfold JS.sort in Hin. apply JSFacts.sortBy_In, filter_In in Hin as [Hin _].
  destruct (JSFacts.mapM'_In _ _ _ _ _ E Hin) as (j & doc & _ & Hsd).
  destruct (calculateBM25Score Math_log query doc documents
              (buildInvertedIndex documents) avg config) as [sc |] eqn:Esc;
    simpl in Hsd; [| discriminate].
  injection Hsd as <-. simpl in *.
  destruct (List.Exists_dec
              (fun term => isStopWord term = false /\ In term (tokenize (text doc)))
              (tokenize query)) as [Hex | Hnone].
  - intros term.
    destruct (isStopWord term);
      [right; intros [? _]; discriminate |].
    destruct (in_dec String.string_dec term (tokenize (text doc)));
      [left | right]; tauto.
  - apply Exists_exists in Hex as (term & Hterm & Hs & Hd).
    exists term. split; [now apply list_elem_of_In |]. auto.
  - exfalso.
    assert (Hzero : sc == 0).
    { apply (score_no_match query doc documents (buildInvertedIndex documents)
               avg config sc); [| exact Esc].
      apply Forall_forall. intros term Hterm.
      destruct (isStopWord term) eqn:Es; [now left | right].
      intros Hd. apply Hnone. apply Exists_exists. exists term. auto. }
    rewrite Hzero in Hscore. lra.
Qed.

(** X4. A query whose tokens are stop-words or tokens of no document returns
    nothing, whatever the configuration. *)
Theorem rank_unknown_terms (query : string) (documents : list Document)
    (config : BM25Config) :
  documents <> [] ->
  JS.allChars JS.isSpace query = false ->
  (forall term, In term (tokenize query) ->
     isStopWord term = true
     \/ forall doc, In doc documents -> ~ In term (tokenize (text doc))) ->
  rankDocumentsWithBM25 Math_log query documents config = Some [].
Proof.
  intros Hd Hq Hterms.
  unfold rankDocumentsWithBM25.
  rewrite (BM25Facts.passThrough_false query documents Hd Hq).
  destruct (BM25Facts.avgDocLength_Some documents) as [avg ->]. simpl.
  rewrite (JSFacts.mapM'_ext_Some _ (fun doc => {| document := doc; score := 0 |})).
  - simpl. f_equal.
    replace (List.filter _ _) with (@nil ScoredDocument); [reflexivity |].
    clear. induction documents as [| d ds IH]; [reflexivity | exact IH].
  - intros i doc _.
    replace (calculateBM25Score Math_log query doc documents
               (buildInvertedIndex documents) avg config) with (Some 0);
      [reflexivity |].
    symmetry. unfold calculateBM25Score. apply JSFacts.foldM'_fixed.
    intros term Hterm. unfold scoreTerm.
    destruct (isStopWord term) eqn:Es; [reflexivity |].
    destruct (Hterms term Hterm) as [Hstop | Hunknown]; [congruence |].
    now rewrite (unknown_term_idf term documents Hunknown).
Qed.

Lemma fieldBoost_ge_1 (doc : Document) (term : string) : 1 <= fieldBoost doc term.
Proof.
  unfold fieldBoost.
  repeat match goal with
         | |- context [if ?c then _ else _] => destruct c
         end; easy.
Qed.

Lemma calculateTF_pos (term : string) (tokens : list string) :
  In term tokens -> 0 < calculateTF term tokens.
Proof.
  intros Hin. unfold calculateTF. apply JSFacts.len_pos.
  intros Hnil.
  assert (H : In term (List.filter (fun token => String.eqb token term) tokens))
    by (apply filter_In; split; [exact Hin | apply String.eqb_refl]).
  now rewrite Hnil in H.
Qed.

Lemma mapM'_complete {A B : Type} (f : nat -> A -> option B) (l : list A) :
  forall i ys x, JS.mapM' f i l = Some ys -> In x l ->
  exists j y, f j x = Some y /\ In y ys.
Proof.
  induction l as [| x0 l IH]; intros i ys x; simpl; [tauto |].
  destruct (f i x0) as [y0 |] eqn:E; [| discriminate].
  destruct (JS.mapM' f (S i) l) as [ys0 |] eqn:E'; [| discriminate].
  intros [= <-] [-> | Hin].
  - exists i, y0. split; [exact E | now left].
  - destruct (IH _ _ _ E' Hin) as (j & y & Hy & Hys). exists j, y.
    split; [exact Hy | now right].
Qed.

Section Scoring.

Variables (documents : list Document) (avg : Q) (config : BM25Config).

Hypothesis k1_pos : 0 < default (3 # 2) (k1 config).
Hypothesis b_range : 0 <= default (3 # 4) (b config) < 1.
Hypothesis avg_eq : calculateAvgDocLength documents = Some avg.

(** One turn of the scoring loop never lowers the score, and raises it for
    a term of the document that has a positive IDF. *)
Lemma scoreTerm_grows (doc : Document) (score score' : Q) (term : string) :
  scoreTerm Math_log doc documents (buildInvertedIndex documents) avg config
    score term = Some score' ->
  score <= score'
  /\ (isStopWord term = false ->
      In term (tokenize (text doc)) ->
      (forall idf, calculateIDF Math_log term documents (buildInvertedIndex documents)
                   = Some idf -> 0 < idf) ->
      score < score').
Proof.
  unfold scoreTerm.
  destruct (isStopWord term) eqn:Es.
  { intros [= <-]. split; [lra | discriminate]. }
  destruct (BM25Facts.calculateIDF_Some Math_log term documents
              (buildInvertedIndex documents)) as (idf & Hidf & Hkey).
  rewrite Hidf. simpl.
  destruct (Qle_bool idf 0) eqn:E.
  { intros [= <-]. split; [lra |].
    intros _ _ Hpos. apply Qle_bool_iff in E. specialize (Hpos idf eq_refl). lra. }
  apply JSFacts.Qle_bool_false in E.
  destruct (BM25Facts.buildInvertedIndex_keys documents term (Hkey E))
    as (d & Hd & Hterm).
  pose proof (BM25Facts.avgDocLength_pos Math_log documents d term avg Hd Hterm avg_eq)
    as Havg.
  rewrite JSFacts.div_Some by (intros H; rewrite H in Havg; lra). simpl.
  set (ratio := JS.len (tokenize (text doc)) / avg).
  assert (Hratio : 0 <= ratio).
  { unfold ratio. apply Qle_shift_div_l; [exact Havg |].
    pose proof (JSFacts.len_nonneg (tokenize (text doc))). lra. }
  pose proof (BM25Facts.calculateTF_nonneg term (tokenize (text doc))) as Htf.
  destruct b_range as [Hb0 Hb1].
  set (kk := default (3 # 2) (k1 config)) in *.
  set (bb := default (3 # 4) (b config)) in *.
  set (tf := calculateTF term (tokenize (text doc))) in *.
  assert (Hden : 0 < tf + kk * (1 - bb + bb * ratio)).
  { assert (0 <= bb * ratio) by (apply Qmult_le_0_compat; assumption).
    assert (0 < kk * (1 - bb + bb * ratio)) by (apply Qmult_lt_0_compat; lra).
    lra. }
  rewrite JSFacts.div_Some by (intros H; rewrite H in Hden; lra). simpl.
  intros [= <-].
  pose proof (fieldBoost_ge_1 doc term) as Hboost.
  assert (Hnum : 0 <= idf * (tf * (kk + 1))).
  { apply Qmult_le_0_compat; [lra |]. apply Qmult_le_0_compat; lra. }
  assert (Hinv : 0 < / (tf + kk * (1 - bb + bb * ratio)))
    by now apply Qinv_lt_0_compat.
  split.
  - assert (0 <= idf * (tf * (kk + 1)) / (tf + kk * (1 - bb + bb * ratio))
                 * fieldBoost doc term).
    { apply Qmult_le_0_compat; [| lra].
      unfold Qdiv. apply Qmult_le_0_compat; lra. }
    lra.
  - intros _ Hin _.
    assert (Htfpos : 0 < tf) by now apply calculateTF_pos.
    assert (0 < idf * (tf * (kk + 1)) / (tf + kk * (1 - bb + bb * ratio))
                * fieldBoost doc term).
    { apply Qmult_lt_0_compat; [| lra].
      unfold Qdiv. apply Qmult_lt_0_compat; [| exact Hinv].
      apply Qmult_lt_0_compat; [exact E |]. apply Qmult_lt_0_compat; lra. }
    lra.
Qed.

Lemma score_grows (doc : Document) (terms : list string) (start score : Q) :
  JS.foldM' (scoreTerm Math_log doc documents (buildInvertedIndex documents) avg config)
    start terms = Some score ->
  start <= score
  /\ (forall term,
        In term terms -> isStopWord term = false ->
        In term (tokenize (text doc)) ->
        (forall idf, calculateIDF Math_log term documents (buildInvertedIndex documents)
                     = Some idf -> 0 < idf) ->
        start < score).
Proof.
  revert start. induction terms as [| t terms IH]; intros start; simpl.
  - intros [= <-]. split; [lra | tauto].
  - destruct (scoreTerm _ _ _ _ _ _ start t) as [next |] eqn:E; [| discriminate].
    intros Hrest. destruct (IH next Hrest) as [Hle Hlt].
    destruct (scoreTerm_grows doc start next t E) as [Hle1 Hlt1].
    split; [lra |].
    intros term [-> | Hin] Hs Hd Hidf.
    + specialize (Hlt1 Hs Hd Hidf). lra.
    + specialize (Hlt term Hin Hs Hd Hidf). lra.
Qed.

End Scoring.

(** X5. With [k1 > 0] and [0 <= b < 1]: a document of the collection that holds
    a token of the query which is not a stop-word and has a positive IDF is
    returned, with a positive score. *)
Theorem rank_returns_match (query : string) (documents : list Document)
    (config : BM25Config) (doc : Document) (term : string) (idf : Q) :
  0 < default (3 # 2) (k1 config) ->
  0 <= default (3 # 4) (b config) < 1 ->
  passThrough query documents = false ->
  In doc documents ->
  In term (tokenize query) -> isStopWord term = false ->
  In term (tokenize (text doc)) ->
  calculateIDF Math_log term documents (buildInvertedIndex documents) = Some idf ->
  0 < idf ->
  exists results sd,
    rankDocumentsWithBM25 Math_log query documents config = Some results
    /\ In sd results /\ document sd = doc /\ 0 < score sd.
Proof.
  intros Hk1 Hb Hp Hdoc Hq Hs Hd Hidf Hpos.
  destruct (BM25Facts.rank_no_division_by_zero Math_log query documents config Hk1 Hb)
    as [results Hrank].
  exists results. unfold rankDocumentsWithBM25 in Hrank. rewrite Hp in Hrank.
  destruct (calculateAvgDocLength documents) as [avg |] eqn:Havg;
    simpl in Hrank; [| discriminate].
  destruct (JS.mapM' _ _ _) as [scored |] eqn:E; simpl in Hrank; [| discriminate].
  destruct (mapM'_complete _ _ _ _ doc E Hdoc) as (j & sd & Hsd & Hin).
  destruct (calculateBM25Score Math_log query doc documents
              (buildInvertedIndex documents) avg config) as [sc |] eqn:Esc;
    simpl in Hsd; [| discriminate].
  injection Hsd as <-.
  assert (Hsc : 0 < sc).
  { unfold calculateBM25Score in Esc.
    destruct (score_grows documents avg config Hk1 Hb Havg doc _ _ _ Esc) as [_ Hlt].
    apply (Hlt term); try assumption.
    intros idf' Hidf'. rewrite Hidf in Hidf'. now injection Hidf' as <-. }
  exists {| document := doc; score := sc |}.
  split; [now rewrite <- Hrank; unfold rankDocumentsWithBM25; rewrite Hp, Havg; simpl;
              rewrite E |].
  split; [| split; [reflexivity | exact Hsc]].
  injection Hrank as <-. unfold JS.sort. apply JSFacts.sortBy_In, filter_In.
  split; [exact Hin |]. now apply JSFacts.ltb_lt.
Qed.

(** *** Terms of many documents *)

Section CommonTerms.

(** What the cut needs of [Math.log]: it is not positive up to 1. *)
Hypothesis log_nonpos : forall x, x <= 1 -> Math_log x <= 0.

Lemma common_term_idf (term : string) (documents : list Document)
    (allTokens : gmap string (gset string)) (ids : gset string) :
  allTokens !! term = Some ids ->
  (length documents <= 2 * size ids)%nat ->
  exists idf, calculateIDF Math_log term documents allTokens = Some idf /\ idf <= 0.
Proof.
  intros Hids Hhalf. unfold calculateIDF. rewrite Hids.
  set (n := inject_Z (Z.of_nat (size ids))).
  assert (Hn : 0 <= n)
    by (unfold n; change 0 with (inject_Z 0); rewrite <- Zle_Qle; lia).
  assert (HN : JS.len documents <= 2 * n).
  { unfold JS.len, n. change 2 with (inject_Z 2). rewrite <- inject_Z_mult.
    rewrite <- Zle_Qle. lia. }
  destruct (Qeq_bool n 0); [exists 0; split; [reflexivity | lra] |].
  rewrite JSFacts.div_Some by (intros H; lra). simpl.
  eexists. split; [reflexivity |]. apply log_nonpos.
  apply Qle_shift_div_r; lra.
Qed.

(** X6. A query whose indexed tokens are each listed for at least half of the
    documents returns nothing: such a term has an IDF that is not positive
    and is skipped. *)
Theorem rank_common_terms (query : string) (documents : list Document)
    (config : BM25Config) :
  documents <> [] ->
  JS.allChars JS.isSpace query = false ->
  (forall term ids,
     In term (tokenize query) ->
     buildInvertedIndex documents !! term = Some ids ->
     (length documents <= 2 * size ids)%nat) ->
  rankDocumentsWithBM25 Math_log query documents config = Some [].
Proof.
  intros Hd Hq Hterms.
  unfold rankDocumentsWithBM25.
  rewrite (BM25Facts.passThrough_false query documents Hd Hq).
  destruct (BM25Facts.avgDocLength_Some documents) as [avg ->]. simpl.
  rewrite (JSFacts.mapM'_ext_Some _ (fun doc => {| document := doc; score := 0 |})).
  - simpl. f_equal.
    replace (List.filter _ _) with (@nil ScoredDocument); [reflexivity |].
    clear. induction documents as [| d ds IH]; [reflexivity | exact IH].
  - intros i doc _.
    replace (calculateBM25Score Math_log query doc documents
               (buildInvertedIndex documents) avg config) with (Some 0);
      [reflexivity |].
    symmetry. unfold calculateBM25Score. apply JSFacts.foldM'_fixed.
    intros term Hterm. unfold scoreTerm.
    destruct (isStopWord term); [reflexivity |].
    destruct (buildInvertedIndex documents !! term) as [ids |] eqn:E.
    + destruct (common_term_idf term documents _ ids E (Hterms term ids Hterm E))
        as (idf & -> & Hidf).
      simpl. apply Qle_bool_iff in Hidf. now rewrite Hidf.
    + unfold calculateIDF. rewrite E. reflexivity.
Qed.

End CommonTerms.

End WithRuntime.

End BM25More.

(** ** Searching articles *)

Module SearchMore.

Import Search.

Lemma find_by_id (articles : list Article) (a : Article) :
  In a articles ->
  exists found,
    List.find (fun a' => String.eqb (id a') (id a)) articles = Some found
    /\ In found articles /\ id found = id a
    /\ (NoDup (map id articles) -> found = a).
Proof.
  induction articles as [| a0 articles IH]; simpl; [tauto |].
  intros Hin. destruct (String.eqb_spec (id a0) (id a)) as [E | Hne].
  - exists a0. split; [reflexivity |]. split; [now left |]. split; [exact E |].
    intros Hnd%NoDup_cons. destruct Hin as [-> | Hin]; [reflexivity |].
    destruct Hnd as [Hnotin _]. exfalso. apply Hnotin. rewrite E.
    apply list_elem_of_In. now apply in_map.
  - destruct Hin as [-> | Hin]; [contradiction |].
    destruct (IH Hin) as (found & Hfind & Hfound & Hid & Huniq).
    exists found. split; [exact Hfind |]. split; [now right |]. split; [exact Hid |].
    intros Hnd%NoDup_cons. now apply Huniq.
Qed.

Section WithRuntime.

Variable Math_log : Q -> Q.

(** What the ranking returns are documents of the collection. *)
Lemma rank_documents (query : string) (documents : list BM25.Document)
    (config : BM25.BM25Config) (results : list BM25.ScoredDocument)
    (sd : BM25.ScoredDocument) :
  BM25.rankDocumentsWithBM25 Math_log query documents config = Some results ->
  In sd results -> In (BM25.document sd) documents.
Proof.
  intros Hrank Hin.
  destruct (BM25.passThrough query documents) eqn:Hp.
  - unfold BM25.rankDocumentsWithBM25 in Hrank. rewrite Hp in Hrank.
    injection Hrank as <-. apply in_map_iff in Hin as (doc & <- & Hdoc). exact Hdoc.
  - destruct (BM25Facts.rank_scoring_path Math_log query documents config results
                Hp Hrank) as [H _].
    now apply H.
Qed.

(** X7. [articles.find] never misses: every result of the search carries an
    article of the input, with a positive score unless the search passed
    the articles through; when the ids of the articles are distinct, the
    article is the one whose text was scored. *)
Theorem search_results (query : string) (articles : list Article)
    (results : list Result) (r : Result) :
  searchArticlesWithBM25 Math_log query articles = Some results ->
  In r results ->
  exists a,
    article r = Some a /\ In a articles
    /\ (BM25.passThrough query (map toDocument articles) = false -> 0 < score r)
    /\ (NoDup (map id articles) ->
        exists sd ranked,
          BM25.rankDocumentsWithBM25 Math_log query (map toDocument articles)
            {| BM25.k1 := None; BM25.b := None |} = Some ranked
          /\ In sd ranked /\ BM25.document sd = toDocument a
          /\ BM25.score sd = score r).
Proof.
  unfold searchArticlesWithBM25.
  destruct (BM25.rankDocumentsWithBM25 Math_log query (map toDocument articles) _)
    as [ranked |] eqn:Hrank; simpl; [| discriminate].
  intros [= <-] Hin. apply in_map_iff in Hin as (sd & <- & Hsd). simpl.
  pose proof (rank_documents _ _ _ _ sd Hrank Hsd) as Hdoc.
  apply in_map_iff in Hdoc as (a & Ha & Hin).
  destruct (find_by_id articles a Hin) as (found & Hfind & Hfound & Hid & Huniq).
  exists found. rewrite <- Ha. simpl. split; [exact Hfind |]. split; [exact Hfound |].
  split.
  - intros Hp.
    destruct (BM25Facts.rank_scoring_path Math_log query _ _ ranked Hp Hrank) as [H _].
    now apply H.
  - intros Hnd. exists sd, ranked. rewrite (Huniq Hnd). auto.
Qed.

(** X8. On a blank query the search returns every article, in the input's
    order, with score 0, when the ids of the articles are distinct. *)
Theorem search_blank (query : string) (articles : list Article) :
  JS.allChars JS.isSpace query = true ->
  NoDup (map id articles) ->
  searchArticlesWithBM25 Math_log query articles
  = Some (map (fun a => {| article := Some a; score := 0 |}) articles).
Proof.
  intros Hq Hnd. unfold searchArticlesWithBM25.
  unfold BM25.rankDocumentsWithBM25.
  rewrite (BM25Facts.passThrough_blank query (map toDocument articles) (or_introl Hq)).
  simpl. f_equal.
  rewrite !map_map. apply map_ext_in. intros a Ha. simpl.
  destruct (find_by_id articles a Ha) as (found & -> & _ & _ & Huniq).
  now rewrite (Huniq Hnd).
Qed.

End WithRuntime.

End SearchMore.

(** ** More on the recommendations *)

Module RecommendationsMore.

Import Recommendations RecommendationsNotions.

Lemma insertSorted_Permutation {A : Type} (before : A -> A -> bool) (x : A) (l : list A) :
  Permutation (JS.insertSorted before x l) (x :: l).
Proof.
  induction l as [| y l IH]; simpl; [reflexivity |].
  destruct (before x y); [reflexivity |].
  rewrite IH. apply perm_swap.
Qed.

(** Sorting neither drops nor repeats an element. *)
Lemma sortBy_Permutation {A : Type} (before : A -> A -> bool) (l : list A) :
  Permutation (JS.sortBy before l) l.
Proof.
  induction l as [| x l IH]; simpl; [reflexivity |].
  rewrite insertSorted_Permutation. now constructor.
Qed.

Lemma slice0_length {A : Type} (l : list A) (stop : Z) :
  (0 <= stop)%Z -> (length (JS.slice0 l stop) <= Z.to_nat stop)%nat.
Proof.
  intros H. unfold JS.slice0.
  destruct (stop <? 0)%Z eqn:E; [apply Z.ltb_lt in E; lia |].
  rewrite length_take. lia.
Qed.

Lemma Sorted_take {A : Type} (R : A -> A -> Prop) (n : nat) (l : list A) :
  Sorted R l -> Sorted R (take n l).
Proof.
  intros H. revert n. induction H as [| x l Hl IH Hd]; intros [| n]; simpl;
    try constructor.
  - apply IH.
  - destruct Hd as [| y l' Hxy]; destruct n; simpl; constructor. exact Hxy.
Qed.

Lemma slice0_sorted {A : Type} (R : A -> A -> Prop) (l : list A) (stop : Z) :
  Sorted R l -> Sorted R (JS.slice0 l stop).
Proof.
  intros H. unfold JS.slice0. destruct (stop <? 0)%Z; now apply Sorted_take.
Qed.

(** *** Shared tags *)

Section WithRuntime.

Variable Math_log : Q -> Q.

Lemma weight_lookup (a : Article) (allArticles : list Article) (tagId : string) :
  JS.ltb 0 (default 0 (weightsFrom Math_log a allArticles ∅ (tags a) !! tagId)) = true ->
  hasTag tagId a = true.
Proof.
  rewrite RecommendationsFacts.weightsFrom_lookup. unfold hasTag.
  destruct (existsb _ (tags a)); [reflexivity |].
  rewrite lookup_empty. simpl. intros H. apply JSFacts.ltb_lt in H. lra.
Qed.

Lemma tagNameOf_own (tagId : string) (a : Article) :
  hasTag tagId a = true -> exists n, tagNameOf tagId a = Some n.
Proof.
  unfold hasTag, tagNameOf. intros H.
  apply existsb_exists in H as (t & Ht & Heq).
  destruct (List.find _ (tags a)) as [t' |] eqn:E; simpl; [eauto |].
  apply find_none with (x := t) in E; [congruence | exact Ht].
Qed.

Lemma jaccardStep_shared (articleA articleB : Article) (allArticles : list Article)
    (st : Q * Q * list string) (tagId : string) :
  Forall (sharedName articleA articleB) (snd st) ->
  Forall (sharedName articleA articleB)
    (snd (jaccardStep articleA articleB
            (weightsFrom Math_log articleA allArticles ∅ (tags articleA))
            (weightsFrom Math_log articleB allArticles ∅ (tags articleB))
            st tagId)).
Proof.
  destruct st as [[minSum maxSum] shared]. simpl. intros Hall.
  destruct (JS.ltb 0 _) eqn:EA; simpl; [| exact Hall].
  destruct (JS.ltb 0 (default 0 (weightsFrom Math_log articleB _ _ _ !! tagId))) eqn:EB;
    simpl; [| exact Hall].
  apply weight_lookup in EA, EB.
  destruct (tagNameOf_own tagId articleA EA) as [n Hn]. rewrite Hn.
  destruct (JS.truthy n) eqn:Et; [| exact Hall].
  apply Forall_app. split; [exact Hall |].
  constructor; [| constructor].
  exists tagId. repeat split; try assumption.
  intros ->. discriminate.
Qed.

Lemma jaccard_shared_names (articleA articleB : Article) (allArticles : list Article)
    (similarity : Q) (shared : list string) :
  calculateWeightedJaccard Math_log articleA articleB allArticles
  = Some (similarity, shared) ->
  Forall (sharedName articleA articleB) shared.
Proof.
  intros Heq. unfold calculateWeightedJaccard in Heq.
  rewrite !RecommendationsFacts.tagWeights_eq in Heq. simpl in Heq.
  match type of Heq with
  | context [foldl ?f ?init ?ids] =>
      assert (H : Forall (sharedName articleA articleB) (snd (foldl f init ids)));
      [| destruct (foldl f init ids) as [[minSum maxSum] shared0] ]
  end.
  - match goal with
    | |- context [foldl _ _ ?ids] => generalize ids
    end.
    intros ids.
    cut (forall st, Forall (sharedName articleA articleB) (snd st) ->
                    Forall (sharedName articleA articleB)
                      (snd (foldl (jaccardStep articleA articleB
                                     (weightsFrom Math_log articleA allArticles ∅
                                        (tags articleA))
                                     (weightsFrom Math_log articleB allArticles ∅
                                        (tags articleB))) st ids))).
    { intros Hcut. apply Hcut. constructor. }
    induction ids as [| i ids IH]; intros st Hst; simpl; [exact Hst |].
    apply IH. now apply jaccardStep_shared.
  - simpl in H. destruct (if JS.ltb 0 maxSum then _ else _); simpl in Heq;
      [| discriminate].
    now injection Heq as _ <-.
Qed.

(** X9. The names [calculateWeightedJaccard] returns as shared are names of
    tags that both articles carry; two articles without a tag id in common
    share nothing. *)
Theorem jaccard_shared_tags (articleA articleB : Article) (allArticles : list Article) :
  exists similarity shared,
    calculateWeightedJaccard Math_log articleA articleB allArticles
    = Some (similarity, shared)
    /\ Forall (sharedName articleA articleB) shared
    /\ ((forall tagId, hasTag tagId articleA = true -> hasTag tagId articleB = false) ->
        shared = []).
Proof.
  destruct (RecommendationsFacts.jaccard_no_division_by_zero Math_log articleA articleB
              allArticles) as [[similarity shared] Heq].
  exists similarity, shared. split; [exact Heq |].
  pose proof (jaccard_shared_names _ _ _ _ _ Heq) as Hall.
  split; [exact Hall |].
  intros Hdisjoint. destruct shared as [| n shared]; [reflexivity |].
  apply Forall_cons in Hall as [(tagId & HA & HB & _) _].
  rewrite (Hdisjoint tagId HA) in HB. discriminate.
Qed.

(** *** What is recommended *)

Lemma scoreCandidates_linked (clock : nat -> Z) (currentArticle : Article)
    (candidateArticles candidates : list Article) :
  forall i h recs h',
  scoreCandidates Math_log clock currentArticle candidateArticles i h candidates
  = Some (recs, h') ->
  (exists ext, h' = h ++ ext)
  /\ Forall (fun rec => linked Math_log clock currentArticle candidateArticles h' rec
                        /\ In (article rec) candidates) recs.
Proof.
  induction candidates as [| a rest IH]; intros i h recs h'; simpl.
  - intros [= <- <-]. split; [exists []; now rewrite app_nil_r | constructor].
  - destruct (calculateWeightedJaccard Math_log currentArticle a candidateArticles)
      as [[similarity shared] |] eqn:EJ; simpl; [| discriminate].
    destruct (scoreCandidates Math_log clock currentArticle candidateArticles (S i)
                (h ++ [shared]) rest) as [[recs0 h0] |] eqn:ES; simpl; [| discriminate].
    intros [= <- <-].
    destruct (IH _ _ _ _ ES) as [[ext Hext] Hall].
    split; [exists ([shared] ++ ext); now rewrite app_assoc |].
    constructor.
    + split; [| now left].
      exists similarity, shared, shared, i. simpl.
      split; [exact EJ |]. split; [| split; reflexivity].
      rewrite Hext, <- app_assoc. now apply list_lookup_middle.
    + eapply Forall_impl; [exact Hall |].
      intros rec [Hl Hin]. split; [exact Hl | now right].
Qed.

End WithRuntime.

Lemma sort_in_place_linked (Math_log : Q -> Q) (clock : nat -> Z)
    (currentArticle : Article) (candidateArticles : list Article) (h : store)
    (address : nat) (rec : RecommendedArticle) :
  linked Math_log clock currentArticle candidateArticles h rec ->
  linked Math_log clock currentArticle candidateArticles
    (<[address := JS.sortStrings (default [] (h !! address))]> h) rec.
Proof.
  intros (similarity & shared & array & i & HJ & Hlookup & Hperm & Hscore).
  destruct (decide (address = sharedTags rec)) as [-> | Hne].
  - exists similarity, shared, (JS.sortStrings array), i.
    split; [exact HJ |]. split; [| split; [| exact Hscore]].
    + rewrite Hlookup. simpl. apply list_lookup_insert_eq.
      now apply lookup_lt_Some in Hlookup.
    + rewrite Hperm. symmetry. apply sortBy_Permutation.
  - exists similarity, shared, array, i.
    split; [exact HJ |]. split; [| split; assumption].
    now rewrite list_lookup_insert_ne.
Qed.

(** The diversity loop: it keeps the links, accepts records of the sorted
    list only, and stops at the limit. *)
Lemma diversityPass_spec (Math_log : Q -> Q) (clock : nat -> Z)
    (currentArticle : Article) (candidateArticles : list Article) (limit : Z)
    (sorted : list RecommendedArticle) :
  forall diverseResults usedTagCombinations h results h',
  diversityPass limit sorted diverseResults usedTagCombinations h = (results, h') ->
  (forall rec, linked Math_log clock currentArticle candidateArticles h rec ->
               linked Math_log clock currentArticle candidateArticles h' rec)
  /\ (forall rec, In rec results -> In rec diverseResults \/ In rec sorted)
  /\ ((Z.of_nat (length diverseResults) <= Z.max 0 limit)%Z ->
      (Z.of_nat (length results) <= Z.max 0 limit)%Z).
Proof.
  induction sorted as [| rec rest IH]; intros diverse used h results h'; simpl.
  - intros [= <- <-]. auto.
  - destruct (Qle_bool (inject_Z limit) (JS.len diverse)) eqn:Estop.
    { intros [= <- <-]. auto. }
    apply JSFacts.Qle_bool_false in Estop. unfold JS.len in Estop.
    rewrite <- Zlt_Qlt in Estop.
    set (array := JS.sortStrings (default [] (h !! sharedTags rec))).
    destruct (negb _ || _); intros Hpass;
      destruct (IH _ _ _ _ _ Hpass) as (Hlink & Hin & Hlen);
      (split; [| split]).
    + intros r Hr. apply Hlink. now apply sort_in_place_linked.
    + intros r Hr. destruct (Hin r Hr) as [Hd | Hs]; [| auto].
      apply in_app_iff in Hd as [Hd | [<- | []]]; auto.
    + intros _. apply Hlen. rewrite length_app. simpl. lia.
    + intros r Hr. apply Hlink. now apply sort_in_place_linked.
    + intros r Hr. destruct (Hin r Hr); auto.
    + exact Hlen.
Qed.

Lemma permutation_nonempty {A : Type} (l l' : list A) :
  Permutation l l' -> l' <> [] -> l <> [].
Proof.
  intros Hperm Hne ->. apply Permutation_nil in Hperm. contradiction.
Qed.

(** Everything [getContentBasedRecommendations] promises about a returned
    record, and the bound on their number. *)
Lemma recommendations_spec (Math_log : Q -> Q) (clock : nat -> Z)
    (currentArticle : Article) (candidateArticles : list Article)
    (excludeArticleIds : option (list string)) (limit : option Z) :
  exists results h,
    getContentBasedRecommendations Math_log clock currentArticle candidateArticles
      excludeArticleIds limit = Some (results, h)
    /\ (length results <= Z.to_nat (default 10%Z limit))%nat
    /\ forall rec, In rec results ->
         In (article rec) candidateArticles
         /\ id (article rec) <> id currentArticle
         /\ ~ In (id (article rec)) (default [] excludeArticleIds)
         /\ 0 < similarityScore rec
         /\ sharedTagsOf h rec <> []
         /\ linked Math_log clock currentArticle candidateArticles h rec.
Proof.
  unfold getContentBasedRecommendations.
  generalize (default 10%Z limit) as lim.
  generalize (default [] excludeArticleIds) as excluded.
  intros excluded lim.
  set (candidates := List.filter _ candidateArticles).
  destruct (RecommendationsFacts.scoreCandidates_Some Math_log clock currentArticle
              candidateArticles candidates 0%nat []) as [[recs h] Hscore].
  rewrite Hscore. simpl.
  destruct (scoreCandidates_linked Math_log clock currentArticle candidateArticles
              candidates _ _ _ _ Hscore) as [_ Hrecs].
  destruct (diversityPass _ _ _ _ _) as [results h'] eqn:Hpass.
  destruct (diversityPass_spec Math_log clock currentArticle candidateArticles
              _ _ _ _ _ _ _ Hpass) as (Hlink & Hin & Hlen).
  exists (JS.slice0 results lim), h'. split; [reflexivity |].
  split.
  - specialize (Hlen ltac:(simpl; lia)).
    destruct (Z.ltb_spec lim 0) as [Hneg | Hpos].
    + assert (results = []) as ->.
      { destruct results as [| r results]; [reflexivity | exfalso].
        change (length (r :: results)) with (S (length results)) in Hlen. lia. }
      unfold JS.slice0. destruct (_ <? 0)%Z; rewrite take_nil; simpl; lia.
    + now apply slice0_length.
  - intros rec Hrec%JSFacts.slice0_In.
    destruct (Hin rec Hrec) as [[] | Hsorted].
    unfold JS.sort in Hsorted. apply JSFacts.sortBy_In, filter_In in Hsorted
      as [Hrecs_in Hvalid].
    apply andb_true_iff in Hvalid as [Hpos Hshared].
    rewrite Forall_forall in Hrecs.
    destruct (Hrecs rec (proj2 (list_elem_of_In _ _) Hrecs_in)) as [Hl Hcand].
    unfold candidates in Hcand. apply filter_In in Hcand as [Hcand Hkeep].
    apply andb_true_iff in Hkeep as [Hid Hexcl].
    split; [exact Hcand |]. split.
    { intros E. rewrite E, String.eqb_refl in Hid. discriminate. }
    split.
    { intros Hex. apply negb_true_iff in Hexcl.
      assert (existsb (String.eqb (id (article rec))) excluded = true);
        [| congruence].
      apply existsb_exists. exists (id (article rec)).
      split; [exact Hex | apply String.eqb_refl]. }
    split; [now apply JSFacts.ltb_lt |].
    pose proof (Hlink rec Hl) as Hl'. split; [| exact Hl'].
    destruct Hl as (s0 & shared0 & array0 & i0 & HJ0 & Hlook0 & Hperm0 & _).
    destruct Hl' as (s1 & shared1 & array1 & i1 & HJ1 & Hlook1 & Hperm1 & _).
    rewrite HJ0 in HJ1. injection HJ1 as <- <-.
    unfold sharedTagsOf. rewrite Hlook1. simpl.
    rewrite Hlook0 in Hshared. simpl in Hshared.
    apply JSFacts.ltb_lt in Hshared.
    assert (Harr0 : array0 <> []).
    { intros ->. vm_compute in Hshared. discriminate. }
    intros ->. apply Permutation_nil_r in Hperm1. subst shared0.
    apply Permutation_nil in Hperm0. contradiction.
Qed.

(** X10. [getContentBasedRecommendations] returns at most [limit] records (none
    for a limit that is not positive); each is a candidate with a positive
    score, other than the current article and than the excluded ids. *)
Theorem recommendations_results (Math_log : Q -> Q) (clock : nat -> Z)
    (currentArticle : Article) (candidateArticles : list Article)
    (excludeArticleIds : option (list string)) (limit : option Z) :
  exists results h,
    getContentBasedRecommendations Math_log clock currentArticle candidateArticles
      excludeArticleIds limit = Some (results, h)
    /\ (length results <= Z.to_nat (default 10%Z limit))%nat
    /\ forall rec, In rec results ->
         In (article rec) candidateArticles
         /\ id (article rec) <> id currentArticle
         /\ ~ In (id (article rec)) (default [] excludeArticleIds)
         /\ 0 < similarityScore rec.
Proof.
  destruct (recommendations_spec Math_log clock currentArticle candidateArticles
              excludeArticleIds limit) as (results & h & Heq & Hlen & Hall).
  exists results, h. split; [exact Heq |]. split; [exact Hlen |].
  intros rec Hrec. destruct (Hall rec Hrec) as (H1 & H2 & H3 & H4 & _). auto.
Qed.

(** X11. A returned record shares a tag id with the current article; its score is
    the decayed Jaccard similarity of the pair, and its [sharedTags] are the
    shared names of the pair, not empty, in sorted order. *)
Theorem recommendations_shared (Math_log : Q -> Q) (clock : nat -> Z)
    (currentArticle : Article) (candidateArticles : list Article)
    (excludeArticleIds : option (list string)) (limit : option Z) :
  exists results h,
    getContentBasedRecommendations Math_log clock currentArticle candidateArticles
      excludeArticleIds limit = Some (results, h)
    /\ forall rec, In rec results ->
         (exists tagId, hasTag tagId currentArticle = true
                        /\ hasTag tagId (article rec) = true)
         /\ exists similarity shared i,
              calculateWeightedJaccard Math_log currentArticle (article rec)
                candidateArticles = Some (similarity, shared)
              /\ similarityScore rec
                 = applyRecencyDecay (clock i) similarity (createdAt (article rec))
              /\ shared <> []
              /\ Permutation shared (sharedTagsOf h rec).
Proof.
  destruct (recommendations_spec Math_log clock currentArticle candidateArticles
              excludeArticleIds limit) as (results & h & Heq & _ & Hall).
  exists results, h. split; [exact Heq |].
  intros rec Hrec.
  destruct (Hall rec Hrec) as (_ & _ & _ & _ & Hne & Hl).
  destruct Hl as (similarity & shared & array & i & HJ & Hlook & Hperm & Hscore).
  assert (Harr : sharedTagsOf h rec = array)
    by (unfold sharedTagsOf; now rewrite Hlook).
  rewrite Harr in *.
  assert (Hshared : shared <> []) by (eapply permutation_nonempty; eauto).
  split.
  - pose proof (jaccard_shared_names Math_log currentArticle (article rec)
                  candidateArticles similarity shared HJ) as Hnames.
    destruct shared as [| n shared]; [contradiction |].
    apply Forall_cons in Hnames as [(tagId & HA & HB & _) _]. eauto.
  - exists similarity, shared, i. auto.
Qed.

(** *** The similarity as a number *)

Section Similarity.

Variable Math_log : Q -> Q.

(** The two sums of the loop of [calculateWeightedJaccard]. *)
Lemma jaccard_sums (articleA articleB : Article) (allArticles : list Article)
    (ids : list string) :
  forall minSum maxSum shared,
  let st := foldl (jaccardStep articleA articleB
                     (weightsFrom Math_log articleA allArticles ∅ (tags articleA))
                     (weightsFrom Math_log articleB allArticles ∅ (tags articleB)))
              (minSum, maxSum, shared) ids in
  fst (fst st)
  = foldl (fun acc tagId => acc + Qmin (weightIn Math_log articleA allArticles tagId)
                                    (weightIn Math_log articleB allArticles tagId)) minSum ids
  /\ snd (fst st)
     = foldl (fun acc tagId => acc + Qmax (weightIn Math_log articleA allArticles tagId)
                                       (weightIn Math_log articleB allArticles tagId)) maxSum ids.
Proof.
  induction ids as [| i ids IH]; intros minSum maxSum shared; simpl; [auto |].
  apply IH.
Qed.

Lemma jaccard_value (articleA articleB : Article) (allArticles : list Article)
    (similarity : Q) (shared : list string) :
  calculateWeightedJaccard Math_log articleA articleB allArticles
  = Some (similarity, shared) ->
  let ids := foldl JS.setAdd (foldl JS.setAdd [] (map Tag.id (tags articleA)))
               (map Tag.id (tags articleB)) in
  let minSum := foldl (fun acc tagId => acc + Qmin (weightIn Math_log articleA allArticles tagId)
                                              (weightIn Math_log articleB allArticles tagId)) 0 ids in
  let maxSum := foldl (fun acc tagId => acc + Qmax (weightIn Math_log articleA allArticles tagId)
                                              (weightIn Math_log articleB allArticles tagId)) 0 ids in
  similarity = if JS.ltb 0 maxSum then minSum / maxSum else 0.
Proof.
  intros Heq ids minSum maxSum. unfold calculateWeightedJaccard in Heq.
  rewrite !RecommendationsFacts.tagWeights_eq in Heq. simpl in Heq.
  fold ids in Heq.
  destruct (jaccard_sums articleA articleB allArticles ids 0 0 []) as [Hmin Hmax].
  fold minSum in Hmin. fold maxSum in Hmax.
  destruct (foldl _ (0, 0, []) ids) as [[m M] sh]. simpl in Hmin, Hmax. subst m M.
  destruct (JS.ltb 0 maxSum) eqn:E.
  - apply JSFacts.ltb_lt in E.
    rewrite JSFacts.div_Some in Heq by (intros H; rewrite H in E; lra).
    simpl in Heq. now injection Heq as <- _.
  - simpl in Heq. now injection Heq as <- _.
Qed.

(** **** Symmetry *)







(** **** Range *)

Section Range.

Hypothesis log_nonneg : forall x, 1 <= x -> 0 <= Math_log x.

Lemma weightIn_nonneg (a : Article) (allArticles : list Article) (tagId : string) :
  (0 <= likesCount a)%Z -> (0 <= commentsCount a)%Z -> (0 <= readCount a)%Z ->
  0 <= weightIn Math_log a allArticles tagId.
Proof.
  intros Hl Hc Hr. unfold weightIn. rewrite RecommendationsFacts.weightsFrom_lookup.
  destruct (existsb _ (tags a)); [| rewrite lookup_empty; simpl; lra].
  simpl. unfold weightOf.
  set (n := JS.len (List.filter (hasTag tagId) allArticles)).
  assert (Hn : 0 <= n) by apply JSFacts.len_nonneg.
  assert (Hle : n <= JS.len allArticles).
  { unfold n, JS.len. rewrite <- Zle_Qle.
    pose proof (filter_length_le (hasTag tagId) allArticles). lia. }
  assert (Hidf : 0 <= Math_log ((JS.len allArticles + 1) / (n + 1))).
  { apply log_nonneg. apply Qle_shift_div_l; lra. }
  assert (Hboost : 0 <= Math_log (1 + (inject_Z (likesCount a) * (3 # 10)
                                        + inject_Z (commentsCount a) * (5 # 10)
                                        + inject_Z (readCount a) * (2 # 10)))).
  { apply log_nonneg.
    assert (0 <= inject_Z (likesCount a))
      by (change 0 with (inject_Z 0); now rewrite <- Zle_Qle).
    assert (0 <= inject_Z (commentsCount a))
      by (change 0 with (inject_Z 0); now rewrite <- Zle_Qle).
    assert (0 <= inject_Z (readCount a))
      by (change 0 with (inject_Z 0); now rewrite <- Zle_Qle).
    lra. }
  apply Qmult_le_0_compat; [| lra].
  apply Qmult_le_0_compat; [| exact Hidf].
  destruct (hasTag tagId a); lra.
Qed.

Lemma sums_ordered (f g : string -> Q) (l : list string) (a a' : Q) :
  (forall x, 0 <= f x <= g x) -> 0 <= a <= a' ->
  0 <= foldl (fun acc x => acc + f x) a l
  <= foldl (fun acc x => acc + g x) a' l.
Proof.
  intros Hfg. revert a a'. induction l as [| x l IH]; intros a a' Ha; simpl.
  - exact Ha.
  - apply IH. specialize (Hfg x). lra.
Qed.

(** X13. With counters that are not negative, the similarity of two articles is
    a number from 0 to 1. *)
Theorem jaccard_range (articleA articleB : Article) (allArticles : list Article) :
  (0 <= likesCount articleA)%Z -> (0 <= commentsCount articleA)%Z ->
  (0 <= readCount articleA)%Z ->
  (0 <= likesCount articleB)%Z -> (0 <= commentsCount articleB)%Z ->
  (0 <= readCount articleB)%Z ->
  exists similarity shared,
    calculateWeightedJaccard Math_log articleA articleB allArticles
    = Some (similarity, shared)
    /\ 0 <= similarity <= 1.
Proof.
  intros HlA HcA HrA HlB HcB HrB.
  destruct (RecommendationsFacts.jaccard_no_division_by_zero Math_log articleA articleB
              allArticles) as [[similarity shared] Heq].
  exists similarity, shared. split; [exact Heq |].
  rewrite (jaccard_value _ _ _ _ _ Heq).
  match goal with
  | |- context [foldl ?fmin 0 ?ids] =>
      match goal with
      | |- context [JS.ltb 0 (foldl ?fmax 0 ids)] =>
          pose proof (sums_ordered
                        (fun tagId => Qmin (weightIn Math_log articleA allArticles tagId)
                                        (weightIn Math_log articleB allArticles tagId))
                        (fun tagId => Qmax (weightIn Math_log articleA allArticles tagId)
                                        (weightIn Math_log articleB allArticles tagId))
                        ids 0 0) as Hsums
      end
  end.
  destruct Hsums as [Hmin Hle].
  { intros x.
    pose proof (weightIn_nonneg articleA allArticles x HlA HcA HrA).
    pose proof (weightIn_nonneg articleB allArticles x HlB HcB HrB).
    split; [now apply Q.min_glb |].
    apply Qle_trans with (weightIn Math_log articleA allArticles x);
      [apply Q.le_min_l | apply Q.le_max_l]. }
  { lra. }
  destruct (JS.ltb 0 _) eqn:E; [| lra].
  apply JSFacts.ltb_lt in E. split.
  - apply Qle_shift_div_l; [exact E | lra].
  - apply Qle_shift_div_r; [exact E | lra].
Qed.

End Range.

End Similarity.

(** *** The decay at its edges *)

(** X14. The age is not clamped at 0: an article dated at the clock reading keeps
    its similarity, and one dated after it gets more than its similarity. *)
Theorem recency_decay_future (now : Z) (similarity : Q) (articleDate : Z) :
  0 < similarity ->
  (now <= articleDate)%Z ->
  similarity <= applyRecencyDecay now similarity articleDate
  /\ (articleDate = now -> applyRecencyDecay now similarity articleDate == similarity)
  /\ ((now < articleDate)%Z -> similarity < applyRecencyDecay now similarity articleDate).
Proof.
  intros Hs Hle. unfold applyRecencyDecay.
  set (d := inject_Z (now - articleDate) / (1000 * 60 * 60 * 24)).
  assert (Hd : d <= 0).
  { unfold d. apply Qle_shift_div_r; [reflexivity |].
    rewrite Qmult_0_l. change 0 with (inject_Z 0). rewrite <- Zle_Qle. lia. }
  assert (Hmin : Qmin 1 (d / 365) == d / 365).
  { apply Q.min_r. apply Qle_shift_div_r; [reflexivity | lra]. }
  assert (Hd365 : d / 365 <= 0) by (apply Qle_shift_div_r; [reflexivity | lra]).
  rewrite Hmin.
  assert (Hprod : 0 <= similarity * - (d / 365))
    by (apply Qmult_le_0_compat; lra).
  split; [lra |]. split.
  - intros ->. unfold d. rewrite Z.sub_diag.
    unfold Qdiv. change (inject_Z 0) with 0. ring.
  - intros Hlt.
    assert (Hneg : d < 0).
    { unfold d. apply Qlt_shift_div_r; [reflexivity |].
      rewrite Qmult_0_l. change 0 with (inject_Z 0). rewrite <- Zlt_Qlt. lia. }
    assert (d / 365 < 0) by (apply Qlt_shift_div_r; [reflexivity | lra]).
    assert (0 < similarity * - (d / 365)) by (apply Qmult_lt_0_compat; lra).
    lra.
Qed.

(** *** The order of the records and the diversity pass *)

Lemma StronglySorted_sublist {A : Type} (R : A -> A -> Prop) (k l : list A) :
  k `sublist_of` l -> StronglySorted R l -> StronglySorted R k.
Proof.
  induction 1 as [| x k l Hsub IH | x k l Hsub IH]; intros Hl.
  - constructor.
  - apply StronglySorted_inv in Hl as [Hl Hx]. constructor; [now apply IH |].
    rewrite List.Forall_forall in *. intros y Hy. apply Hx.
    apply list_elem_of_In. eapply elem_of_sublist; [| exact Hsub].
    now apply list_elem_of_In.
  - apply StronglySorted_inv in Hl as [Hl _]. now apply IH.
Qed.

(** Sorting a sorted array leaves it as it is. *)
Lemma sortStrings_sorted_id (l : list string) :
  Sorted (fun x y => String.leb x y = true) l -> JS.sortStrings l = l.
Proof.
  unfold JS.sortStrings, JS.sortBy. induction 1 as [| x l Hl IH Hd]; simpl.
  - reflexivity.
  - rewrite IH. destruct Hd as [| y l' Hxy]; simpl; [reflexivity |].
    now rewrite Hxy.
Qed.

(** Sorting an array in place leaves the sorted arrays as they are. *)
Lemma sort_in_place_stable (h : store) (address : nat) (rec : RecommendedArticle) :
  sortedTags h rec ->
  sharedTagsOf (<[address := JS.sortStrings (default [] (h !! address))]> h) rec
  = sharedTagsOf h rec.
Proof.
  unfold sortedTags, sharedTagsOf. intros Hsorted.
  destruct (decide (address = sharedTags rec)) as [-> | Hne].
  - destruct (decide (sharedTags rec < length h)%nat) as [Hlt | Hge].
    + rewrite list_lookup_insert_eq by exact Hlt. simpl.
      now apply sortStrings_sorted_id.
    + now rewrite list_insert_ge by lia.
  - now rewrite list_lookup_insert_ne.
Qed.

Lemma sort_in_place_self (h : store) (rec : RecommendedArticle) :
  let array := JS.sortStrings (default [] (h !! sharedTags rec)) in
  sharedTagsOf (<[sharedTags rec := array]> h) rec = array.
Proof.
  unfold sharedTagsOf. simpl.
  destruct (decide (sharedTags rec < length h)%nat) as [Hlt | Hge].
  - now rewrite list_lookup_insert_eq.
  - rewrite list_insert_ge by lia. now rewrite lookup_ge_None_2 by lia.
Qed.

(** The diversity loop appends, in their order, records of the sorted list;
    it leaves the arrays of the accepted records as they are; and a record
    it accepts once half the limit is reached has a key that no record in
    front of it has. *)
Lemma diversityPass_diverse (limit : Z) (sorted : list RecommendedArticle) :
  forall diverseResults usedTagCombinations h results h',
  diversityPass limit sorted diverseResults usedTagCombinations h = (results, h') ->
  (forall r, In r diverseResults ->
     sortedTags h r /\ tagKeyOf h r ∈ usedTagCombinations) ->
  (exists accepted, results = diverseResults ++ accepted
                    /\ accepted `sublist_of` sorted)
  /\ (forall r, In r diverseResults -> sharedTagsOf h' r = sharedTagsOf h r)
  /\ forall pre rec post,
       results = pre ++ rec :: post ->
       (length diverseResults <= length pre)%nat ->
       inject_Z limit / 2 <= JS.len pre ->
       forall r, In r pre -> tagKeyOf h' r <> tagKeyOf h' rec.
Proof.
  induction sorted as [| rec rest IH]; intros diverse used h results h'; simpl.
  - intros [= <- <-] _. split; [exists []; now rewrite app_nil_r |].
    split; [reflexivity |].
    intros pre rec post -> Hlen. rewrite length_app in Hlen. simpl in Hlen. lia.
  - destruct (Qle_bool (inject_Z limit) (JS.len diverse)) eqn:Estop.
    { intros [= <- <-] _. split.
      - exists []. rewrite app_nil_r. split; [reflexivity | apply sublist_nil_l].
      - split; [reflexivity |].
        intros pre r post -> Hlen. rewrite length_app in Hlen. simpl in Hlen. lia. }
    pose proof (sort_in_place_self h rec) as Hself. cbv zeta in Hself.
    set (array := JS.sortStrings (default [] (h !! sharedTags rec))) in *.
    set (h1 := <[sharedTags rec := array]> h) in *.
    assert (Harray : Sorted (fun x y => String.leb x y = true) array)
      by apply JSFacts.sortStrings_sorted.
    destruct (negb (bool_decide (JS.join "," array ∈ used))
              || JS.ltb (JS.len diverse) (inject_Z limit / 2)) eqn:Eaccept;
      intros Hpass Hinv.
    + destruct (IH _ _ _ _ _ Hpass) as ((accepted & -> & Hsub) & Hstable & Hkeys).
      { intros r [Hr | [<- | []]]%in_app_iff.
        - destruct (Hinv r Hr) as [Hsorted Hused]. split.
          + now apply RecommendationsFacts.store_update_other.
          + unfold tagKeyOf, h1, array. rewrite sort_in_place_stable by exact Hsorted.
            apply elem_of_union. now right.
        - split; [now apply RecommendationsFacts.store_update_self |].
          unfold tagKeyOf. rewrite Hself.
          apply elem_of_union. left. now apply elem_of_singleton. }
      split; [| split].
      * exists (rec :: accepted). rewrite <- app_assoc. split; [reflexivity |].
        now constructor.
      * intros r Hr. rewrite Hstable by (apply in_app_iff; now left).
        apply sort_in_place_stable. now apply Hinv.
      * intros pre rec' post Heq Hlen Hhalf r Hr.
        destruct (decide (length pre = length diverse)) as [Hsame | Hmore].
        -- rewrite <- app_assoc in Heq. simpl in Heq.
           apply app_inj_1 in Heq as [<- [= <- <-]]; [| now symmetry].
           assert (Hfresh : JS.join "," array ∉ used).
           { apply orb_true_iff in Eaccept as [Hnew | Hfew].
             - apply negb_true_iff, bool_decide_eq_false in Hnew. exact Hnew.
             - apply JSFacts.ltb_lt in Hfew. lra. }
           destruct (Hinv r Hr) as [Hsorted Hused].
           unfold tagKeyOf.
           rewrite (Hstable r) by (apply in_app_iff; now left).
           rewrite (Hstable rec) by (apply in_app_iff; right; now left).
           rewrite Hself. unfold h1, array at 1.
           rewrite sort_in_place_stable by exact Hsorted.
           intros E. apply Hfresh. rewrite <- E. exact Hused.
        -- apply (Hkeys pre rec' post Heq); [| exact Hhalf | exact Hr].
           rewrite length_app. simpl. lia.
    + destruct (IH _ _ _ _ _ Hpass) as ((accepted & -> & Hsub) & Hstable & Hkeys).
      { intros r Hr. destruct (Hinv r Hr) as [Hsorted Hused]. split.
        - now apply RecommendationsFacts.store_update_other.
        - unfold tagKeyOf, h1, array. now rewrite sort_in_place_stable. }
      split; [| split].
      * exists accepted. split; [reflexivity | now constructor].
      * intros r Hr. rewrite Hstable by exact Hr.
        apply sort_in_place_stable. now apply Hinv.
      * exact Hkeys.
Qed.

(** What [getContentBasedRecommendations] returns: a cut of what the
    diversity pass accepted. *)
Lemma recommendations_pass (Math_log : Q -> Q) (clock : nat -> Z)
    (currentArticle : Article) (candidateArticles : list Article)
    (excludeArticleIds : option (list string)) (limit : option Z) :
  exists recommendations h0 accepted h,
    getContentBasedRecommendations Math_log clock currentArticle candidateArticles
      excludeArticleIds limit
    = Some (JS.slice0 accepted (default 10%Z limit), h)
    /\ diversityPass (default 10%Z limit)
         (JS.sort (fun x y => similarityScore y - similarityScore x) recommendations)
         [] ∅ h0 = (accepted, h).
Proof.
  unfold getContentBasedRecommendations.
  set (candidates := List.filter _ candidateArticles).
  destruct (RecommendationsFacts.scoreCandidates_Some Math_log clock currentArticle
              candidateArticles candidates 0%nat []) as [[recs h0] ->].
  simpl.
  destruct (diversityPass _ _ _ _ _) as [accepted h] eqn:Hpass.
  eexists _, h0, accepted, h. split; [reflexivity | exact Hpass].
Qed.

(** X15. The records come in descending order of score. *)
Theorem recommendations_sorted (Math_log : Q -> Q) (clock : nat -> Z)
    (currentArticle : Article) (candidateArticles : list Article)
    (excludeArticleIds : option (list string)) (limit : option Z) :
  exists results h,
    getContentBasedRecommendations Math_log clock currentArticle candidateArticles
      excludeArticleIds limit = Some (results, h)
    /\ Sorted (fun x y => similarityScore y <= similarityScore x) results.
Proof.
  destruct (recommendations_pass Math_log clock currentArticle candidateArticles
              excludeArticleIds limit) as (recs & h0 & accepted & h & Heq & Hpass).
  eexists _, h. split; [exact Heq |].
  apply diversityPass_diverse in Hpass as ((accepted' & -> & Hsub) & _);
    [| intros r []].
  apply slice0_sorted. simpl.
  apply StronglySorted_Sorted.
  eapply StronglySorted_sublist; [exact Hsub |].
  apply Sorted_StronglySorted; [| apply JSFacts.sort_descending].
  intros x y z Hxy Hyz. lra.
Qed.

(** X16. The diversity pass: from the position [limit / 2] on, a record's shared
    tags differ from those of every record in front of it. *)
Theorem recommendations_diverse (Math_log : Q -> Q) (clock : nat -> Z)
    (currentArticle : Article) (candidateArticles : list Article)
    (excludeArticleIds : option (list string)) (limit : option Z) :
  exists results h,
    getContentBasedRecommendations Math_log clock currentArticle candidateArticles
      excludeArticleIds limit = Some (results, h)
    /\ forall p q rec earlier,
         results !! p = Some rec ->
         results !! q = Some earlier ->
         (q < p)%nat ->
         inject_Z (default 10%Z limit) / 2 <= inject_Z (Z.of_nat p) ->
         sharedTagsOf h earlier <> sharedTagsOf h rec.
Proof.
  destruct (recommendations_pass Math_log clock currentArticle candidateArticles
              excludeArticleIds limit) as (recs & h0 & accepted & h & Heq & Hpass).
  eexists _, h. split; [exact Heq |].
  apply diversityPass_diverse in Hpass as (_ & _ & Hkeys); [| intros r []].
  intros p q rec earlier Hp Hq Hlt Hhalf Hsame.
  assert (Hcut : exists n, JS.slice0 accepted (default 10%Z limit) = take n accepted)
    by (unfold JS.slice0; destruct (_ <? 0)%Z; eauto).
  destruct Hcut as [n Hcut]. rewrite Hcut in Hp, Hq.
  apply lookup_take_Some in Hp as [Hp _]. apply lookup_take_Some in Hq as [Hq _].
  apply (Hkeys (take p accepted) rec (drop (S p) accepted)) with (r := earlier).
  - symmetry. now apply take_drop_middle.
  - simpl. lia.
  - unfold JS.len. rewrite length_take_le; [exact Hhalf |].
    apply lookup_lt_Some in Hp. lia.
  - apply list_elem_of_In, list_elem_of_lookup. exists q.
    rewrite lookup_take_lt by exact Hlt. exact Hq.
  - unfold tagKeyOf. now rewrite Hsame.
Qed.

End RecommendationsMore.

(** ** Trending articles, further *)

Module TrendingMore.

Import Trending TrendingNotions.

Lemma mapM'_length {A B : Type} (f : nat -> A -> option B) (l : list A) :
  forall i ys, JS.mapM' f i l = Some ys -> length ys = length l.
Proof.
  induction l as [| x l IH]; intros i ys; simpl.
  - now intros [= <-].
  - destruct (f i x) as [y |]; [| discriminate].
    destruct (JS.mapM' f (S i) l) as [ys0 |] eqn:E; [| discriminate].
    intros [= <-]. simpl. f_equal. now apply (IH (S i)).
Qed.

(** A [map] whose results remember their inputs. *)
Lemma mapM'_retract {A B : Type} (f : nat -> A -> option B) (g : B -> A) (l : list A) :
  (forall i x y, f i x = Some y -> g y = x) ->
  forall i ys, JS.mapM' f i l = Some ys -> map g ys = l.
Proof.
  intros Hg. induction l as [| x l IH]; intros i ys; simpl.
  - now intros [= <-].
  - destruct (f i x) as [y |] eqn:Ey; [| discriminate].
    destruct (JS.mapM' f (S i) l) as [ys0 |] eqn:E; [| discriminate].
    intros [= <-]. simpl. f_equal; [now apply (Hg i) | now apply (IH (S i))].
Qed.

Lemma slice0_count {A : Type} (l : list A) (stop : Z) :
  length (JS.slice0 l stop)
  = if (stop <? 0)%Z then (length l - Z.to_nat (- stop))%nat
    else Nat.min (Z.to_nat stop) (length l).
Proof.
  unfold JS.slice0. destruct (Z.ltb_spec stop 0); rewrite length_take; lia.
Qed.

Lemma slice0_all {A : Type} (l : list A) (stop : Z) :
  (Z.of_nat (length l) <= stop)%Z -> JS.slice0 l stop = l.
Proof.
  intros H. unfold JS.slice0. destruct (Z.ltb_spec stop 0); [lia |].
  apply take_ge. lia.
Qed.

Section WithRuntime.

Variables Math_log Math_exp : Q -> Q.
Variable Math_pow : Q -> Q -> Q.

(** What [rankTrendingArticles] returns, before the properties are read
    off: the sorted scores of the articles that passed, cut at the limit. *)
Lemma rank_shape (clock : nat -> Z) (articles : list Article) (filters : Filters)
    (limit : option Z) (results : list TrendingArticle) :
  rankTrendingArticles Math_log Math_exp Math_pow clock articles filters limit
  = Some results ->
  exists trending,
    results = JS.slice0 (JS.sort (fun x y => hotScore y - hotScore x) trending)
                (default 20%Z limit)
    /\ map article trending = List.filter (passes (clock 0%nat) filters) articles.
Proof.
  unfold rankTrendingArticles.
  destruct (JS.mapM' _ _ _) as [trending |] eqn:E; simpl; [| discriminate].
  intros [= <-]. exists trending. split; [reflexivity |].
  eapply mapM'_retract; [| exact E].
  intros i x y. apply TrendingFacts.calculateHotScore_article.
Qed.


(** X18. The number of articles returned: with [n] articles passing the filter,
    a limit that is not negative returns the smaller of the limit and [n],
    and a negative limit [-k] returns [n - k] of them (none when [k > n]),
    the [k] lowest scores left out. *)
Theorem trending_count (clock : nat -> Z) (articles : list Article)
    (filters : Filters) (limit : option Z) (results : list TrendingArticle) :
  rankTrendingArticles Math_log Math_exp Math_pow clock articles filters limit
  = Some results ->
  let n := length (List.filter (passes (clock 0%nat) filters) articles) in
  let limit := default 20%Z limit in
  ((0 <= limit)%Z -> length results = Nat.min (Z.to_nat limit) n)
  /\ ((limit < 0)%Z -> length results = (n - Z.to_nat (- limit))%nat).
Proof.
  intros (trending & -> & Hmap)%rank_shape. cbv zeta.
  rewrite <- Hmap, length_map, slice0_count.
  unfold JS.sort. rewrite JSFacts.sortBy_length.
  destruct (Z.ltb_spec (default 20%Z limit) 0); split; intros; lia || reflexivity.
Qed.

(** X19. With a limit of at least the number of articles, the ranking returns
    exactly the articles that pass the filter, each once, in another order. *)
Theorem trending_complete (clock : nat -> Z) (articles : list Article)
    (filters : Filters) (limit : option Z) (results : list TrendingArticle) :
  rankTrendingArticles Math_log Math_exp Math_pow clock articles filters limit
  = Some results ->
  (Z.of_nat (length articles) <= default 20%Z limit)%Z ->
  Permutation (map article results)
    (List.filter (passes (clock 0%nat) filters) articles).
Proof.
  intros (trending & -> & Hmap)%rank_shape Hlimit.
  rewrite slice0_all.
  - rewrite <- Hmap. apply Permutation_map. unfold JS.sort.
    apply RecommendationsMore.sortBy_Permutation.
  - unfold JS.sort. rewrite JSFacts.sortBy_length.
    rewrite <- (length_map article), Hmap.
    pose proof (filter_length (passes (clock 0%nat) filters) articles). lia.
Qed.

(** *** The boosts *)

Lemma boost_ge_1 (a : Article) : 1 <= boost a.
Proof.
  unfold boost.
  assert (Hq : 1 <= match qualityScore a with
                    | Some q => if JS.ltb 70 q then 1 + (q - 70) / 200 else 1
                    | None => 1
                    end).
  { destruct (qualityScore a) as [q |]; [| lra].
    destruct (JS.ltb 70 q) eqn:E; [| lra].
    apply JSFacts.ltb_lt in E.
    assert (0 <= (q - 70) / 200) by (apply Qle_shift_div_l; lra). lra. }
  destruct (default false (authorVerified a)); nra.
Qed.

Lemma hotScore_boost (now : Z) (a : Article) (useLogarithmic : option bool)
    (t : TrendingArticle) :
  calculateHotScore Math_log Math_exp Math_pow now a useLogarithmic = Some t ->
  hotScore t == engagementScore t * timeDecay t * boost a
  /\ engagementScore t = calculateEngagementScore Math_log a.
Proof.
  unfold calculateHotScore.
  destruct (if default false useLogarithmic then _ else _) as [decay |];
    simpl; [| discriminate].
  intros [= <-]. simpl. split; [| reflexivity]. unfold boost.
  destruct (default false (authorVerified a));
    destruct (qualityScore a) as [q |]; try ring.
  - destruct (JS.ltb 70 q) eqn:E.
    + assert (Hq : Qeq_bool q 0 = false).
      { apply JSFacts.ltb_lt in E. destruct (Qeq_bool q 0) eqn:E0; [| reflexivity].
        apply Qeq_bool_iff in E0. lra. }
      rewrite Hq. simpl. field.
    + rewrite andb_false_r. ring.
  - destruct (JS.ltb 70 q) eqn:E.
    + assert (Hq : Qeq_bool q 0 = false).
      { apply JSFacts.ltb_lt in E. destruct (Qeq_bool q 0) eqn:E0; [| reflexivity].
        apply Qeq_bool_iff in E0. lra. }
      rewrite Hq. simpl. field.
    + rewrite andb_false_r. ring.
Qed.

(** X20. The boosts for a verified author and for a quality score above 70 never
    lower a base score that is not negative; a verified author is worth a
    factor of exactly 1.1, and a quality score of 70 or less, nothing. *)
Theorem hot_score_boosts (now : Z) (a : Article) (useLogarithmic : option bool)
    (t : TrendingArticle) :
  calculateHotScore Math_log Math_exp Math_pow now a useLogarithmic = Some t ->
  (0 <= engagementScore t * timeDecay t ->
   engagementScore t * timeDecay t <= hotScore t)
  /\ (forall q, qualityScore a = Some q -> q <= 70 ->
        hotScore t
        == engagementScore t * timeDecay t
           * (if default false (authorVerified a) then 11 # 10 else 1))
  /\ (qualityScore a = None ->
        hotScore t
        == engagementScore t * timeDecay t
           * (if default false (authorVerified a) then 11 # 10 else 1)).
Proof.
  intros [Hscore _]%hotScore_boost.
  pose proof (boost_ge_1 a) as Hboost.
  split; [| split].
  - intros Hbase. rewrite Hscore. nra.
  - intros q Hq Hle. rewrite Hscore. unfold boost. rewrite Hq.
    assert (JS.ltb 70 q = false) as -> by (now apply JSFacts.ltb_ge).
    ring.
  - intros Hq. rewrite Hscore. unfold boost. rewrite Hq. ring.
Qed.

(** *** Recency *)

Lemma timeDecay_exponential (now : Z) (a : Article) (t : TrendingArticle) :
  calculateHotScore Math_log Math_exp Math_pow now a (Some false) = Some t ->
  timeDecay t
  = Math_exp (- (inject_Z (now - createdAt a) / (1000 * 60 * 60) / 24) / 7).
Proof.
  unfold calculateHotScore, calculateExponentialDecay. cbv zeta.
  change (default false (Some false)) with false. cbv iota.
  rewrite JSFacts.div_Some by (simpl; lra). simpl.
  now intros [= <-].
Qed.

Section Recency.

Hypothesis exp_monotone : forall x y, x <= y -> Math_exp x <= Math_exp y.
Hypothesis log_nonneg : forall x, 1 <= x -> 0 <= Math_log x.

(** X21. Of two articles with the same counters and the same boosts, scored at
    the same clock reading with the exponential decay, the older one does
    not score higher. *)
Theorem hot_score_recency (now : Z) (older newer : Article)
    (tOlder tNewer : TrendingArticle) :
  (0 <= likesCount older)%Z -> (0 <= commentsCount older)%Z ->
  (0 <= readCount older)%Z ->
  likesCount older = likesCount newer ->
  commentsCount older = commentsCount newer ->
  readCount older = readCount newer ->
  authorVerified older = authorVerified newer ->
  qualityScore older = qualityScore newer ->
  (createdAt older <= createdAt newer)%Z ->
  calculateHotScore Math_log Math_exp Math_pow now older (Some false) = Some tOlder ->
  calculateHotScore Math_log Math_exp Math_pow now newer (Some false) = Some tNewer ->
  hotScore tOlder <= hotScore tNewer.
Proof.
  intros Hl Hc Hr El Ec Er Ev Eq Hage Ho Hn.
  destruct (hotScore_boost _ _ _ _ Ho) as [Hso Heo].
  destruct (hotScore_boost _ _ _ _ Hn) as [Hsn Hen].
  assert (Hboost : boost older = boost newer)
    by (unfold boost; now rewrite Ev, Eq).
  assert (Heng : engagementScore tNewer = engagementScore tOlder).
  { rewrite Heo, Hen. unfold calculateEngagementScore. now rewrite El, Ec, Er. }
  assert (Hpos : 0 <= engagementScore tOlder).
  { rewrite Heo. unfold calculateEngagementScore. apply log_nonneg.
    assert (0 <= inject_Z (likesCount older))
      by (change 0 with (inject_Z 0); now rewrite <- Zle_Qle).
    assert (0 <= inject_Z (commentsCount older))
      by (change 0 with (inject_Z 0); now rewrite <- Zle_Qle).
    assert (0 <= inject_Z (readCount older))
      by (change 0 with (inject_Z 0); now rewrite <- Zle_Qle).
    lra. }
  assert (Hdecay : timeDecay tOlder <= timeDecay tNewer).
  { rewrite (timeDecay_exponential _ _ _ Ho), (timeDecay_exponential _ _ _ Hn).
    apply exp_monotone.
    assert (H : inject_Z (now - createdAt newer) <= inject_Z (now - createdAt older))
      by (rewrite <- Zle_Qle; lia).
    revert H. generalize (inject_Z (now - createdAt newer)) as x.
    generalize (inject_Z (now - createdAt older)) as y.
    intros y x H.
    assert (Hq : x / (1000 * 60 * 60) <= y / (1000 * 60 * 60))
      by (apply Qmult_le_compat_r; [exact H | easy]).
    revert Hq. generalize (x / (1000 * 60 * 60)) as x'.
    generalize (y / (1000 * 60 * 60)) as y'. intros y' x' Hq.
    unfold Qdiv. change (/ 24) with (1 # 24). change (/ 7) with (1 # 7). lra. }
  rewrite Hso, Hsn, Heng, Hboost.
  pose proof (boost_ge_1 newer).
  apply Qmult_le_compat_r; [| lra].
  rewrite (Qmult_comm (engagementScore tOlder) (timeDecay tOlder)),
    (Qmult_comm (engagementScore tOlder) (timeDecay tNewer)).
  now apply Qmult_le_compat_r.
Qed.

End Recency.

(** *** The periods *)


End WithRuntime.

End TrendingMore.

(** ** Recommendations from a reading history *)

Module UserRecommendationsMore.

Import UserRecommendations UserRecommendationsNotions.

(** *** The map *)

Lemma get_set_eq {V : Type} (key : string) (value : V) (m : JSMap.t V) :
  JSMap.get key (JSMap.set key value m) = Some value.
Proof.
  unfold JSMap.get. induction m as [| [key' value'] m IH]; simpl.
  - now rewrite String.eqb_refl.
  - destruct (String.eqb key' key) eqn:E; simpl; rewrite E; [reflexivity | exact IH].
Qed.

Lemma get_set_ne {V : Type} (key key' : string) (value : V) (m : JSMap.t V) :
  key <> key' -> JSMap.get key' (JSMap.set key value m) = JSMap.get key' m.
Proof.
  intros Hne. unfold JSMap.get. induction m as [| [key0 value0] m IH]; simpl.
  - destruct (String.eqb_spec key key'); [contradiction | reflexivity].
  - destruct (String.eqb_spec key0 key) as [-> | H0]; simpl.
    + destruct (String.eqb_spec key key'); [contradiction | reflexivity].
    + destruct (String.eqb key0 key'); [reflexivity | exact IH].
Qed.

Lemma set_entries {V : Type} (key : string) (value : V) (m : JSMap.t V)
    (entry : string * V) :
  In entry (JSMap.set key value m) -> entry = (key, value) \/ In entry m.
Proof.
  induction m as [| [key' value'] m IH]; simpl.
  - intros [<- | []]. now left.
  - destruct (String.eqb_spec key' key) as [-> | Hne]; simpl.
    + intros [<- | H]; auto.
    + intros [<- | H]; [auto |]. destruct (IH H); auto.
Qed.

Lemma set_keys {V : Type} (key : string) (value : V) (m : JSMap.t V) :
  NoDup (map fst m) -> NoDup (map fst (JSMap.set key value m)).
Proof.
  induction m as [| [key' value'] m IH]; simpl.
  - intros _. apply NoDup_singleton.
  - intros [Hnot Hm]%NoDup_cons.
    destruct (String.eqb_spec key' key) as [-> | Hne]; simpl.
    + now apply NoDup_cons.
    + apply NoDup_cons. split; [| now apply IH].
      intros Hin%list_elem_of_In%in_map_iff. destruct Hin as ([k v] & Hk & Hin).
      simpl in Hk. subst k. apply set_entries in Hin as [[= -> ->] | Hin].
      * contradiction.
      * apply Hnot, list_elem_of_In, in_map_iff. now exists (key', v).
Qed.

Lemma get_In {V : Type} (key : string) (value : V) (m : JSMap.t V) :
  JSMap.get key m = Some value -> In (key, value) m.
Proof.
  unfold JSMap.get. induction m as [| [key' value'] m IH]; simpl; [discriminate |].
  destruct (String.eqb_spec key' key) as [-> | Hne]; simpl.
  - intros [= ->]. now left.
  - intros H. right. now apply IH.
Qed.

Lemma In_get {V : Type} (key : string) (value : V) (m : JSMap.t V) :
  NoDup (map fst m) -> In (key, value) m -> JSMap.get key m = Some value.
Proof.
  unfold JSMap.get. induction m as [| [key' value'] m IH]; simpl; [tauto |].
  intros [Hnot Hm]%NoDup_cons [[= -> ->] | Hin].
  - now rewrite String.eqb_refl.
  - destruct (String.eqb_spec key' key) as [-> | Hne]; simpl; [| now apply IH].
    exfalso. apply Hnot, list_elem_of_In, in_map_iff. now exists (key, value).
Qed.

(** *** The aggregation *)

Lemma aggregate_entries (m : JSMap.t RecommendedArticle) (rec : RecommendedArticle)
    (entry : string * RecommendedArticle) :
  In entry (aggregate m rec) ->
  entry = (Recommendations.id (article rec), rec) \/ In entry m.
Proof.
  unfold aggregate.
  destruct (JSMap.get _ m) as [existing |];
    [destruct (JS.ltb _ _) |]; auto using set_entries.
Qed.

Lemma aggregate_keyed (m : JSMap.t RecommendedArticle) (rec : RecommendedArticle) :
  keyed m -> keyed (aggregate m rec).
Proof.
  intros [Hkeys Hid]. split.
  - unfold aggregate.
    destruct (JSMap.get _ m) as [existing |];
      [destruct (JS.ltb _ _) |]; auto using set_keys.
  - intros key r [[= -> ->] | Hin]%aggregate_entries; [reflexivity | now apply Hid].
Qed.

(** A record of the map is replaced by one with a higher score only. *)
Lemma aggregate_scores (m : JSMap.t RecommendedArticle) (rec : RecommendedArticle)
    (key : string) (r : RecommendedArticle) :
  JSMap.get key m = Some r ->
  exists r', JSMap.get key (aggregate m rec) = Some r'
             /\ similarityScore r <= similarityScore r'.
Proof.
  intros Hget. unfold aggregate.
  destruct (String.eqb_spec (Recommendations.id (article rec)) key) as [E | Hne].
  - rewrite E, Hget.
    destruct (JS.ltb _ _) eqn:Hlt.
    + exists rec. split; [apply get_set_eq |].
      apply JSFacts.ltb_lt in Hlt. lra.
    + exists r. split; [exact Hget | lra].
  - exists r. split; [| lra].
    destruct (JSMap.get (Recommendations.id (article rec)) m) as [existing |];
      [destruct (JS.ltb _ _) |]; rewrite ?get_set_ne; auto.
Qed.

(** After a record was offered, the map holds one with its id and a score
    that is not lower. *)
Lemma aggregate_covers (m : JSMap.t RecommendedArticle) (rec : RecommendedArticle) :
  exists r', JSMap.get (Recommendations.id (article rec)) (aggregate m rec) = Some r'
             /\ similarityScore rec <= similarityScore r'.
Proof.
  unfold aggregate.
  destruct (JSMap.get _ m) as [existing |] eqn:Hget.
  - destruct (JS.ltb _ _) eqn:Hlt.
    + exists rec. split; [apply get_set_eq | lra].
    + exists existing. split; [exact Hget | now apply JSFacts.ltb_ge].
  - exists rec. split; [apply get_set_eq | lra].
Qed.

Lemma fold_aggregate (recs : list RecommendedArticle) :
  forall m,
  keyed m ->
  keyed (foldl aggregate m recs)
  /\ (forall entry, In entry (foldl aggregate m recs) ->
        In entry m \/ In (snd entry) recs)
  /\ (forall key r, JSMap.get key m = Some r ->
        exists r', JSMap.get key (foldl aggregate m recs) = Some r'
                   /\ similarityScore r <= similarityScore r')
  /\ (forall r, In r recs ->
        exists r', JSMap.get (Recommendations.id (article r)) (foldl aggregate m recs)
                   = Some r'
                   /\ similarityScore r <= similarityScore r').
Proof.
  induction recs as [| rec recs IH]; intros m Hm; simpl.
  - split; [exact Hm |]. split; [auto |]. split; [| tauto].
    intros key r Hget. exists r. split; [exact Hget | lra].
  - destruct (IH (aggregate m rec) (aggregate_keyed m rec Hm))
      as (Hkeyed & Hentries & Hscores & Hcovers).
    split; [exact Hkeyed |]. split; [| split].
    + intros entry Hin. destruct (Hentries entry Hin) as [H | H]; [| auto].
      apply aggregate_entries in H as [-> | H]; simpl; auto.
    + intros key r Hget.
      destruct (aggregate_scores m rec key r Hget) as (r1 & Hget1 & Hle1).
      destruct (Hscores key r1 Hget1) as (r2 & Hget2 & Hle2).
      exists r2. split; [exact Hget2 | lra].
    + intros r [<- | Hin]; [| now apply Hcovers].
      destruct (aggregate_covers m rec) as (r1 & Hget1 & Hle1).
      destruct (Hscores _ r1 Hget1) as (r2 & Hget2 & Hle2).
      exists r2. split; [exact Hget2 | lra].
Qed.

Lemma filterAt_In {A : Type} (keep : nat -> A -> bool) (l : list A) (x : A) :
  forall i, In x (filterAt keep i l) -> In x l /\ exists j, keep j x = true.
Proof.
  induction l as [| y l IH]; intros i; simpl; [tauto |].
  destruct (keep i y) eqn:E.
  - intros [<- | Hin]; [split; [now left | eauto] |].
    destruct (IH _ Hin). auto.
  - intros Hin. destruct (IH _ Hin). auto.
Qed.

Section WithRuntime.

Variable Math_log : Q -> Q.
Variable clock : nat -> nat -> Z.

Lemma recommendationsFor_spec (userReadArticles allArticles : list Recommendations.Article)
    (limit : Z) (k : nat) (readArticle : Recommendations.Article) :
  exists recs,
    recommendationsFor Math_log clock userReadArticles allArticles limit k readArticle
    = Some recs
    /\ (length recs <= Z.to_nat limit)%nat
    /\ forall rec, In rec recs ->
         recommended clock userReadArticles allArticles readArticle rec.
Proof.
  unfold recommendationsFor.
  destruct (RecommendationsMore.recommendations_spec Math_log
              (fun i => clock k (length allArticles + i)%nat) readArticle
              (recentArticles clock allArticles k)
              (Some (map Recommendations.id userReadArticles)) (Some limit))
    as (results & h & -> & Hlen & Hall).
  simpl. exists (map (returned h) results). split; [reflexivity |].
  split; [now rewrite length_map |].
  intros rec (r & <- & Hr)%in_map_iff.
  destruct (Hall r Hr) as (Hin & _ & Hex & Hpos & Hne & Hl). simpl in Hex.
  apply filterAt_In in Hin as [Hin [i Hi]].
  unfold recommended. simpl.
  split; [exact Hin |]. split; [eauto |]. split; [exact Hex |].
  split; [exact Hpos |]. split; [exact Hne |].
  destruct Hl as (similarity & shared & array & j & HJ & Hlook & Hperm & _).
  assert (Harr : Recommendations.sharedTagsOf h r = array)
    by (unfold Recommendations.sharedTagsOf; now rewrite Hlook).
  rewrite Harr in Hne.
  assert (Hshared : shared <> [])
    by (eapply RecommendationsMore.permutation_nonempty; eauto).
  pose proof (RecommendationsMore.jaccard_shared_names Math_log readArticle
                (Recommendations.article r) _ similarity shared HJ) as Hnames.
  destruct shared as [| n shared]; [contradiction |].
  apply Forall_cons in Hnames as [(tagId & HA & HB & _) _]. eauto.
Qed.

Lemma readLoop_spec (userReadArticles allArticles : list Recommendations.Article)
    (limit : Z) (readArticles : list Recommendations.Article) :
  forall k m,
  keyed m ->
  exists m',
    readLoop Math_log clock userReadArticles allArticles limit k m readArticles
    = Some m'
    /\ keyed m'
    /\ (forall entry, In entry m' ->
          In entry m
          \/ exists j readArticle recs,
               readArticles !! j = Some readArticle
               /\ recommendationsFor Math_log clock userReadArticles allArticles
                    limit (k + j) readArticle = Some recs
               /\ In (snd entry) recs)
    /\ (forall key r, JSMap.get key m = Some r ->
          exists r', JSMap.get key m' = Some r'
                     /\ similarityScore r <= similarityScore r')
    /\ (forall j readArticle recs r,
          readArticles !! j = Some readArticle ->
          recommendationsFor Math_log clock userReadArticles allArticles
            limit (k + j) readArticle = Some recs ->
          In r recs ->
          exists r', JSMap.get (Recommendations.id (article r)) m' = Some r'
                     /\ similarityScore r <= similarityScore r').
Proof.
  induction readArticles as [| readArticle rest IH]; intros k m Hm; simpl.
  - exists m. split; [reflexivity |]. split; [exact Hm |].
    split; [auto |]. split.
    + intros key r Hget. exists r. split; [exact Hget | lra].
    + intros j readArticle recs r Hj. discriminate.
  - destruct (recommendationsFor_spec userReadArticles allArticles limit k readArticle)
      as (recs & Hrecs & _ & _).
    rewrite Hrecs. simpl.
    destruct (fold_aggregate recs m Hm) as (Hkeyed & Hentries & Hscores & Hcovers).
    destruct (IH (S k) _ Hkeyed) as (m' & Hloop & Hkeyed' & Hentries' & Hscores' & Hcovers').
    exists m'. split; [exact Hloop |]. split; [exact Hkeyed' |]. split; [| split].
    + intros entry Hin. destruct (Hentries' entry Hin) as [H | (j & ra & rs & Hj & Hrs & Hr)].
      * destruct (Hentries entry H) as [H' | H']; [auto |].
        right. exists 0%nat, readArticle, recs. rewrite Nat.add_0_r. auto.
      * right. exists (S j), ra, rs. rewrite Nat.add_succ_r. auto.
    + intros key r Hget.
      destruct (Hscores key r Hget) as (r1 & Hget1 & Hle1).
      destruct (Hscores' key r1 Hget1) as (r2 & Hget2 & Hle2).
      exists r2. split; [exact Hget2 | lra].
    + intros [| j] ra rs r Hj Hrs Hr.
      * simpl in Hj. injection Hj as <-. rewrite Nat.add_0_r, Hrecs in Hrs.
        injection Hrs as <-.
        destruct (Hcovers r Hr) as (r1 & Hget1 & Hle1).
        destruct (Hscores' _ r1 Hget1) as (r2 & Hget2 & Hle2).
        exists r2. split; [exact Hget2 | lra].
      * simpl in Hj. rewrite Nat.add_succ_r in Hrs. eapply Hcovers'; eauto.
Qed.

(** What [getUserRecommendations] returns: the records of a map, sorted and
    cut at the limit. *)
Lemma getUserRecommendations_shape
    (userReadArticles allArticles : list Recommendations.Article) (limit : option Z) :
  exists m,
    getUserRecommendations Math_log clock userReadArticles allArticles limit
    = Some (JS.slice0
              (JS.sort (fun x y => similarityScore y - similarityScore x)
                 (JSMap.values m))
              (default 10%Z limit))
    /\ keyed m
    /\ (forall entry, In entry m ->
          exists k readArticle recs,
            take 5 userReadArticles !! k = Some readArticle
            /\ recommendationsFor Math_log clock userReadArticles allArticles
                 (default 10%Z limit) k readArticle = Some recs
            /\ In (snd entry) recs)
    /\ (forall k readArticle recs r,
          take 5 userReadArticles !! k = Some readArticle ->
          recommendationsFor Math_log clock userReadArticles allArticles
            (default 10%Z limit) k readArticle = Some recs ->
          In r recs ->
          exists r', JSMap.get (Recommendations.id (article r)) m = Some r'
                     /\ similarityScore r <= similarityScore r').
Proof.
  unfold getUserRecommendations.
  assert (Hempty : keyed []) by (split; [constructor | intros ? ? []]).
  destruct userReadArticles as [| a reads].
  - exists []. simpl. split.
    { unfold JS.slice0. destruct (_ <? 0)%Z; now rewrite take_nil. }
    split; [exact Hempty |]. split; [intros ? [] |]. intros k ra recs r Hk.
    discriminate.
  - change (length (a :: reads) =? 0)%nat with false. cbv iota.
    change (JS.slice0 (a :: reads) 5) with (take 5 (a :: reads)).
    destruct (readLoop_spec (a :: reads) allArticles (default 10%Z limit)
                (take 5 (a :: reads)) 0%nat [] Hempty)
      as (m & Hloop & Hkeyed & Hentries & _ & Hcovers).
    cbv zeta. rewrite Hloop. simpl.
    exists m. split; [reflexivity |]. split; [exact Hkeyed |]. split.
    + intros entry Hin. destruct (Hentries entry Hin) as [[] | H]. exact H.
    + exact Hcovers.
Qed.

Lemma results_In (m : JSMap.t RecommendedArticle) (limit : Z) (rec : RecommendedArticle) :
  In rec (JS.slice0
            (JS.sort (fun x y => similarityScore y - similarityScore x) (JSMap.values m))
            limit) ->
  exists key, In (key, rec) m.
Proof.
  intros Hin%JSFacts.slice0_In. unfold JS.sort in Hin.
  apply JSFacts.sortBy_In in Hin. unfold JSMap.values in Hin.
  apply in_map_iff in Hin as ([key r] & <- & Hin). eauto.
Qed.

(** X23. [getUserRecommendations] returns at most [limit] records (none for a
    limit that is not positive, none for an empty history); each is an
    article of the collection that the user has not read, no more than 365
    days old at a reading of the clock, with a positive score. *)
Theorem user_recommendations_results
    (userReadArticles allArticles : list Recommendations.Article) (limit : option Z) :
  exists results,
    getUserRecommendations Math_log clock userReadArticles allArticles limit
    = Some results
    /\ (length results <= Z.to_nat (default 10%Z limit))%nat
    /\ (userReadArticles = [] -> results = [])
    /\ forall rec, In rec results ->
         In (article rec) allArticles
         /\ ~ In (Recommendations.id (article rec))
                (map Recommendations.id userReadArticles)
         /\ 0 < similarityScore rec
         /\ exists k i, withinYear (clock k i) (article rec) = true.
Proof.
  destruct (getUserRecommendations_shape userReadArticles allArticles limit)
    as (m & Heq & _ & Hentries & _).
  eexists. split; [exact Heq |].
  assert (Hrec : forall rec key, In (key, rec) m ->
            exists readArticle recs,
              (length recs <= Z.to_nat (default 10%Z limit))%nat
              /\ In rec recs
              /\ recommended clock userReadArticles allArticles readArticle rec).
  { intros rec key Hin.
    destruct (Hentries _ Hin) as (k & readArticle & recs & _ & Hrecs & Hr).
    destruct (recommendationsFor_spec userReadArticles allArticles
                (default 10%Z limit) k readArticle) as (recs' & Hrecs' & Hlen & Hall).
    rewrite Hrecs in Hrecs'. injection Hrecs' as <-.
    exists readArticle, recs. auto. }
  split; [| split].
  - destruct (Z.ltb_spec 0 (default 10%Z limit)) as [Hpos | Hneg].
    + apply RecommendationsMore.slice0_length. lia.
    + assert (m = []) as ->.
      { destruct m as [| [key rec] m]; [reflexivity | exfalso].
        destruct (Hrec rec key (or_introl eq_refl)) as (_ & recs & Hlen & Hin & _).
        destruct recs; [destruct Hin | simpl in Hlen; lia]. }
      unfold JS.slice0. simpl. destruct (_ <? 0)%Z; rewrite take_nil; simpl; lia.
  - intros ->. assert (m = []) as ->.
    { destruct m as [| entry m]; [reflexivity | exfalso].
      destruct (Hentries entry (or_introl eq_refl)) as (k & ra & _ & Hk & _).
      discriminate. }
    unfold JS.slice0. simpl. destruct (_ <? 0)%Z; now rewrite take_nil.
  - intros rec [key Hin]%results_In.
    destruct (Hrec rec key Hin)
      as (_ & _ & _ & _ & Hall & Hrecent & Hunread & Hpos & _).
    auto.
Qed.

(** X24. The records returned have distinct ids and are in descending order of
    score. *)
Theorem user_recommendations_ranked
    (userReadArticles allArticles : list Recommendations.Article) (limit : option Z) :
  exists results,
    getUserRecommendations Math_log clock userReadArticles allArticles limit
    = Some results
    /\ NoDup (map (fun rec => Recommendations.id (article rec)) results)
    /\ Sorted (fun x y => similarityScore y <= similarityScore x) results.
Proof.
  destruct (getUserRecommendations_shape userReadArticles allArticles limit)
    as (m & Heq & [Hkeys Hid] & _ & _).
  eexists. split; [exact Heq |]. split.
  - set (sorted := JS.sort _ (JSMap.values m)).
    assert (Hsorted : NoDup (map (fun rec => Recommendations.id (article rec)) sorted)).
    { unfold sorted, JS.sort. rewrite RecommendationsMore.sortBy_Permutation.
      unfold JSMap.values. rewrite map_map.
      replace (map (fun e => Recommendations.id (article (snd e))) m)
        with (map fst m); [exact Hkeys |].
      apply map_ext_in. intros [key rec] Hin. simpl. now apply Hid. }
    unfold JS.slice0.
    destruct (_ <? 0)%Z;
      (eapply sublist_NoDup; [exact Hsorted |]);
      change map with (@fmap list _); rewrite fmap_take; apply sublist_take.
  - apply RecommendationsMore.slice0_sorted, JSFacts.sort_descending.
Qed.

(** X25. A returned record has the highest score that any of the first five
    turns gave an article with its id. *)
Theorem user_recommendations_best
    (userReadArticles allArticles : list Recommendations.Article) (limit : option Z) :
  exists results,
    getUserRecommendations Math_log clock userReadArticles allArticles limit
    = Some results
    /\ forall rec, In rec results ->
       (exists k readArticle recs,
          (k < 5)%nat /\ userReadArticles !! k = Some readArticle
          /\ recommendationsFor Math_log clock userReadArticles allArticles
                (default 10%Z limit) k readArticle = Some recs
          /\ In rec recs)
       /\ forall k readArticle recs r,
            (k < 5)%nat ->
            userReadArticles !! k = Some readArticle ->
            recommendationsFor Math_log clock userReadArticles allArticles
              (default 10%Z limit) k readArticle = Some recs ->
            In r recs ->
            Recommendations.id (article r) = Recommendations.id (article rec) ->
            similarityScore r <= similarityScore rec.
Proof.
  destruct (getUserRecommendations_shape userReadArticles allArticles limit)
    as (m & Heq & [Hkeys Hid] & Hentries & Hcovers).
  eexists. split; [exact Heq |].
  intros rec [key Hin]%results_In. split.
  - destruct (Hentries _ Hin) as (k & ra & recs & Hk & Hrecs & Hr).
    apply lookup_take_Some in Hk as [Hk Hlt]. exists k, ra, recs. auto.
  - intros k ra recs r Hlt Hk Hrecs Hr Hsame.
    destruct (Hcovers k ra recs r) as (r' & Hget & Hle); [| exact Hrecs | exact Hr |].
    { now apply lookup_take_Some. }
    pose proof (Hid _ _ Hin) as ->.
    apply (In_get _ _ _ Hkeys) in Hin.
    rewrite Hsame, Hin in Hget. injection Hget as <-. exact Hle.
Qed.

(** X26. A returned record shares a tag with one of the first five read
    articles: the history beyond the fifth article only excludes. *)
Theorem user_recommendations_seeded
    (userReadArticles allArticles : list Recommendations.Article) (limit : option Z) :
  exists results,
    getUserRecommendations Math_log clock userReadArticles allArticles limit
    = Some results
    /\ forall rec, In rec results ->
         sharedTags rec <> []
         /\ exists k readArticle tagId,
              (k < 5)%nat /\ userReadArticles !! k = Some readArticle
              /\ Recommendations.hasTag tagId readArticle = true
              /\ Recommendations.hasTag tagId (article rec) = true.
Proof.
  destruct (getUserRecommendations_shape userReadArticles allArticles limit)
    as (m & Heq & _ & Hentries & _).
  eexists. split; [exact Heq |].
  intros rec [key Hin]%results_In.
  destruct (Hentries _ Hin) as (k & readArticle & recs & Hk & Hrecs & Hr).
  apply lookup_take_Some in Hk as [Hk Hlt].
  destruct (recommendationsFor_spec userReadArticles allArticles
              (default 10%Z limit) k readArticle) as (recs' & Hrecs' & _ & Hall).
  rewrite Hrecs in Hrecs'. injection Hrecs' as <-.
  destruct (Hall rec Hr) as (_ & _ & _ & _ & Hne & tagId & HA & HB).
  split; [exact Hne |]. exists k, readArticle, tagId. auto.
Qed.

End WithRuntime.

End UserRecommendationsMore.

(** ** The further properties on the sample inputs *)

Module EngineMore.

Import Samples MoreSamples.

(** The stand-in for [Math.exp] grows with its argument. *)
Lemma Math_exp_ratio_monotone (x y : Q) :
  x <= y -> Math_exp_ratio x <= Math_exp_ratio y.
Proof.
  intros Hxy. unfold Math_exp_ratio.
  destruct (Qle_bool x 0) eqn:Ex; destruct (Qle_bool y 0) eqn:Ey;
    rewrite !Qred_correct.
  - apply Qle_bool_iff in Ex, Ey.
    apply Qle_shift_div_l; [lra |].
    assert (H : 1 / (1 - x) * (1 - y) == (1 - y) / (1 - x)) by (field; lra).
    rewrite H. apply Qle_shift_div_r; lra.
  - apply Qle_bool_iff in Ex. apply JSFacts.Qle_bool_false in Ey.
    apply Qle_shift_div_r; [lra |]. nra.
  - apply JSFacts.Qle_bool_false in Ex. apply Qle_bool_iff in Ey. lra.
  - lra.
Qed.

Lemma rank_query_case_witness :
  BM25.rankDocumentsWithBM25 JS.Math_log_series "Rust MEMORY" documents defaults
  = BM25.rankDocumentsWithBM25 JS.Math_log_series "rust memory" documents defaults.
Proof.
  apply BM25More.rank_query_case. reflexivity.
Defined.

Lemma rank_results_match_witness :
  exists results sd,
    BM25.rankDocumentsWithBM25 JS.Math_log_series "rust memory" documents defaults
    = Some results
    /\ In sd results
    /\ exists term,
         In term (BM25.tokenize "rust memory") /\ BM25.isStopWord term = false
         /\ In term (BM25.tokenize (BM25.text (BM25.document sd))).
Proof.
  destruct (BM25.rankDocumentsWithBM25 JS.Math_log_series "rust memory" documents
              defaults) as [[| sd results] |] eqn:E;
    [vm_compute in E; discriminate | | vm_compute in E; discriminate].
  exists (sd :: results), sd. split; [reflexivity |]. split; [now left |].
  apply (BM25More.rank_results_match JS.Math_log_series "rust memory" documents
           defaults (sd :: results) sd); [reflexivity | exact E | now left].
Defined.

Lemma rank_unknown_terms_witness :
  BM25.rankDocumentsWithBM25 JS.Math_log_series "quantum the" documents defaults
  = Some [].
Proof.
  apply BM25More.rank_unknown_terms.
  - discriminate.
  - reflexivity.
  - intros term Hterm. vm_compute in Hterm.
    destruct Hterm as [<- | [<- | []]]; [right | left; reflexivity].
    intros doc [<- | [<- | [<- | []]]]; vm_compute; intuition discriminate.
Defined.

Lemma rank_returns_match_witness :
  exists results sd,
    BM25.rankDocumentsWithBM25 JS.Math_log_series "rust" documents defaults
    = Some results
    /\ In sd results /\ BM25.document sd = rustDoc /\ 0 < BM25.score sd.
Proof.
  destruct (BM25.calculateIDF JS.Math_log_series "rust" documents
              (BM25.buildInvertedIndex documents)) as [idf |] eqn:E;
    [| vm_compute in E; discriminate].
  apply (BM25More.rank_returns_match JS.Math_log_series "rust" documents defaults
           rustDoc "rust" idf).
  - reflexivity.
  - split; [discriminate | reflexivity].
  - reflexivity.
  - now left.
  - now left.
  - reflexivity.
  - now left.
  - exact E.
  - vm_compute in E. injection E as <-. reflexivity.
Defined.

Lemma rank_common_terms_witness :
  BM25.rankDocumentsWithBM25 JS.Math_log_series "rust" [rustDoc; pastaDoc] defaults
  = Some [].
Proof.
  apply (BM25More.rank_common_terms JS.Math_log_series BM25More.Math_log_series_nonpos).
  - discriminate.
  - reflexivity.
  - intros term ids Hterm Hids. vm_compute in Hterm.
    destruct Hterm as [<- | []]. vm_compute in Hids. injection Hids as <-.
    vm_compute. lia.
Defined.

Lemma search_results_witness :
  exists results r,
    Search.searchArticlesWithBM25 JS.Math_log_series "rust water" articles
    = Some results
    /\ In r results
    /\ exists a, Search.article r = Some a /\ In a articles.
Proof.
  destruct (Search.searchArticlesWithBM25 JS.Math_log_series "rust water" articles)
    as [[| r results] |] eqn:E;
    [vm_compute in E; discriminate | | vm_compute in E; discriminate].
  exists (r :: results), r. split; [reflexivity |]. split; [now left |].
  destruct (SearchMore.search_results JS.Math_log_series "rust water" articles
              (r :: results) r E (or_introl eq_refl)) as (a & Ha & Hin & _).
  exists a. auto.
Defined.

Lemma search_blank_witness :
  Search.searchArticlesWithBM25 JS.Math_log_series " " articles
  = Some (map (fun a => {| Search.article := Some a; Search.score := 0 |}) articles).
Proof.
  apply SearchMore.search_blank.
  - reflexivity.
  - apply NoDup_ListNoDup. repeat constructor; simpl; intuition discriminate.
Defined.

Lemma jaccard_range_witness :
  exists similarity shared,
    Recommendations.calculateWeightedJaccard JS.Math_log_series proofsArticle
      zetaArticle corpus = Some (similarity, shared)
    /\ 0 <= similarity <= 1.
Proof.
  apply (RecommendationsMore.jaccard_range JS.Math_log_series
           (fun x Hx => proj1 (JSFacts.Math_log_series_sign x Hx)));
    simpl; lia.
Defined.

Lemma recency_decay_future_witness :
  (1 # 2) <= Recommendations.applyRecencyDecay 0 (1 # 2) oneYear
  /\ (oneYear = 0%Z ->
      Recommendations.applyRecencyDecay 0 (1 # 2) oneYear == 1 # 2)
  /\ ((0 < oneYear)%Z ->
      (1 # 2) < Recommendations.applyRecencyDecay 0 (1 # 2) oneYear).
Proof.
  apply RecommendationsMore.recency_decay_future.
  - reflexivity.
  - unfold oneYear. lia.
Defined.


Lemma trending_count_witness :
  exists results,
    Trending.rankTrendingArticles JS.Math_log_series Math_exp_ratio (fun _ _ => 0)
      dayTen trendingArticles noFilters (Some 2%Z) = Some results
    /\ length results = 2%nat.
Proof.
  destruct (Trending.rankTrendingArticles JS.Math_log_series Math_exp_ratio
              (fun _ _ => 0) dayTen trendingArticles noFilters (Some 2%Z))
    as [results |] eqn:E; [| vm_compute in E; discriminate].
  exists results. split; [reflexivity |].
  pose proof (TrendingMore.trending_count _ _ _ _ _ _ _ _ E) as H.
  cbv zeta in H. destruct H as [H _]. rewrite H; [| simpl; lia].
  vm_compute. reflexivity.
Defined.

Lemma trending_complete_witness :
  exists results,
    Trending.rankTrendingArticles JS.Math_log_series Math_exp_ratio (fun _ _ => 0)
      dayTen trendingArticles noFilters None = Some results
    /\ Permutation (map Trending.article results)
         (List.filter (TrendingNotions.passes (dayTen 0%nat) noFilters)
            trendingArticles).
Proof.
  destruct (Trending.rankTrendingArticles JS.Math_log_series Math_exp_ratio
              (fun _ _ => 0) dayTen trendingArticles noFilters None)
    as [results |] eqn:E; [| vm_compute in E; discriminate].
  exists results. split; [reflexivity |].
  apply (TrendingMore.trending_complete _ _ _ _ _ _ _ _ E). simpl. lia.
Defined.

Lemma hot_score_boosts_witness :
  exists t,
    Trending.calculateHotScore JS.Math_log_series Math_exp_ratio (fun _ _ => 0)
      (10 * oneDay) freshArticle None = Some t
    /\ Trending.engagementScore t * Trending.timeDecay t <= Trending.hotScore t.
Proof.
  destruct (Trending.calculateHotScore JS.Math_log_series Math_exp_ratio
              (fun _ _ => 0) (10 * oneDay) freshArticle None)
    as [t |] eqn:E; [| vm_compute in E; discriminate].
  exists t. split; [reflexivity |].
  apply (TrendingMore.hot_score_boosts _ _ _ _ _ _ _ E).
  vm_compute in E. injection E as <-. vm_compute. discriminate.
Defined.

Lemma hot_score_recency_witness :
  exists tOlder tNewer,
    Trending.calculateHotScore JS.Math_log_series Math_exp_ratio (fun _ _ => 0)
      (10 * oneDay) agedArticle (Some false) = Some tOlder
    /\ Trending.calculateHotScore JS.Math_log_series Math_exp_ratio (fun _ _ => 0)
         (10 * oneDay) freshArticle (Some false) = Some tNewer
    /\ Trending.hotScore tOlder <= Trending.hotScore tNewer.
Proof.
  destruct (Trending.calculateHotScore JS.Math_log_series Math_exp_ratio
              (fun _ _ => 0) (10 * oneDay) agedArticle (Some false))
    as [tOlder |] eqn:Eo; [| vm_compute in Eo; discriminate].
  destruct (Trending.calculateHotScore JS.Math_log_series Math_exp_ratio
              (fun _ _ => 0) (10 * oneDay) freshArticle (Some false))
    as [tNewer |] eqn:En; [| vm_compute in En; discriminate].
  exists tOlder, tNewer. split; [reflexivity |]. split; [reflexivity |].
  apply (TrendingMore.hot_score_recency JS.Math_log_series Math_exp_ratio
           (fun _ _ => 0) Math_exp_ratio_monotone
           (fun x Hx => proj1 (JSFacts.Math_log_series_sign x Hx))
           (10 * oneDay) agedArticle freshArticle tOlder tNewer);
    try reflexivity; try exact Eo; try exact En; simpl; unfold oneDay; lia.
Defined.

(** *** Sample runs *)

(** The ranking of the sample articles at the tenth day: the newer of two
    like articles first, the article without engagement last. *)
Example trending_sample :
  exists results,
    Trending.rankTrendingArticles JS.Math_log_series Math_exp_ratio (fun _ _ => 0)
      dayTen trendingArticles noFilters None = Some results
    /\ map Trending.article results = [freshArticle; agedArticle; quietArticle].
Proof. eexists. split; vm_compute; reflexivity. Qed.

(** Both read articles lead to the same article; the record kept is the one
    of the first turn, whose score is the higher one. *)
Example user_recommendations_sample :
  exists rec first second,
    UserRecommendations.getUserRecommendations JS.Math_log_series epoch history
      corpus None = Some [rec]
    /\ UserRecommendations.recommendationsFor JS.Math_log_series epoch history
         corpus 10 0 zetaArticle = Some [first]
    /\ UserRecommendations.recommendationsFor JS.Math_log_series epoch history
         corpus 10 1 otherArticle = Some [second]
    /\ rec = first
    /\ UserRecommendations.article second = UserRecommendations.article first
    /\ UserRecommendations.similarityScore second
       < UserRecommendations.similarityScore first
    /\ UserRecommendations.sharedTags rec = ["alpha"; "zeta"]%string.
Proof.
  eexists _, _, _.
  split; [vm_compute; reflexivity |].
  split; [vm_compute; reflexivity |].
  split; [vm_compute; reflexivity |].
  split; [reflexivity |].
  split; [reflexivity |].
  split; [vm_compute; reflexivity | reflexivity].
Qed.

(** Of the two words of the query, one is in a single article and the other
    in two of the three, so it does not count. *)
Example search_sample :
  exists r,
    Search.searchArticlesWithBM25 JS.Math_log_series "rust water" articles = Some [r]
    /\ Search.article r = Some rustArticle.
Proof. eexists. split; vm_compute; reflexivity. Qed.

End EngineMore.
